(** * m32-firmware-util: container codec and image pipeline

    A shallow embedding of [src/m32-firmware-util.c].  Buffers are lists of
    bytes, C pointers into a buffer are offsets, and every C function is a
    function from the buffer before the call to the buffer after it.  A
    computation has type [option _]: [None] stands for an execution that
    leaves the allocated buffer (an out-of-bounds read or write) or overflows
    an [int] (the loop counter of the checksum routine, the length of the
    encrypted data), that is, for behaviour the C standard leaves
    undefined. *)

From stdpp Require Import list numbers strings.
From Stdlib Require Import Init.Byte ZArith Lia.
Import Byte.

Local Open Scope Z_scope.

(** ** Machine integers *)

Definition uint8_t (z : Z) : Z := z mod 2 ^ 8.
Definition uint16_t (z : Z) : Z := z mod 2 ^ 16.
Definition uint32_t (z : Z) : Z := z mod 2 ^ 32.
Definition size_t (z : Z) : Z := z mod 2 ^ 64.
(** Conversion to [int]: two's complement wrap-around, as gcc defines it. *)
Definition int (z : Z) : Z := (z + 2 ^ 31) mod 2 ^ 32 - 2 ^ 31.

Definition SIZE_MAX : Z := 2 ^ 64 - 1.
Definition INT_MAX : Z := 2 ^ 31 - 1.

(** ** Bytes and buffers *)

Definition u8 (b : byte) : Z := Z.of_N (Byte.to_N b).
Definition to_u8 (z : Z) : byte :=
  default x00 (Byte.of_N (Z.to_N (uint8_t z))).

Definition bytes_of_string (s : string) : list byte := String.list_byte_of_string s.

(** [buffer[p]] as an rvalue. *)
Definition load (m : list byte) (p : Z) : option Z :=
  if p <? 0 then None else u8 <$> m !! Z.to_nat p.

(** [buffer[p] = v;] the value is converted to [uint8_t]. *)
Definition store (m : list byte) (p : Z) (v : Z) : option (list byte) :=
  if (0 <=? p) && (p <? Z.of_nat (length m))
  then Some (<[Z.to_nat p := to_u8 v]> m) else None.

(** The [n] bytes at [&buffer[p]]. *)
Definition read_bytes (m : list byte) (p n : Z) : option (list byte) :=
  if (0 <=? p) && (0 <=? n) && (p + n <=? Z.of_nat (length m))
  then Some (take (Z.to_nat n) (drop (Z.to_nat p) m)) else None.

(** [memcpy(&buffer[p], src, length src)]. *)
Definition write_bytes (m : list byte) (p : Z) (src : list byte)
  : option (list byte) :=
  if (0 <=? p) && (p + Z.of_nat (length src) <=? Z.of_nat (length m))
  then Some (take (Z.to_nat p) m ++ src
             ++ drop (Z.to_nat p + length src) m)
  else None.

(** The view of the buffer that the pointer [&buffer[p]] gives. *)
Definition view (m : list byte) (p : Z) : list byte := drop (Z.to_nat p) m.

(** ** Defines *)

Definition M32_FIRMWARE_UTIL_FW_HEADER_LENGTH : Z := 80.
Definition M32_FIRMWARE_UTIL_MAX_PARTITIONS : Z := 16.
Definition M32_FIRMWARE_UTIL_FW_DATA_LENGTH_OFFSET : Z := 0x2C.
Definition CHECKUM_PATCHER_DATA_CHECKSUM_OFFSET : Z := 0x0E.
Definition CHECKUM_PATCHER_HEADER_CHECKSUM_OFFSET : Z :=
  M32_FIRMWARE_UTIL_FW_HEADER_LENGTH - 2.
Definition M32_FIRMWARE_HEADER_LENGTH : Z := 16.
Definition M32_FIRMWARE_SIGNATURE_LENGTH : Z := 256.
Definition M32_FIRMWARE_INITIALIZATION_VECTOR_LENGTH : Z := 33.
Definition M32_FIRMWARE_SALT_INFO_LENGTH : Z := 16.
Definition M32_FIRMWARE_DECRYPTION_INFO_LENGTH : Z :=
  M32_FIRMWARE_INITIALIZATION_VECTOR_LENGTH + M32_FIRMWARE_SALT_INFO_LENGTH.
Definition AES_BLOCK_SIZE : Z := 16.

(** ** Checksum calculation *)

(** One pass of the body of the loop of [Caclulate16BitSum]:
    [currentValue = buffer[i] | (buffer[i + 1] << 8); checksumNew +=
    currentValue; if (checksumNew < currentValue) checksumNew++;]. *)
Definition Caclulate16BitSum_step (checksumNew : Z) (b0 b1 : byte) : Z :=
  let currentValue := uint16_t (Z.lor (u8 b0) (Z.shiftl (u8 b1) 8)) in
  let checksumNew := uint16_t (checksumNew + currentValue) in
  if checksumNew <? currentValue then uint16_t (checksumNew + 1)
  else checksumNew.

(** [for (int i = 0; i < bufferLength; i += 2)], where [buf] is the view
    at [&buffer[i]].  Both bytes of a word are read, also when
    [bufferLength] is odd; the counter is an [int]. *)
Fixpoint Caclulate16BitSum_loop (buf : list byte) (i bufferLength : Z)
    (checksumNew : Z) : option Z :=
  if i <? bufferLength then
    match buf with
    | b0 :: b1 :: buf' =>
        if INT_MAX <? i + 2 then None
        else Caclulate16BitSum_loop buf' (i + 2) bufferLength
               (Caclulate16BitSum_step checksumNew b0 b1)
    | _ => None
    end
  else Some checksumNew.

(** The value [checksumNew] holds after the optional inversion. *)
Definition Caclulate16BitSum_value (m : list byte) (buffer bufferLength : Z)
    (inverted : bool) : option Z :=
  checksumNew ← Caclulate16BitSum_loop (view m buffer) 0 bufferLength 0;
  Some (if inverted then uint16_t (0xFFFF - checksumNew) else checksumNew).

(** [Caclulate16BitSum(name, partitionIndex, buffer, bufferLength,
    checksumBuffer, inverted)]: the buffer after the call.  The messages it
    prints are not modelled. *)
Definition Caclulate16BitSum (m : list byte) (buffer bufferLength : Z)
    (checksumBuffer : Z) (inverted : bool) : option (list byte) :=
  c0 ← load m checksumBuffer;
  c1 ← load m (checksumBuffer + 1);
  let checksumOld := uint16_t (Z.lor c0 (Z.shiftl c1 8)) in
  checksumNew ← Caclulate16BitSum_value m buffer bufferLength inverted;
  if negb (checksumNew =? checksumOld) then
    m ← store m checksumBuffer (Z.land checksumNew 0xFF);
    store m (checksumBuffer + 1) (Z.land (Z.shiftr checksumNew 8) 0xFF)
  else Some m.

(** ** Types and constants *)

#[global] Instance byte_eq_dec : EqDecision byte := Byte.byte_eq_dec.

(** The PEM blocks of the source.  Only OpenSSL looks inside them, so they
    are kept by name. *)
Inductive PemConstant : Set :=
| M30PrivateKey | M30PublicKey
| M32PrivateKey | M32PublicKey
| M60PrivateKey | M60PublicKey.

Record M32FirmwareUtilDeviceInfoType : Set := {
  Name : string;
  Description : string;
  RecoveryHeaderStart : string;
  FirmwareKey : string;
  PrivateKey : PemConstant;
  PublicKey : PemConstant;
  Passphrase : string
}.

Definition M32FirmwareUtilDeviceInfos : list M32FirmwareUtilDeviceInfoType :=
  [ {| Name := "M30";
       Description := "D-Link AQUILA PRO AI AX3000 Smart Mesh Router";
       RecoveryHeaderStart := "DLK6E6110001";
       FirmwareKey := "b4517d9b98e04d9f075f5e78c743e097";
       PrivateKey := M30PrivateKey;
       PublicKey := M30PublicKey;
       Passphrase := "wrpd" |};
    {| Name := "M32";
       Description := "D-Link EAGLE PRO AI AX3200 Mesh-System";
       RecoveryHeaderStart := "DLK6E6010001";
       FirmwareKey := "6b29f1d663a21b35fb45b69a42649f5e";
       PrivateKey := M32PrivateKey;
       PublicKey := M32PublicKey;
       Passphrase := "wrpd" |};
    {| Name := "R32";
       Description := "D-Link EAGLE PRO AI AX3200 Smart Router";
       RecoveryHeaderStart := "DLK6E6015001";
       FirmwareKey := "6b29f1d663a21b35fb45b69a42649f5e";
       PrivateKey := M32PrivateKey;
       PublicKey := M32PublicKey;
       Passphrase := "wrpd" |};
    {| Name := "M60";
       Description := "D-Link AX6000 Wi-Fi 6 Smart Mesh Router";
       RecoveryHeaderStart := "DLK6E8202001";
       FirmwareKey := "c5f8a1e22f808abc84f2e4a6fa5f10bb";
       PrivateKey := M60PrivateKey;
       PublicKey := M60PublicKey;
       Passphrase := "wrpd" |} ].

Definition M32FirmwareUtilHeaderStart : string := "MH01".

(** ** The environment of one run

    What a run does not decide by itself: the results of [malloc], [fread],
    [fopen] and [fwrite], the contents of fresh memory on the heap and on
    the stack, the debug switch that [main] sets, and the value a caller
    reads from a call that reached the closing brace of a non-void function
    without a [return]. *)
Record Env : Type := {
  malloc_null : nat -> bool;
  malloc_junk : nat -> nat -> byte;
  stack_junk : nat -> byte;
  fread_short : bool;
  fopen_null : string -> bool;
  fwrite_short : string -> bool;
  M32FirmwareUtilWriteDebugFiles : bool;
  M32FirmwareUtilDebugTargetFolder : string;
  fallen_off_value : nat -> Z
}.

(** [malloc(n)], the [k]-th of the run: [None] is the null pointer. *)
Definition malloc (env : Env) (k : nat) (n : Z) : option (list byte) :=
  if malloc_null env k then None
  else Some (malloc_junk env k <$> seq 0 (Z.to_nat n)).

(** What an operation leaves behind: its return value and, when the output
    file was written in full, the bytes of that file. *)
Record Outcome : Type := {
  status : Z;
  output : option (list byte)
}.

Definition failed : Outcome := {| status := 1; output := None |}.

(** [WriteBufferToFile(buffer, bufferSize, outputFile)]: the return value. *)
Definition WriteBufferToFile (env : Env) (outputFile : string) : Z :=
  if fopen_null env outputFile then 1
  else if fwrite_short env outputFile then 1
  else 0.

(** [WriteDebugBufferToFile(buffer, bufferSize, outputFile)]. *)
Definition WriteDebugBufferToFile (env : Env) (outputFile : string) : Z :=
  if M32FirmwareUtilWriteDebugFiles env then
    WriteBufferToFile env
      (M32FirmwareUtilDebugTargetFolder env +:+ "/" +:+ outputFile)
  else 0.

(** ** UpdateHeaderInRecoveryImage *)

(** [memcmp(buf, s, strlen(s)) == 0]. *)
Definition memcmp_eq (buf s : list byte) : option bool :=
  if (length buf <? length s)%nat then None
  else Some (bool_decide (take (length s) buf = s)).

(** The search loop, [buf] being the view at [&buffer[bufferIndex]] and
    [limit] the value of [st_size - M32_FIRMWARE_UTIL_FW_HEADER_LENGTH].
    The result is the array [headerAddresses] and [partitionCount]. *)
Fixpoint search_partitions (buf : list byte) (bufferIndex limit : Z)
    (RecoveryHeaderStart : list byte)
    (headerAddresses : list Z) (partitionCount : Z)
  : option (list Z * Z) :=
  if bufferIndex <? limit then
    found ← memcmp_eq buf RecoveryHeaderStart;
    match buf with
    | [] => None
    | _ :: buf' =>
        if found : bool then
          let headerAddresses :=
            <[Z.to_nat partitionCount := bufferIndex]> headerAddresses in
          let partitionCount := uint32_t (partitionCount + 1) in
          if partitionCount =? M32_FIRMWARE_UTIL_MAX_PARTITIONS
          then Some (headerAddresses, partitionCount)
          else search_partitions buf' (size_t (bufferIndex + 1)) limit
                 RecoveryHeaderStart headerAddresses partitionCount
        else search_partitions buf' (size_t (bufferIndex + 1)) limit
               RecoveryHeaderStart headerAddresses partitionCount
    end
  else Some (headerAddresses, partitionCount).

(** [b0 | (b1 << 8) | (b2 << 16) | (b3 << 24)] on bytes promoted to [int],
    converted to [size_t]: a value with bit 31 set is sign-extended. *)
Definition read_length (b0 b1 b2 b3 : Z) : Z :=
  size_t (int (Z.lor (Z.lor (Z.lor b0 (Z.shiftl b1 8)) (Z.shiftl b2 16))
                 (Z.shiftl b3 24))).

(** The body of the loop over the partitions. *)
Definition update_partition (st_size : Z) (headerAddresses : list Z)
    (buffer : list byte) (partition : Z) : option (list byte) :=
  partitionStart ← headerAddresses !! Z.to_nat partition;
  let partitionData := partitionStart in
  let next := headerAddresses !! Z.to_nat (partition + 1) in
  let partitionLength :=
    if (partition + 1 <? M32_FIRMWARE_UTIL_MAX_PARTITIONS)
       && negb (default SIZE_MAX next =? SIZE_MAX)
    then size_t (default SIZE_MAX next - partitionStart)
    else size_t (st_size - partitionStart) in
  let partitionLength :=
    size_t (partitionLength - M32_FIRMWARE_UTIL_FW_HEADER_LENGTH) in
  let o := partitionData + M32_FIRMWARE_UTIL_FW_DATA_LENGTH_OFFSET in
  b0 ← load buffer o;
  b1 ← load buffer (o + 1);
  b2 ← load buffer (o + 2);
  b3 ← load buffer (o + 3);
  let partitionLengthOld := read_length b0 b1 b2 b3 in
  buffer ←
    (if negb (partitionLengthOld =? partitionLength) then
       buffer ← store buffer o (Z.land partitionLength 0xFF);
       buffer ← store buffer (o + 1) (Z.land (Z.shiftr partitionLength 8) 0xFF);
       buffer ← store buffer (o + 2) (Z.land (Z.shiftr partitionLength 16) 0xFF);
       store buffer (o + 3) (Z.land (Z.shiftr partitionLength 24) 0xFF)
     else Some buffer);
  buffer ← Caclulate16BitSum buffer
             (partitionData + M32_FIRMWARE_UTIL_FW_HEADER_LENGTH)
             partitionLength
             (partitionData + CHECKUM_PATCHER_DATA_CHECKSUM_OFFSET) false;
  Caclulate16BitSum buffer partitionData
    CHECKUM_PATCHER_HEADER_CHECKSUM_OFFSET
    (partitionData + CHECKUM_PATCHER_HEADER_CHECKSUM_OFFSET) true.

(** [for (int partition = 0; partition < partitionCount; partition++)]. *)
Fixpoint update_partitions (st_size : Z) (headerAddresses : list Z)
    (partitions : list Z) (buffer : list byte) : option (list byte) :=
  match partitions with
  | [] => Some buffer
  | partition :: partitions =>
      buffer ← update_partition st_size headerAddresses buffer partition;
      update_partitions st_size headerAddresses partitions buffer
  end.

(** The scan of [UpdateHeaderInRecoveryImage] on a buffer that holds the
    whole input file. *)
Definition find_partitions (buffer : list byte)
    (device : M32FirmwareUtilDeviceInfoType) : option (list Z * Z) :=
  let st_size := Z.of_nat (length buffer) in
  search_partitions buffer 0
    (size_t (st_size - M32_FIRMWARE_UTIL_FW_HEADER_LENGTH))
    (bytes_of_string (RecoveryHeaderStart device))
    (replicate (Z.to_nat M32_FIRMWARE_UTIL_MAX_PARTITIONS) SIZE_MAX) 0.

(** The buffer after the loop over the partitions. *)
Definition repaired_buffer (buffer : list byte)
    (headerAddresses : list Z) (partitionCount : Z) : option (list byte) :=
  update_partitions (Z.of_nat (length buffer)) headerAddresses
    (Z.of_nat <$> seq 0 (Z.to_nat partitionCount)) buffer.

(** [UpdateHeaderInRecoveryImage(file, fileStatus, outputFile, device)],
    [file] being the bytes of the input file. *)
Definition UpdateHeaderInRecoveryImage (env : Env) (file : list byte)
    (outputFile : string) (device : M32FirmwareUtilDeviceInfoType)
  : option Outcome :=
  let st_size := Z.of_nat (length file) in
  match malloc env 0 st_size with
  | None => Some failed
  | Some _ =>
      if fread_short env then Some failed
      else
        let buffer := file in
        '(headerAddresses, partitionCount) ← find_partitions buffer device;
        buffer ← repaired_buffer buffer headerAddresses partitionCount;
        if partitionCount =? 0 then Some failed
        else if negb (WriteBufferToFile env outputFile =? 0) then Some failed
        else Some {| status := 0; output := Some buffer |}
  end.

(** ** OpenSSL and the C library

    The functions the program calls and does not define.  Calls that the
    source makes in a fixed sequence and whose failures it treats alike are
    one operation here:
    - [SHA512]: [SHA512_Init], [SHA512_Update], [SHA512_Final]; [None] when
      one of them reports failure;
    - [PEM_read_bio_RSAPrivateKey]: with [BIO_new_mem_buf];
    - [EVP_Sign]: [EVP_PKEY_new] to [EVP_SignFinal] with [EVP_sha512()];
      the result is the signature, its length is [signatureLength];
    - [EVP_DigestVerify]: [EVP_MD_CTX_new] to [EVP_DigestVerifyFinal];
      returns what the last call returns, or 0 when an earlier one fails;
    - [EVP_Encrypt], [EVP_Decrypt]: [EVP_CIPHER_CTX_new], the [Init_ex],
      [Update] and [Final_ex] calls with [EVP_aes_128_cbc()]; the arguments
      are key, iv, the view at the input pointer and [inl];
    - [sscanf_2hhx text old]: what [sscanf(text, "%2hhx", &x)] leaves in
      [x] when [x] held [old]. *)
Class Libs : Type := {
  RSA : Type;
  EVP_PKEY : Type;
  SHA512 : list byte -> option (list byte);
  PEM_read_bio_RSAPrivateKey : PemConstant -> string -> option RSA;
  EVP_Sign : RSA -> list byte -> option (list byte);
  PEM_read_bio_PUBKEY : PemConstant -> option EVP_PKEY;
  EVP_DigestVerify : EVP_PKEY -> list byte -> list byte -> Z;
  EVP_BytesToKey : list byte -> list byte -> list byte * list byte;
  EVP_Encrypt : list byte -> list byte -> list byte -> Z -> option (list byte);
  EVP_Decrypt : list byte -> list byte -> list byte -> Z -> option (list byte);
  sscanf_2hhx : list byte -> byte -> byte
}.

(** ** Header codec *)

(** [buffer[14] += buffer[position]; buffer[15] ^= buffer[position];] for
    each position of the list. *)
Fixpoint header_checksum_loop (positions : list Z) (m : list byte)
    (buffer : Z) : option (list byte) :=
  match positions with
  | [] => Some m
  | position :: positions =>
      s ← load m (buffer + 14);
      b ← load m (buffer + position);
      m ← store m (buffer + 14) (s + b);
      x ← load m (buffer + 15);
      b ← load m (buffer + position);
      m ← store m (buffer + 15) (Z.lxor x b);
      header_checksum_loop positions m buffer
  end.

(** [CreateAes128CbcEncryptionHeader(buffer, imageSize)]: the buffer after
    the call and the return value. *)
Definition CreateAes128CbcEncryptionHeader (m : list byte)
    (buffer imageSize : Z) : option (list byte * Z) :=
  m ← write_bytes m buffer (bytes_of_string M32FirmwareUtilHeaderStart);
  m ← store m (buffer + 4) 0x21;
  m ← store m (buffer + 5) 0x00;
  m ← store m (buffer + 6) 0x00;
  m ← store m (buffer + 7) 0x00;
  m ← store m (buffer + 8) (Z.land imageSize 0xFF);
  m ← store m (buffer + 9) (Z.land (Z.shiftr imageSize 8) 0xFF);
  m ← store m (buffer + 10) (Z.land (Z.shiftr imageSize 16) 0xFF);
  m ← store m (buffer + 11) (Z.land (Z.shiftr imageSize 24) 0xFF);
  m ← store m (buffer + 12) 0x2B;
  m ← store m (buffer + 13) 0x1A;
  m ← store m (buffer + 14) 0;
  m ← store m (buffer + 15) 0;
  m ← header_checksum_loop (Z.of_nat <$> seq 0 14) m buffer;
  Some (m, 0).

(** [CreateSha512VerificatioinHeader(buffer, imageSize)]. *)
Definition CreateSha512VerificatioinHeader (m : list byte)
    (buffer imageSize : Z) : option (list byte * Z) :=
  m ← write_bytes m buffer (bytes_of_string M32FirmwareUtilHeaderStart);
  m ← store m (buffer + 4) (Z.land imageSize 0xFF);
  m ← store m (buffer + 5) (Z.land (Z.shiftr imageSize 8) 0xFF);
  m ← store m (buffer + 6) (Z.land (Z.shiftr imageSize 16) 0xFF);
  m ← store m (buffer + 7) (Z.land (Z.shiftr imageSize 24) 0xFF);
  m ← store m (buffer + 8) 0x00;
  m ← store m (buffer + 9) 0x01;
  m ← store m (buffer + 10) 0x00;
  m ← store m (buffer + 11) 0x00;
  m ← store m (buffer + 12) 0x2B;
  m ← store m (buffer + 13) 0x1A;
  m ← store m (buffer + 14) 0;
  m ← store m (buffer + 15) 0;
  m ← header_checksum_loop (Z.of_nat <$> seq 0 14) m buffer;
  Some (m, 0).

(** [(header[0] == 'M') && (header[1] == 'H') && (header[2] == '0') &&
    (header[3] == '1')], evaluated from the left. *)
Definition header_starts_with_MH01 (m : list byte) (header : Z)
  : option bool :=
  h0 ← load m header;
  if negb (h0 =? 77) then Some false else
  h1 ← load m (header + 1);
  if negb (h1 =? 72) then Some false else
  h2 ← load m (header + 2);
  if negb (h2 =? 48) then Some false else
  h3 ← load m (header + 3);
  Some (h3 =? 49).

(** [GetDataLengthFromVerificationHeader(header, &dataLength)]: the return
    value and the value of [dataLength] after the call, which is [old] when
    the magic does not match. *)
Definition GetDataLengthFromVerificationHeader (m : list byte)
    (header : Z) (old : Z) : option (Z * Z) :=
  ok ← header_starts_with_MH01 m header;
  if ok : bool then
    b0 ← load m (header + 4);
    b1 ← load m (header + 5);
    b2 ← load m (header + 6);
    b3 ← load m (header + 7);
    Some (0, read_length b0 b1 b2 b3)
  else Some (1, old).

(** [GetDataLengthFromEncryptionHeader(header, &dataLength)]. *)
Definition GetDataLengthFromEncryptionHeader (m : list byte)
    (header : Z) (old : Z) : option (Z * Z) :=
  ok ← header_starts_with_MH01 m header;
  if ok : bool then
    b0 ← load m (header + 8);
    b1 ← load m (header + 9);
    b2 ← load m (header + 10);
    b3 ← load m (header + 11);
    Some (0, read_length b0 b1 b2 b3)
  else Some (1, old).

(** ** The initialization vector as text *)

(** The digit that [%x] prints for a value below 16. *)
Definition hex_digit (v : Z) : byte :=
  to_u8 (if v <? 10 then 48 + v else 97 + (v - 10)).

(** What [sprintf(p, "%02x", b)] writes at [p], the terminating zero
    included. *)
Definition sprintf_02x (b : byte) : list byte :=
  [hex_digit (u8 b / 16); hex_digit (u8 b mod 16); x00].

(** [WriteAes128CbcIvToBuffer(buffer, iv, ivLength)], [i] being the loop
    counter and [iv] the bytes not yet written. *)
Fixpoint WriteAes128CbcIvToBuffer_loop (m : list byte) (buffer : Z)
    (iv : list byte) (i : Z) : option (list byte) :=
  match iv with
  | [] => store m (buffer + 2 * i) 0x0A
  | b :: iv =>
      m ← write_bytes m (buffer + 2 * i) (sprintf_02x b);
      WriteAes128CbcIvToBuffer_loop m buffer iv (i + 1)
  end.

Definition WriteAes128CbcIvToBuffer (m : list byte) (buffer : Z)
    (iv : list byte) : option (list byte * Z) :=
  m ← WriteAes128CbcIvToBuffer_loop m buffer iv 0;
  Some (m, 0).

(** [ConvertAsciiIvToHexArray(ivAscii, ivHex)]: the array [ivHex] after the
    call and the return value. *)
Definition ConvertAsciiIvToHexArray `{Libs} (m : list byte) (ivAscii : Z)
    (ivHex : list byte) : list byte * Z :=
  (imap (fun i old => sscanf_2hhx (view m (ivAscii + 2 * Z.of_nat i)) old)
     ivHex, 0).

(** ** Signature APIs *)

(** [CreateSha512VerificatioinSignature(buffer, imageSize, device)]: the
    buffer after the call and the value of the local variable [status] when
    control reaches the end of the function.  [EVP_SignFinal] writes the
    signature at [&buffer[imageSize]] before its length is compared. *)
Definition CreateSha512VerificatioinSignature `{Libs} (m : list byte)
    (buffer imageSize : Z) (device : M32FirmwareUtilDeviceInfoType)
  : option (list byte * Z) :=
  data ← read_bytes m buffer imageSize;
  match SHA512 data with
  | None => Some (m, 1)
  | Some digest =>
      match PEM_read_bio_RSAPrivateKey (PrivateKey device)
              (Passphrase device) with
      | None => Some (m, 1)
      | Some rsaPrivateKey =>
          match EVP_Sign rsaPrivateKey digest with
          | None => Some (m, 1)
          | Some signature =>
              m ← write_bytes m (buffer + imageSize) signature;
              let signatureLength := Z.of_nat (length signature) in
              if negb (signatureLength =? M32_FIRMWARE_SIGNATURE_LENGTH)
              then Some (m, 1)
              else Some (m, 0)
          end
      end
  end.

(** A call of [CreateSha512VerificatioinSignature], the [k]-th of the run
    that falls off the end of its callee: the function has no [return]
    statement, so the caller does not read [status]. *)
Definition call_CreateSha512VerificatioinSignature `{Libs} (env : Env)
    (k : nat) (m : list byte) (buffer imageSize : Z)
    (device : M32FirmwareUtilDeviceInfoType) : option (list byte * Z) :=
  '(m, _) ← CreateSha512VerificatioinSignature m buffer imageSize device;
  Some (m, fallen_off_value env k).

(** [VerifySha512Signture(buffer, bufferLength, device)]: the return
    value. *)
Definition VerifySha512Signture `{Libs} (m : list byte)
    (buffer bufferLength : Z) (device : M32FirmwareUtilDeviceInfoType)
  : option Z :=
  let signature := buffer + bufferLength in
  data ← read_bytes m buffer bufferLength;
  match SHA512 data with
  | None => Some 1
  | Some digest =>
      match PEM_read_bio_PUBKEY (PublicKey device) with
      | None => Some 1
      | Some publicKey =>
          signature ← read_bytes m signature M32_FIRMWARE_SIGNATURE_LENGTH;
          if EVP_DigestVerify publicKey digest signature =? 0
          then Some 1 else Some 0
      end
  end.

(** ** AES128 CBC APIs *)

Definition salt : list byte :=
  [x65; xfc; x43; xbc; x67; xa3; x23; x35].

(** [EncryptAes128Cbc(plainData, plainDataLength, outputBuffer, saltBuffer,
    keyString, ivHex, &encryptedDataLength)]: the buffer after the call, the
    return value and [encryptedDataLength].  The lengths that
    [EVP_EncryptUpdate] and [EVP_EncryptFinal_ex] report are added in an
    [int]; a sum above [INT_MAX] overflows it. *)
Definition EncryptAes128Cbc `{Libs} (m : list byte)
    (plainData plainDataLength outputBuffer saltBuffer : Z)
    (keyString : string) (ivHex : list byte)
  : option (list byte * Z * Z) :=
  m ← write_bytes m saltBuffer (bytes_of_string "Salted__");
  m ← write_bytes m (saltBuffer + 8) salt;
  let '(key, iv) := EVP_BytesToKey salt (bytes_of_string keyString) in
  match EVP_Encrypt key ivHex (view m plainData) (int plainDataLength) with
  | None => Some (m, 1, 0)
  | Some encrypted =>
      m ← write_bytes m outputBuffer encrypted;
      let encryptedDataLength := Z.of_nat (length encrypted) in
      if INT_MAX <? encryptedDataLength then None
      else Some (m, 0, encryptedDataLength)
  end.

(** [DecryptAes128Cbc(encryptedData, encryptedLength, outputBuffer,
    keyString, ivHex)]: the output buffer after the call and the return
    value. *)
Definition DecryptAes128Cbc `{Libs} (m : list byte)
    (encryptedData encryptedLength : Z) (outputBuffer : list byte)
    (keyString : string) (ivHex : list byte) : option (list byte * Z) :=
  salt ← read_bytes m (encryptedData + 8) 8;
  let '(key, iv) := EVP_BytesToKey salt (bytes_of_string keyString) in
  let encryptedData := encryptedData + 16 in
  let encryptedLength := size_t (encryptedLength - 16) in
  match EVP_Decrypt key ivHex (view m encryptedData)
          (int encryptedLength) with
  | None => Some (outputBuffer, 1)
  | Some decrypted =>
      outputBuffer ← write_bytes outputBuffer 0 decrypted;
      Some (outputBuffer, 0)
  end.

(** ** CreateFactoryImageFromRecoveryImage *)

Definition IV : list byte :=
  [x99; x38; x0c; x25; xae; xcc; x79; xd3;
   x9b; x14; x5a; xc0; x43; x53; xbb; xe9].

(** [CreateFactoryImageFromRecoveryImage(file, fileStatus, outputFile,
    device)], [file] being the bytes of the input file. *)
Definition CreateFactoryImageFromRecoveryImage `{Libs} (env : Env)
    (file : list byte) (outputFile : string)
    (device : M32FirmwareUtilDeviceInfoType) : option Outcome :=
  let recoveryImageSize := Z.of_nat (length file) in
  let factoryImageSize :=
    size_t (recoveryImageSize + 3 * M32_FIRMWARE_HEADER_LENGTH
            + 2 * M32_FIRMWARE_SIGNATURE_LENGTH
            + M32_FIRMWARE_DECRYPTION_INFO_LENGTH) in
  let encryptedImageWithoutHeaderSize :=
    size_t (recoveryImageSize + M32_FIRMWARE_HEADER_LENGTH
            + M32_FIRMWARE_SIGNATURE_LENGTH) in
  match malloc env 0 (size_t (factoryImageSize + AES_BLOCK_SIZE)) with
  | None => Some failed
  | Some factoryImage =>
  let factoryImageHeader := 0 in
  let encryptionHeader := factoryImageHeader + M32_FIRMWARE_HEADER_LENGTH in
  let ecnryptionInfo := encryptionHeader + M32_FIRMWARE_HEADER_LENGTH in
  let saltHeader :=
    ecnryptionInfo + M32_FIRMWARE_INITIALIZATION_VECTOR_LENGTH in
  let recoveryImageWithHeader :=
    ecnryptionInfo + M32_FIRMWARE_DECRYPTION_INFO_LENGTH in
  let recoveryImage := recoveryImageWithHeader + M32_FIRMWARE_HEADER_LENGTH in
  if fread_short env then Some failed else
  factoryImage ← write_bytes factoryImage recoveryImage file;
  '(factoryImage, st) ←
    CreateSha512VerificatioinHeader factoryImage recoveryImageWithHeader
      recoveryImageSize;
  if negb (st =? 0) then Some failed else
  '(factoryImage, st) ←
    call_CreateSha512VerificatioinSignature env 0 factoryImage recoveryImage
      recoveryImageSize device;
  if negb (st =? 0) then Some failed else
  if negb (WriteDebugBufferToFile env "Sig1.bin" =? 0) then Some failed else
  if negb (WriteDebugBufferToFile env "FW_and_Sig1.bin" =? 0)
  then Some failed else
  '(factoryImage, st, encryptedDataLength) ←
    EncryptAes128Cbc factoryImage recoveryImageWithHeader
      encryptedImageWithoutHeaderSize recoveryImageWithHeader saltHeader
      (FirmwareKey device) IV;
  if negb (st =? 0) then Some failed else
  if negb (WriteDebugBufferToFile env "FWenc.bin" =? 0) then Some failed else
  '(factoryImage, st) ←
    CreateAes128CbcEncryptionHeader factoryImage encryptionHeader
      (uint32_t (encryptedDataLength + M32_FIRMWARE_SALT_INFO_LENGTH));
  if negb (st =? 0) then Some failed else
  '(factoryImage, st) ←
    WriteAes128CbcIvToBuffer factoryImage ecnryptionInfo IV;
  if negb (st =? 0) then Some failed else
  if negb (WriteDebugBufferToFile env "IV.bin" =? 0) then Some failed else
  '(factoryImage, st) ←
    CreateSha512VerificatioinHeader factoryImage factoryImageHeader
      (uint32_t (encryptedDataLength + M32_FIRMWARE_DECRYPTION_INFO_LENGTH
                 + M32_FIRMWARE_HEADER_LENGTH));
  if negb (st =? 0) then Some failed else
  '(factoryImage, st) ←
    call_CreateSha512VerificatioinSignature env 1 factoryImage
      encryptionHeader
      (uint32_t (encryptedDataLength + M32_FIRMWARE_DECRYPTION_INFO_LENGTH
                 + M32_FIRMWARE_HEADER_LENGTH)) device;
  if negb (st =? 0) then Some failed else
  if negb (WriteBufferToFile env outputFile =? 0) then Some failed else
  written ←
    read_bytes factoryImage 0
      (uint32_t (encryptedDataLength + M32_FIRMWARE_DECRYPTION_INFO_LENGTH
                 + 2 * M32_FIRMWARE_HEADER_LENGTH
                 + M32_FIRMWARE_SIGNATURE_LENGTH));
  Some {| status := 0; output := Some written |}
  end.

(** ** DecryptFactoryImage *)

(** [DecryptFactoryImage(file, fileStatus, outputFile, device)], [file]
    being the bytes of the input file. *)
Definition DecryptFactoryImage `{Libs} (env : Env) (file : list byte)
    (outputFile : string) (device : M32FirmwareUtilDeviceInfoType)
  : option Outcome :=
  let st_size := Z.of_nat (length file) in
  let currentBlockLength := 0 in
  let currentBlockOffset := 0 in
  let ivHex := stack_junk env <$> seq 0 (Z.to_nat AES_BLOCK_SIZE) in
  match malloc env 0 st_size with
  | None => Some failed
  | Some _ =>
  if fread_short env then Some failed else
  let fileBuffer := file in
  '(st, currentBlockLength) ←
    GetDataLengthFromVerificationHeader fileBuffer currentBlockOffset
      currentBlockLength;
  if negb (st =? 0) then Some failed else
  let currentBlockOffset :=
    size_t (currentBlockOffset + M32_FIRMWARE_HEADER_LENGTH) in
  if st_size <? currentBlockOffset then Some failed else
  st ← VerifySha512Signture fileBuffer currentBlockOffset currentBlockLength
         device;
  if negb (st =? 0) then Some failed else
  '(st, currentBlockLength) ←
    GetDataLengthFromEncryptionHeader fileBuffer currentBlockOffset
      currentBlockLength;
  if negb (st =? 0) then Some failed else
  let currentBlockOffset :=
    size_t (currentBlockOffset + M32_FIRMWARE_HEADER_LENGTH) in
  if st_size <? currentBlockOffset then Some failed else
  let '(ivHex, st) :=
    ConvertAsciiIvToHexArray fileBuffer currentBlockOffset ivHex in
  if negb (st =? 0) then Some failed else
  let currentBlockOffset :=
    size_t (currentBlockOffset + M32_FIRMWARE_INITIALIZATION_VECTOR_LENGTH) in
  if st_size <? currentBlockOffset then Some failed else
  match malloc env 1 currentBlockLength with
  | None => Some failed
  | Some decrpytedData =>
  '(decrpytedData, st) ←
    DecryptAes128Cbc fileBuffer currentBlockOffset currentBlockLength
      decrpytedData (FirmwareKey device) ivHex;
  if negb (st =? 0) then Some failed else
  '(st, currentBlockLength) ←
    GetDataLengthFromVerificationHeader decrpytedData 0 currentBlockLength;
  if negb (st =? 0) then Some failed else
  let currentBlockOffset :=
    size_t (currentBlockOffset + M32_FIRMWARE_HEADER_LENGTH) in
  if st_size <? currentBlockOffset then Some failed else
  st ← VerifySha512Signture decrpytedData M32_FIRMWARE_HEADER_LENGTH
         currentBlockLength device;
  if negb (st =? 0) then Some failed else
  if negb (WriteBufferToFile env outputFile =? 0) then Some failed else
  written ←
    read_bytes decrpytedData M32_FIRMWARE_HEADER_LENGTH currentBlockLength;
  Some {| status := 0; output := Some written |}
  end
  end.

(** ** What the theorems assume of the libraries

    The digest and the signing of a digest succeed, the key pairs of the
    device table are valid and match, a cipher run on [inl] bytes of the
    buffer succeeds, reads those bytes, writes at least that many and at
    most one block more, and is undone by decryption with the same key and
    initialization vector, [EVP_EncryptUpdate] rejects a negative length,
    and [sscanf] reads back the two digits that [sprintf] printed. *)
Class LibsSpec (L : Libs) : Prop := {
  SHA512_succeeds : forall data, is_Some (SHA512 data);
  device_keys_valid :
    forall device, device ∈ M32FirmwareUtilDeviceInfos ->
      exists rsaPrivateKey publicKey,
        PEM_read_bio_RSAPrivateKey (PrivateKey device) (Passphrase device)
          = Some rsaPrivateKey
        /\ PEM_read_bio_PUBKEY (PublicKey device) = Some publicKey
        /\ forall digest, exists signature,
             EVP_Sign rsaPrivateKey digest = Some signature
             /\ Z.of_nat (length signature) = M32_FIRMWARE_SIGNATURE_LENGTH
             /\ EVP_DigestVerify publicKey digest signature = 1;
  EVP_Encrypt_succeeds :
    forall key iv buf inl, 0 <= inl <= Z.of_nat (length buf) ->
      is_Some (EVP_Encrypt key iv buf inl);
  EVP_Encrypt_negative :
    forall key iv buf inl, inl < 0 -> EVP_Encrypt key iv buf inl = None;
  EVP_Encrypt_reads :
    forall key iv buf inl, 0 <= inl <= Z.of_nat (length buf) ->
      EVP_Encrypt key iv buf inl
      = EVP_Encrypt key iv (take (Z.to_nat inl) buf) inl;
  EVP_Encrypt_length :
    forall key iv buf inl encrypted,
      0 <= inl <= Z.of_nat (length buf) ->
      EVP_Encrypt key iv buf inl = Some encrypted ->
      inl <= Z.of_nat (length encrypted) <= inl + AES_BLOCK_SIZE;
  EVP_Decrypt_Encrypt :
    forall key iv buf inl encrypted rest,
      0 <= inl <= Z.of_nat (length buf) ->
      EVP_Encrypt key iv buf inl = Some encrypted ->
      EVP_Decrypt key iv (encrypted ++ rest) (Z.of_nat (length encrypted))
      = Some (take (Z.to_nat inl) buf);
  sscanf_sprintf :
    forall b rest old, sscanf_2hhx (take 2 (sprintf_02x b) ++ rest) old = b
}.

(** ** A small instance of the libraries

    Executable stand-ins with the properties above, to run the pipelines on
    concrete images: the digest keeps the first 64 bytes, a signature is the
    key number followed by the digest, the cipher pads as PKCS#7 does and
    leaves the bytes as they are. *)
Module Toy.

Definition key_number (pem : PemConstant) : byte :=
  match pem with
  | M30PrivateKey | M30PublicKey => x30
  | M32PrivateKey | M32PublicKey => x32
  | M60PrivateKey | M60PublicKey => x60
  end.

Definition is_private (pem : PemConstant) : bool :=
  match pem with
  | M30PrivateKey | M32PrivateKey | M60PrivateKey => true
  | _ => false
  end.

Definition digest (data : list byte) : list byte := resize 64 x00 data.

Definition sign (key : byte) (data : list byte) : list byte :=
  key :: resize 255 x00 data.

Definition read_private (pem : PemConstant) (passphrase : string)
  : option byte :=
  if is_private pem && bool_decide (passphrase = "wrpd")
  then Some (key_number pem) else None.

Definition read_public (pem : PemConstant) : option byte :=
  if is_private pem then None else Some (key_number pem).

Definition verify (key : byte) (data signature : list byte) : Z :=
  if bool_decide (signature = sign key data) then 1 else 0.

Definition bytes_to_key (salt data : list byte) : list byte * list byte :=
  (resize 16 x00 (salt ++ data), resize 16 x00 data).

Definition encrypt (key iv buf : list byte) (inl : Z) : option (list byte) :=
  if (inl <? 0) || (Z.of_nat (length buf) <? inl) then None
  else
    let n := 16 - inl mod 16 in
    Some (take (Z.to_nat inl) buf ++ replicate (Z.to_nat n) (to_u8 n)).

Definition decrypt (key iv buf : list byte) (inl : Z) : option (list byte) :=
  if (inl <=? 0) || (Z.of_nat (length buf) <? inl) || negb (inl mod 16 =? 0)
  then None
  else
    let encrypted := take (Z.to_nat inl) buf in
    let n := u8 (default x00 (last encrypted)) in
    if (1 <=? n) && (n <=? 16)
    then Some (take (Z.to_nat (inl - n)) encrypted) else None.

Definition hex_value (c : byte) : option Z :=
  let v := u8 c in
  if (48 <=? v) && (v <=? 57) then Some (v - 48)
  else if (97 <=? v) && (v <=? 102) then Some (v - 97 + 10)
  else if (65 <=? v) && (v <=? 70) then Some (v - 65 + 10)
  else None.

Definition scan_hex (text : list byte) (old : byte) : byte :=
  match text with
  | c1 :: c2 :: _ =>
      match hex_value c1, hex_value c2 with
      | Some h, Some l => to_u8 (16 * h + l)
      | _, _ => old
      end
  | _ => old
  end.

#[export] Instance libs : Libs := {|
  RSA := byte;
  EVP_PKEY := byte;
  SHA512 := fun data => Some (digest data);
  PEM_read_bio_RSAPrivateKey := read_private;
  EVP_Sign := fun key data => Some (sign key data);
  PEM_read_bio_PUBKEY := read_public;
  EVP_DigestVerify := verify;
  EVP_BytesToKey := bytes_to_key;
  EVP_Encrypt := encrypt;
  EVP_Decrypt := decrypt;
  sscanf_2hhx := scan_hex
|}.

Definition env : Env := {|
  malloc_null := fun _ => false;
  malloc_junk := fun _ _ => xaa;
  stack_junk := fun _ => xbb;
  fread_short := false;
  fopen_null := fun _ => false;
  fwrite_short := fun _ => false;
  M32FirmwareUtilWriteDebugFiles := false;
  M32FirmwareUtilDebugTargetFolder := "";
  fallen_off_value := fun _ => 0
|}.

Definition M32 : M32FirmwareUtilDeviceInfoType :=
  {| Name := "M32";
     Description := "D-Link EAGLE PRO AI AX3200 Mesh-System";
     RecoveryHeaderStart := "DLK6E6010001";
     FirmwareKey := "6b29f1d663a21b35fb45b69a42649f5e";
     PrivateKey := M32PrivateKey;
     PublicKey := M32PublicKey;
     Passphrase := "wrpd" |}.

(** A second environment: other bytes in fresh memory, debug files
    written. *)
Definition other_env : Env := {|
  malloc_null := fun _ => false;
  malloc_junk := fun _ i => to_u8 (Z.of_nat i);
  stack_junk := fun _ => x00;
  fread_short := false;
  fopen_null := fun _ => false;
  fwrite_short := fun _ => false;
  M32FirmwareUtilWriteDebugFiles := true;
  M32FirmwareUtilDebugTargetFolder := "debug";
  fallen_off_value := fun _ => 0
|}.

(** A recovery image of 1024 bytes. *)
Definition image : list byte :=
  (fun i => to_u8 (Z.of_nat i * 7 + 3)) <$> seq 0 1024.

(** A device whose private key does not open: the passphrase is wrong. *)
Definition locked : M32FirmwareUtilDeviceInfoType :=
  {| Name := "M32";
     Description := "D-Link EAGLE PRO AI AX3200 Mesh-System";
     RecoveryHeaderStart := "DLK6E6010001";
     FirmwareKey := "6b29f1d663a21b35fb45b69a42649f5e";
     PrivateKey := M32PrivateKey;
     PublicKey := M32PublicKey;
     Passphrase := "12345678" |}.

End Toy.

(** ** Definitions that follow the words of the specification

    The specification describes [Sum16Carry(buffer, length, inverted)] and
    [ByteSumXor]; these definitions follow its words and are compared with
    the code by the theorems. *)

(** Consecutive little-endian 16-bit words. *)
Fixpoint le_words (bytes : list byte) : list Z :=
  match bytes with
  | b0 :: b1 :: bytes => (u8 b0 + 256 * u8 b1) :: le_words bytes
  | _ => []
  end.

(** A running 16-bit sum; whenever adding a word makes the new sum less than
    the word just added, the sum is incremented by 1. *)
Fixpoint Sum16Carry_words (words : list Z) (sum : Z) : Z :=
  match words with
  | [] => sum
  | word :: words =>
      let sum := (sum + word) mod 65536 in
      Sum16Carry_words words (if sum <? word then sum + 1 else sum)
  end.

(** [buffer] holds the bytes that are read: [length] of them, and one more
    when [length] is odd. *)
Definition Sum16Carry (buffer : list byte) (inverted : bool) : Z :=
  let sum := Sum16Carry_words (le_words buffer) 0 in
  if inverted then 0xFFFF - sum else sum.

(** Sum modulo 256 and bitwise XOR of the bytes. *)
Definition ByteSumXor (bytes : list byte) : Z * Z :=
  (foldl (fun s b => (s + u8 b) mod 256) 0 bytes,
   foldl (fun x b => Z.lxor x (u8 b)) 0 bytes).

(** A 4-byte little-endian unsigned integer. *)
Definition le32 (n : Z) : list byte :=
  [to_u8 n; to_u8 (n / 2 ^ 8); to_u8 (n / 2 ^ 16); to_u8 (n / 2 ^ 24)].

(** Fourteen bytes followed by their sum and their XOR. *)
Definition with_checksum_pair (bytes : list byte) : list byte :=
  bytes ++ [to_u8 (ByteSumXor bytes).1; to_u8 (ByteSumXor bytes).2].

(** Magic, payload length at offset 4, the tag [00 01 00 00], the marker
    [2B 1A], sum and XOR. *)
Definition VerificationHeader (payloadLength : Z) : list byte :=
  with_checksum_pair
    (bytes_of_string "MH01" ++ le32 payloadLength
     ++ [x00; x01; x00; x00] ++ [x2b; x1a]).

(** Magic, the tag [21 00 00 00] at offset 4, payload length at offset 8,
    the marker, sum and XOR. *)
Definition EncryptionHeader (payloadLength : Z) : list byte :=
  with_checksum_pair
    (bytes_of_string "MH01" ++ [x21; x00; x00; x00]
     ++ le32 payloadLength ++ [x2b; x1a]).

(** [src] written over the bytes of [m] from offset [p] on. *)
Definition splice (m : list byte) (p : Z) (src : list byte) : list byte :=
  take (Z.to_nat p) m ++ src ++ drop (Z.to_nat p + length src) m.

(** The bytes that [Caclulate16BitSum] reads for a buffer of [bufferLength]
    bytes: one more when the length is odd. *)
Definition bytes_read (bufferLength : Z) : nat :=
  (2 * Z.to_nat ((bufferLength + 1) / 2))%nat.

(** The specification's partition-magic matches: the offsets at which the
    magic string occurs in the image, in ascending order. *)
Definition magic_at (buffer magic : list byte) (i : nat) : Prop :=
  take (length magic) (drop i buffer) = magic.

#[global] Instance magic_at_dec buffer magic i
  : Decision (magic_at buffer magic i).
Proof. unfold magic_at. apply _. Defined.

Definition magic_positions (buffer magic : list byte) : list nat :=
  filter (magic_at buffer magic) (seq 0 (length buffer)).

(** The matches that the scan can see: those below
    [st_size - M32_FIRMWARE_UTIL_FW_HEADER_LENGTH]. *)
Definition scanned_positions (buffer magic : list byte) : list nat :=
  filter
    (fun i => Z.of_nat i
              < Z.of_nat (length buffer) - M32_FIRMWARE_UTIL_FW_HEADER_LENGTH)
    (magic_positions buffer magic).

(** The offsets [idx + j], [j < k], at which the magic occurs, [buf] being
    the view at offset [idx]. *)
Fixpoint matches_from (buf magic : list byte) (idx : Z) (k : nat) : list Z :=
  match k, buf with
  | S k, _ :: buf' =>
      (if bool_decide (take (length magic) buf = magic) then [idx] else [])
      ++ matches_from buf' magic (idx + 1) k
  | _, _ => []
  end.

(** An image whose only occurrence of the magic lies in its last 80
    bytes. *)
Definition image_with_late_magic : list byte :=
  replicate 80 x00 ++ bytes_of_string "DLK6E6010001".

(** Seventeen occurrences of the magic, 100 bytes apart. *)
Definition image_seventeen_partitions : list byte :=
  concat (replicate 17 (bytes_of_string "DLK6E6010001" ++ replicate 88 x00)).

(** An image with one partition whose header becomes, once its data checksum
    [0x364B] is written at offset 14, a second occurrence of the magic at
    offset 12. *)
Definition image_growing_a_magic : list byte :=
  bytes_of_string "DLK6E6010001" ++ bytes_of_string "DL" ++ [x00; x00]
  ++ bytes_of_string "E6010001" ++ replicate 56 x00
  ++ [x4b; x36] ++ replicate 12 x00.

(** ** What one pass over a partition does to its header

    [partition_length] is the value of [partitionLength] in the loop over
    the partitions; [update_header] is the 80-byte header after the pass,
    given the header before it and the data checksum of the payload. *)
Definition partition_length (st_size : Z) (headerAddresses : list Z)
    (partition : Z) : Z :=
  let partitionStart :=
    default SIZE_MAX (headerAddresses !! Z.to_nat partition) in
  let next := headerAddresses !! Z.to_nat (partition + 1) in
  size_t
    ((if (partition + 1 <? M32_FIRMWARE_UTIL_MAX_PARTITIONS)
         && negb (default SIZE_MAX next =? SIZE_MAX)
      then size_t (default SIZE_MAX next - partitionStart)
      else size_t (st_size - partitionStart))
     - M32_FIRMWARE_UTIL_FW_HEADER_LENGTH).

(** A 2-byte little-endian unsigned integer. *)
Definition le16 (v : Z) : list byte := [to_u8 v; to_u8 (v / 2 ^ 8)].

Definition update_header (header : list byte) (partitionLength : Z)
    (dataChecksum : Z) : list byte :=
  let header :=
    splice header M32_FIRMWARE_UTIL_FW_DATA_LENGTH_OFFSET
      (le32 partitionLength) in
  let header :=
    splice header CHECKUM_PATCHER_DATA_CHECKSUM_OFFSET (le16 dataChecksum) in
  splice header CHECKUM_PATCHER_HEADER_CHECKSUM_OFFSET
    (le16 (Sum16Carry
             (take (Z.to_nat CHECKUM_PATCHER_HEADER_CHECKSUM_OFFSET) header)
             true)).

(** The array [headerAddresses] that holds the offsets [found]. *)
Definition header_addresses (found : list nat) : list Z :=
  (Z.of_nat <$> found) ++ replicate (16 - length found) SIZE_MAX.

(** Where the partition that starts at the [k]-th recorded offset ends: at
    the next recorded offset, or at the end of the file. *)
Definition partition_end (st_size : Z) (found : list nat) (k : nat) : Z :=
  match found !! S k with
  | Some next => Z.of_nat next
  | None => st_size
  end.

(** What the scan guarantees of the offsets it records. *)
Definition recorded (st_size : Z) (found : list nat) : Prop :=
  (length found <= 16)%nat
  /\ (forall k a, found !! k = Some a -> Z.of_nat a < st_size - 80)
  /\ (forall k a next,
        found !! k = Some a -> found !! S k = Some next -> (a < next)%nat).

(** The state of the [k]-th recorded partition in a repaired buffer: it is
    at least a header long, the data checksum loop over its payload is
    defined, and its header is the result of a pass with that checksum. *)
Definition partition_repaired (st_size : Z) (found : list nat)
    (m : list byte) (k : nat) : Prop :=
  exists (a : nat) (header : list byte) (dataChecksum : Z),
    found !! k = Some a
    /\ 80 <= partition_end st_size found k - Z.of_nat a
    /\ length header = 80%nat
    /\ Caclulate16BitSum_loop (drop (a + 80) m) 0
         (partition_end st_size found k - Z.of_nat a - 80) 0
       = Some dataChecksum
    /\ take 80 (drop a m)
       = update_header header
           (partition_end st_size found k - Z.of_nat a - 80) dataChecksum.

(** The [k]-th recorded partition can be summed: it is at least a header
    long, and its payload, with one byte more when its length is odd, lies
    inside the file and is at most [INT_MAX - 1] bytes long, the range of
    the [int] counter of [Caclulate16BitSum]. *)
Definition partition_in_bounds (st_size : Z) (found : list nat) (k : nat)
  : bool :=
  match found !! k with
  | Some a =>
      let payload := partition_end st_size found k - Z.of_nat a - 80 in
      (0 <=? payload) && (payload <=? INT_MAX - 1)
      && (Z.of_nat a + 80 + Z.of_nat (bytes_read payload) <=? st_size)
  | None => false
  end.

Definition partitions_in_bounds (st_size : Z) (found : list nat) : bool :=
  forallb (partition_in_bounds st_size found) (seq 0 (length found)).

(** ** Sample images *)

(** One partition: a header that holds the magic and zeros, and a payload
    of 100 bytes. *)
Definition image_single_partition : list byte :=
  bytes_of_string "DLK6E6010001" ++ replicate 68 x00 ++ replicate 100 x01.

(** Two partitions, the first with a payload of odd length. *)
Definition image_two_partitions : list byte :=
  bytes_of_string "DLK6E6010001" ++ replicate 68 x00 ++ replicate 101 x01
  ++ bytes_of_string "DLK6E6010001" ++ replicate 68 x00
  ++ replicate 100 xff.


(** One partition with a payload of 101 bytes. *)
Definition image_odd_last_payload : list byte :=
  bytes_of_string "DLK6E6010001" ++ replicate 68 x00 ++ replicate 101 x01.

(** The output file of [UpdateHeaderInRecoveryImage] in the environment
    [Toy.env], empty when there is none. *)
Definition repaired_image (file : list byte) : list byte :=
  default []
    (o ← UpdateHeaderInRecoveryImage Toy.env file "out" Toy.M32; output o).

(** ** The layout of a factory image

    The pieces that [CreateFactoryImageFromRecoveryImage] assembles, as
    functions of the recovery image and the device. *)

(** Digest, private key and signature: the signature that
    [CreateSha512VerificatioinSignature] appends to [data]. *)
Definition sign_data `{Libs} (device : M32FirmwareUtilDeviceInfoType)
    (data : list byte) : option (list byte) :=
  digest ← SHA512 data;
  rsaPrivateKey ←
    PEM_read_bio_RSAPrivateKey (PrivateKey device) (Passphrase device);
  EVP_Sign rsaPrivateKey digest.

(** Digest, public key and check of a signature: what
    [VerifySha512Signture] decides. *)
Definition verify_data `{Libs} (device : M32FirmwareUtilDeviceInfoType)
    (data signature : list byte) : option Z :=
  digest ← SHA512 data;
  publicKey ← PEM_read_bio_PUBKEY (PublicKey device);
  Some (EVP_DigestVerify publicKey digest signature).

(** The 32 hexadecimal digits of the initialization vector and a line
    feed. *)
Definition iv_text (iv : list byte) : list byte :=
  flat_map (fun b => take 2 (sprintf_02x b)) iv ++ [x0a].

Definition salted_prefix : list byte := bytes_of_string "Salted__" ++ salt.

(** What is encrypted: inner header, recovery image, inner signature. *)
Definition inner_block (file signature : list byte) : list byte :=
  VerificationHeader (Z.of_nat (length file)) ++ file ++ signature.

(** The length that [EncryptAes128Cbc] hands to [EVP_EncryptUpdate]: the
    [size_t] value [recoveryImageSize + 16 + 256] converted to [int]. *)
Definition encrypt_inl (file : list byte) : Z :=
  int (size_t (Z.of_nat (length file) + M32_FIRMWARE_HEADER_LENGTH
               + M32_FIRMWARE_SIGNATURE_LENGTH)).

Definition encrypt_block `{Libs} (device : M32FirmwareUtilDeviceInfoType)
    (file signature : list byte) : option (list byte) :=
  EVP_Encrypt
    (EVP_BytesToKey salt (bytes_of_string (FirmwareKey device))).1 IV
    (take (Z.to_nat (encrypt_inl file)) (inner_block file signature))
    (encrypt_inl file).

(** What the outer signature covers. *)
Definition outer_block (encrypted : list byte) : list byte :=
  EncryptionHeader (Z.of_nat (length encrypted) + 16)
  ++ iv_text IV ++ salted_prefix ++ encrypted.

Definition factory_layout (encrypted signature : list byte) : list byte :=
  VerificationHeader (Z.of_nat (length encrypted) + 65)
  ++ outer_block encrypted ++ signature.

(** The factory image of a recovery image, from the inside out: inner
    signature over the recovery image, encryption of the framed and signed
    image, outer signature over the encryption header and what follows. *)
Definition factory_image `{Libs} (device : M32FirmwareUtilDeviceInfoType)
    (file : list byte) : option (list byte) :=
  signature ← sign_data device file;
  encrypted ← encrypt_block device file signature;
  outer ← sign_data device (outer_block encrypted);
  Some (factory_layout encrypted outer).

(** The factory image as the specification words it: the inner signature
    covers the framed buffer, the inner header followed by the recovery
    image. *)
Definition factory_image_as_specified `{Libs}
    (device : M32FirmwareUtilDeviceInfoType) (file : list byte)
  : option (list byte) :=
  signature ←
    sign_data device (VerificationHeader (Z.of_nat (length file)) ++ file);
  encrypted ← encrypt_block device file signature;
  outer ← sign_data device (outer_block encrypted);
  Some (factory_layout encrypted outer).

(** A recovery image of 4 GiB and 1 KiB, all zero. *)
Definition image_over_4GiB : list byte :=
  replicate (Z.to_nat (2 ^ 32 + 1024)) x00.

(** The environment lets CreateFactoryImageFromRecoveryImage through:
    memory is granted, the input is read, the debug files and the output
    file are written, and the caller of CreateSha512VerificatioinSignature
    finds 0 where the return value would be. *)
Definition build_environment_ok (env : Env) (outputFile : string) : bool :=
  negb (malloc_null env 0) && negb (fread_short env)
  && (fallen_off_value env 0 =? 0)
  && (WriteDebugBufferToFile env "Sig1.bin" =? 0)
  && (WriteDebugBufferToFile env "FW_and_Sig1.bin" =? 0)
  && (WriteDebugBufferToFile env "FWenc.bin" =? 0)
  && (WriteDebugBufferToFile env "IV.bin" =? 0)
  && (fallen_off_value env 1 =? 0)
  && (WriteBufferToFile env outputFile =? 0).

(** The environment lets DecryptFactoryImage through. *)
Definition split_environment_ok (env : Env) (outputFile : string) : bool :=
  negb (malloc_null env 0) && negb (fread_short env)
  && negb (malloc_null env 1)
  && (WriteBufferToFile env outputFile =? 0).

(** ** main

    What [main] takes from its surroundings besides the environment of
    the operations: what [fopen(inputFileArg, "rb+")] finds, [None] when it
    returns [NULL], and whether [fileno] and [fstat] fail. *)
Record Files : Type := {
  fopen_rb : string -> option (list byte);
  fileno_fails : bool;
  fstat_fails : bool
}.

Module Operations.

(** An entry of the table of operations. *)
Record M32FirmwareUtilOperationsType : Type := {
  Argument : string;
  Description : string;
  Operation :
    Env -> list byte -> string -> M32FirmwareUtilDeviceInfoType ->
    option Outcome;
  MinimumFileSize : Z
}.

End Operations.

Definition M32FirmwareUtilOperations `{Libs}
  : list Operations.M32FirmwareUtilOperationsType :=
  [ {| Operations.Argument := "--UpdateFirmwareHeader";
       Operations.Description :=
         "Updates data length information and checksum in an existing header in a recovery image";
       Operations.Operation := UpdateHeaderInRecoveryImage;
       Operations.MinimumFileSize := M32_FIRMWARE_UTIL_FW_HEADER_LENGTH |};
    {| Operations.Argument := "--CreateFactoryImage";
       Operations.Description :=
         "Create a factory image from a recovery image";
       Operations.Operation := CreateFactoryImageFromRecoveryImage;
       Operations.MinimumFileSize := 1024 |};
    {| Operations.Argument := "--DecryptFactoryImage";
       Operations.Description := "Decrypts a factory image";
       Operations.Operation := DecryptFactoryImage;
       Operations.MinimumFileSize :=
         2 * (M32_FIRMWARE_SIGNATURE_LENGTH + M32_FIRMWARE_HEADER_LENGTH)
         + 1024 |} ].

(** The loops of [main] over the tables: without a [break], the last entry
    whose name compares equal is kept. *)
Definition find_operation `{Libs} (operationArg : string)
  : option Operations.M32FirmwareUtilOperationsType :=
  foldl
    (fun entry e =>
       if String.eqb (Operations.Argument e) operationArg
       then Some e else entry)
    None M32FirmwareUtilOperations.

Definition find_device (deviceArg : string)
  : option M32FirmwareUtilDeviceInfoType :=
  foldl
    (fun device d => if String.eqb (Name d) deviceArg then Some d else device)
    None M32FirmwareUtilDeviceInfos.

(** The two static variables that [main] sets from [argv[5]] and
    [argv[6]]; they start as [false] and [NULL]. *)
Definition with_debug (env : Env) (write : bool) (folder : string) : Env :=
  {| malloc_null := malloc_null env;
     malloc_junk := malloc_junk env;
     stack_junk := stack_junk env;
     fread_short := fread_short env;
     fopen_null := fopen_null env;
     fwrite_short := fwrite_short env;
     M32FirmwareUtilWriteDebugFiles := write;
     M32FirmwareUtilDebugTargetFolder := folder;
     fallen_off_value := fallen_off_value env |}.

(** [main(argc, argv)], [argc] being the length of [argv]: the return value
    and the output file.  [PrintUsage] and the messages only print. *)
Definition main `{Libs} (env : Env) (files : Files) (argv : list string)
  : option Outcome :=
  let argc := Z.of_nat (length argv) in
  if negb (argc =? 5) && negb (argc =? 7) then Some failed
  else
    deviceArg ← argv !! 1%nat;
    operationArg ← argv !! 2%nat;
    inputFileArg ← argv !! 3%nat;
    outputFileArg ← argv !! 4%nat;
    let entry := find_operation operationArg in
    let device := find_device deviceArg in
    env ←
      (if 6 <? argc then
         argv5 ← argv !! 5%nat;
         if String.eqb "--debug" argv5 then
           argv6 ← argv !! 6%nat;
           Some (with_debug env true argv6)
         else Some (with_debug env false "")
       else Some (with_debug env false ""));
    match entry, device with
    | Some entry, Some device =>
        match fopen_rb files inputFileArg with
        | None => Some failed
        | Some file =>
            if fileno_fails files then Some failed
            else if fstat_fails files then Some failed
            else if Z.of_nat (length file) <? Operations.MinimumFileSize entry
            then Some failed
            else Operations.Operation entry env file outputFileArg device
        end
    | _, _ => Some failed
    end.

(** ** Headers and files that the decoders accept

    A header as the decoders see it: the magic and the length field, with
    any bytes where the writers put the tag, the marker and the checksum
    pair. *)
Definition any_VerificationHeader (payloadLength : Z) (tail : list byte)
  : list byte :=
  bytes_of_string "MH01" ++ le32 payloadLength ++ tail.

Definition any_EncryptionHeader (tag : list byte) (payloadLength : Z)
    (tail : list byte) : list byte :=
  bytes_of_string "MH01" ++ tag ++ le32 payloadLength ++ tail.

(** A factory image for [Toy.image] that no run of
    CreateFactoryImageFromRecoveryImage writes: zeros for the tags and the
    checksum pairs of the verification headers, [FF] for the tag of the
    encryption header, another marker before the salt, and three bytes
    after the outer signature. *)
Definition loose_inner : list byte :=
  any_VerificationHeader 1024 (replicate 8 x00) ++ Toy.image
  ++ Toy.sign x32 (Toy.digest Toy.image) ++ [].

Definition loose_encrypted : list byte :=
  default []
    (Toy.encrypt
       (Toy.bytes_to_key salt
          (bytes_of_string (FirmwareKey Toy.M32))).1 IV loose_inner
       (Z.of_nat (length loose_inner))).

Definition loose_signed : list byte :=
  any_EncryptionHeader [xff; xff; xff; xff]
    (Z.of_nat (length loose_encrypted) + 16) (replicate 4 x00)
  ++ iv_text IV ++ bytes_of_string "Pepper__" ++ salt ++ loose_encrypted.

Definition loose_factory_image : list byte :=
  any_VerificationHeader (Z.of_nat (length loose_encrypted) + 65)
    (replicate 8 x00)
  ++ loose_signed ++ Toy.sign x32 (Toy.digest loose_signed)
  ++ [x00; x00; x00].

(** * Theorems *)

(** Division and remainder by constants are left to [lia]. *)
Ltac Zify.zify_post_hook ::= Z.to_euclidean_division_equations.

(** ** Bytes *)

Lemma u8_range (b : byte) : 0 <= u8 b < 256.
Proof.
  unfold u8. pose proof (Byte.to_N_bounded b). lia.
Qed.

Lemma u8_to_u8 (z : Z) : u8 (to_u8 z) = z mod 256.
Proof.
  unfold to_u8, u8, uint8_t.
  change (2 ^ 8) with 256.
  pose proof (Z.mod_pos_bound z 256 ltac:(lia)) as Hz.
  destruct (Byte.of_N (Z.to_N (z mod 256))) as [b|] eqn:E.
  - apply Byte.to_of_N in E. simpl. rewrite E. lia.
  - apply Byte.of_N_None_iff in E. lia.
Qed.

Lemma to_u8_u8 (b : byte) : to_u8 (u8 b) = b.
Proof.
  unfold to_u8, u8, uint8_t. change (2 ^ 8) with 256.
  pose proof (Byte.to_N_bounded b).
  rewrite Z.mod_small by lia. rewrite N2Z.id, Byte.of_to_N. reflexivity.
Qed.

Lemma u8_inj (a b : byte) : u8 a = u8 b -> a = b.
Proof.
  intros E. rewrite <- (to_u8_u8 a), <- (to_u8_u8 b), E. reflexivity.
Qed.

(** [lo | (hi << n)] is [lo + hi * 2 ^ n] when [lo] has at most [n] bits. *)
Lemma lor_shiftl (lo hi n : Z) :
  0 <= n -> 0 <= lo < 2 ^ n -> Z.lor lo (Z.shiftl hi n) = lo + hi * 2 ^ n.
Proof.
  intros Hn Hlo.
  rewrite Z.shiftl_mul_pow2 by lia.
  rewrite <- Z.add_nocarry_lor; [reflexivity|].
  apply Z.bits_inj'. intros k Hk.
  rewrite Z.land_spec, Z.bits_0.
  destruct (Z.lt_ge_cases k n) as [Hlt|Hge].
  - rewrite Z.mul_pow2_bits_low by lia. apply andb_false_r.
  - destruct (Z.eq_dec lo 0) as [->|Hne].
    + rewrite Z.bits_0. reflexivity.
    + rewrite (Z.bits_above_log2 lo k); [reflexivity|lia|].
      apply Z.lt_le_trans with n; [|lia].
      apply Z.log2_lt_pow2; lia.
Qed.

Lemma word_value (b0 b1 : byte) :
  uint16_t (Z.lor (u8 b0) (Z.shiftl (u8 b1) 8)) = u8 b0 + 256 * u8 b1.
Proof.
  pose proof (u8_range b0). pose proof (u8_range b1).
  rewrite lor_shiftl by lia. unfold uint16_t.
  change (2 ^ 8) with 256. change (2 ^ 16) with 65536.
  rewrite Z.mod_small; lia.
Qed.

(** ** Checksum calculation *)

Lemma Sum16Carry_words_range (words : list Z) (sum : Z) :
  0 <= sum < 65536 -> Forall (fun w => 0 <= w < 65536) words ->
  0 <= Sum16Carry_words words sum < 65536.
Proof.
  intros Hs Hw. revert sum Hs.
  induction Hw as [|w ws Hwr _ IH]; intros sum Hs; simpl; [exact Hs|].
  apply IH.
  pose proof (Z.mod_pos_bound (sum + w) 65536 ltac:(lia)).
  destruct (Z.ltb_spec ((sum + w) mod 65536) w); lia.
Qed.

Lemma le_words_range (bytes : list byte) :
  Forall (fun w => 0 <= w < 65536) (le_words bytes).
Proof.
  induction bytes as [bytes IH] using (induction_ltof1 _ (@length byte)).
  unfold ltof in IH.
  destruct bytes as [|b0 [|b1 bytes]]; simpl; try constructor.
  - pose proof (u8_range b0). pose proof (u8_range b1). lia.
  - apply IH. simpl. lia.
Qed.

(** The step of the loop is the step of the specification. *)
Lemma Caclulate16BitSum_step_words (sum : Z) (b0 b1 : byte) :
  0 <= sum < 65536 ->
  Caclulate16BitSum_step sum b0 b1
  = Sum16Carry_words [u8 b0 + 256 * u8 b1] sum.
Proof.
  intros Hs. unfold Caclulate16BitSum_step. rewrite word_value. simpl.
  pose proof (u8_range b0). pose proof (u8_range b1).
  unfold uint16_t. change (2 ^ 16) with 65536.
  pose proof (Z.mod_pos_bound (sum + (u8 b0 + 256 * u8 b1)) 65536 ltac:(lia)).
  destruct (Z.ltb_spec ((sum + (u8 b0 + 256 * u8 b1)) mod 65536)
              (u8 b0 + 256 * u8 b1)); [|reflexivity].
  apply Z.mod_small. lia.
Qed.

(** [k] passes of the loop read [2 * k] bytes. *)
Lemma Caclulate16BitSum_loop_words (bufferLength : Z) (k : nat) :
  forall (buf : list byte) (i sum : Z),
    0 <= sum < 65536 ->
    bufferLength <= i + 2 * Z.of_nat k ->
    ((0 < k)%nat -> i + 2 * Z.of_nat k - 2 < bufferLength) ->
    (2 * k <= length buf)%nat ->
    i + 2 * Z.of_nat k <= INT_MAX ->
    Caclulate16BitSum_loop buf i bufferLength sum
    = Some (Sum16Carry_words (le_words (take (2 * k) buf)) sum).
Proof.
  induction k as [|k IH]; intros buf i sum Hs Hhi Hlo Hlen Hmax.
  - destruct buf; simpl;
      (destruct (Z.ltb_spec i bufferLength); [lia|reflexivity]).
  - destruct buf as [|b0 [|b1 buf]]; simpl in Hlen; try lia.
    cbn [Caclulate16BitSum_loop].
    destruct (Z.ltb_spec i bufferLength) as [_|Hge]; [|lia].
    destruct (Z.ltb_spec INT_MAX (i + 2)) as [Hov|_]; [lia|].
    rewrite Caclulate16BitSum_step_words by exact Hs.
    rewrite IH.
    + replace (2 * S k)%nat with (S (S (2 * k))) by lia. reflexivity.
    + simpl. pose proof (u8_range b0). pose proof (u8_range b1).
      pose proof (Z.mod_pos_bound (sum + (u8 b0 + 256 * u8 b1)) 65536
                    ltac:(lia)).
      destruct (Z.ltb_spec ((sum + (u8 b0 + 256 * u8 b1)) mod 65536)
                  (u8 b0 + 256 * u8 b1)); lia.
    + lia.
    + intros Hk. lia.
    + lia.
    + lia.
Qed.

(** ** Loads and stores *)

Lemma load_Some (m : list byte) (p v : Z) :
  load m p = Some v <->
  0 <= p /\ exists b, m !! Z.to_nat p = Some b /\ v = u8 b.
Proof.
  unfold load. destruct (Z.ltb_spec p 0).
  - split; [discriminate|]. intros [? _]. lia.
  - destruct (m !! Z.to_nat p) as [b|]; simpl.
    + split.
      * intros [= <-]. eauto.
      * intros (_ & b' & [= <-] & ->). reflexivity.
    + split; [discriminate|]. intros (_ & b' & ? & _). discriminate.
Qed.

Lemma load_in_range (m : list byte) (p : Z) :
  0 <= p < Z.of_nat (length m) -> exists b, load m p = Some (u8 b).
Proof.
  intros Hp. destruct (lookup_lt_is_Some_2 m (Z.to_nat p)) as [b Hb]; [lia|].
  exists b. apply load_Some. eauto with lia.
Qed.

Lemma load_range (m : list byte) (p v : Z) :
  load m p = Some v -> 0 <= p < Z.of_nat (length m) /\ 0 <= v < 256.
Proof.
  intros (Hp & b & Hb & ->)%load_Some.
  apply lookup_lt_Some in Hb. pose proof (u8_range b). lia.
Qed.

Lemma store_Some (m : list byte) (p v : Z) :
  0 <= p < Z.of_nat (length m) ->
  store m p v = Some (<[Z.to_nat p := to_u8 v]> m).
Proof.
  intros Hp. unfold store.
  destruct (Z.leb_spec 0 p); [|lia].
  destruct (Z.ltb_spec p (Z.of_nat (length m))); [|lia]. reflexivity.
Qed.

Lemma store_inv (m m' : list byte) (p v : Z) :
  store m p v = Some m' ->
  0 <= p < Z.of_nat (length m) /\ m' = <[Z.to_nat p := to_u8 v]> m.
Proof.
  unfold store.
  destruct (Z.leb_spec 0 p); [|discriminate].
  destruct (Z.ltb_spec p (Z.of_nat (length m))); [|discriminate].
  intros [= <-]. split; [lia|reflexivity].
Qed.

Lemma length_store (m m' : list byte) (p v : Z) :
  store m p v = Some m' -> length m' = length m.
Proof.
  intros [_ ->]%store_inv. apply length_insert.
Qed.

Lemma load_store_eq (m m' : list byte) (p v : Z) :
  store m p v = Some m' -> load m' p = Some (v mod 256).
Proof.
  intros [Hp ->]%store_inv. apply load_Some. split; [lia|].
  exists (to_u8 v). split; [|symmetry; apply u8_to_u8].
  apply list_lookup_insert_eq. lia.
Qed.

Lemma load_store_ne (m m' : list byte) (p q v : Z) :
  store m p v = Some m' -> q <> p -> load m' q = load m q.
Proof.
  intros [Hp ->]%store_inv Hq. unfold load.
  destruct (Z.ltb_spec q 0); [reflexivity|].
  rewrite list_lookup_insert_ne by lia. reflexivity.
Qed.

Lemma view_store_before (m m' : list byte) (p q v : Z) :
  store m p v = Some m' -> p < q -> view m' q = view m q.
Proof.
  intros [Hp ->]%store_inv Hq. unfold view.
  apply drop_insert_lt. lia.
Qed.

Lemma Caclulate16BitSum_value_spec (m : list byte)
    (buffer bufferLength : Z) (inverted : bool) :
  0 <= bufferLength <= INT_MAX - 1 ->
  (bytes_read bufferLength <= length (view m buffer))%nat ->
  Caclulate16BitSum_value m buffer bufferLength inverted
  = Some (Sum16Carry (take (bytes_read bufferLength) (view m buffer))
            inverted).
Proof.
  intros Hlen Hbuf. unfold Caclulate16BitSum_value, bytes_read in *.
  unfold INT_MAX in *.
  rewrite (Caclulate16BitSum_loop_words bufferLength
             (Z.to_nat ((bufferLength + 1) / 2))); unfold INT_MAX;
    try lia.
  unfold Sum16Carry.
  pose proof (Sum16Carry_words_range
    (le_words (take (2 * Z.to_nat ((bufferLength + 1) / 2)) (view m buffer)))
    0 ltac:(lia) (le_words_range _)) as Hr.
  set (s := Sum16Carry_words _ 0) in *. cbn [mbind option_bind].
  destruct inverted; [|reflexivity].
  f_equal. unfold uint16_t. change (2 ^ 16) with 65536.
  apply Z.mod_small. lia.
Qed.

Lemma Sum16Carry_range (buffer : list byte) (inverted : bool) :
  0 <= Sum16Carry buffer inverted < 65536.
Proof.
  unfold Sum16Carry.
  pose proof (Sum16Carry_words_range (le_words buffer) 0 ltac:(lia)
                (le_words_range _)).
  destruct inverted; lia.
Qed.

(** What [Caclulate16BitSum] leaves in the buffer: the two bytes at
    [checksumBuffer] hold [checksumNew], low byte first, and nothing else
    changes. *)
Lemma Caclulate16BitSum_stores (m : list byte)
    (buffer bufferLength checksumBuffer : Z) (inverted : bool) (v : Z) :
  Caclulate16BitSum_value m buffer bufferLength inverted = Some v ->
  0 <= v < 65536 ->
  0 <= checksumBuffer -> checksumBuffer + 2 <= Z.of_nat (length m) ->
  exists m',
    Caclulate16BitSum m buffer bufferLength checksumBuffer inverted = Some m'
    /\ length m' = length m
    /\ load m' checksumBuffer = Some (v mod 256)
    /\ load m' (checksumBuffer + 1) = Some (v / 256)
    /\ forall p, p <> checksumBuffer -> p <> checksumBuffer + 1 ->
         load m' p = load m p.
Proof.
  intros Hv Hr Hc0 Hc1. unfold Caclulate16BitSum.
  destruct (load_in_range m checksumBuffer ltac:(lia)) as [c0 E0].
  destruct (load_in_range m (checksumBuffer + 1) ltac:(lia)) as [c1 E1].
  rewrite E0, E1, Hv. simpl. rewrite word_value.
  pose proof (u8_range c0). pose proof (u8_range c1).
  destruct (Z.eqb_spec v (u8 c0 + 256 * u8 c1)) as [->|Hne]; simpl.
  - exists m. split; [reflexivity|]. split; [reflexivity|].
    split; [rewrite E0; f_equal; lia|].
    split; [rewrite E1; f_equal; lia|]. reflexivity.
  - rewrite store_Some by lia. simpl.
    rewrite store_Some by (rewrite length_insert; lia).
    eexists. split; [reflexivity|].
    split; [rewrite !length_insert; reflexivity|].
    assert (Hlo : Z.land v 255 = v mod 256)
      by (change 255 with (Z.ones 8); rewrite Z.land_ones by lia;
          reflexivity).
    assert (Hhi : Z.land (Z.shiftr v 8) 255 = v / 256).
    { rewrite Z.shiftr_div_pow2 by lia. change (2 ^ 8) with 256.
      change 255 with (Z.ones 8). rewrite Z.land_ones by lia.
      change (2 ^ 8) with 256. apply Z.mod_small. lia. }
    split; [|split].
    + apply load_Some. split; [lia|]. eexists. split.
      * rewrite list_lookup_insert_ne by lia.
        apply list_lookup_insert_eq. lia.
      * rewrite u8_to_u8, Hlo. rewrite Z.mod_mod by lia. reflexivity.
    + apply load_Some. split; [lia|]. eexists. split.
      * apply list_lookup_insert_eq. rewrite length_insert. lia.
      * rewrite u8_to_u8, Hhi. rewrite Z.mod_small; lia.
    + intros p Hp0 Hp1. unfold load.
      destruct (Z.ltb_spec p 0); [reflexivity|].
      rewrite !list_lookup_insert_ne by lia. reflexivity.
Qed.

(** C7: [Caclulate16BitSum] computes the specification's [Sum16Carry] of
    the bytes it reads, that is, the running 16-bit sum of their
    little-endian words with 1 added each time the new sum is less than the
    word just added, and [0xFFFF] minus that sum when [inverted] is set; it
    stores the value, low byte first, at [checksumBuffer]. *)
Theorem Caclulate16BitSum_is_Sum16Carry (m : list byte)
    (buffer bufferLength checksumBuffer : Z) (inverted : bool) :
  0 <= bufferLength <= INT_MAX - 1 ->
  (bytes_read bufferLength <= length (view m buffer))%nat ->
  0 <= checksumBuffer -> checksumBuffer + 2 <= Z.of_nat (length m) ->
  Caclulate16BitSum_value m buffer bufferLength inverted
  = Some (Sum16Carry (take (bytes_read bufferLength) (view m buffer))
            inverted)
  /\ exists m',
       Caclulate16BitSum m buffer bufferLength checksumBuffer inverted
       = Some m'
       /\ load m' checksumBuffer
          = Some (Sum16Carry (take (bytes_read bufferLength) (view m buffer))
                    inverted mod 256)
       /\ load m' (checksumBuffer + 1)
          = Some (Sum16Carry (take (bytes_read bufferLength) (view m buffer))
                    inverted / 256).
Proof.
  intros Hlen Hbuf Hc0 Hc1.
  pose proof (Caclulate16BitSum_value_spec m buffer bufferLength inverted
                Hlen Hbuf) as Hv.
  split; [exact Hv|].
  destruct (Caclulate16BitSum_stores m buffer bufferLength checksumBuffer
              inverted _ Hv (Sum16Carry_range _ _) Hc0 Hc1)
    as (m' & Hm' & _ & Hl0 & Hl1 & _).
  exists m'. auto.
Qed.

Lemma Caclulate16BitSum_is_Sum16Carry_witness :
  Caclulate16BitSum_value [xff; xff; x02; x00; x01; x00; x00] 0 3 true
  = Some (Sum16Carry
            (take (bytes_read 3) (view [xff; xff; x02; x00; x01; x00; x00] 0))
            true)
  /\ exists m',
       Caclulate16BitSum [xff; xff; x02; x00; x01; x00; x00] 0 3 5 true
       = Some m'
       /\ load m' 5
          = Some (Sum16Carry
                    (take (bytes_read 3)
                       (view [xff; xff; x02; x00; x01; x00; x00] 0))
                    true mod 256)
       /\ load m' (5 + 1)
          = Some (Sum16Carry
                    (take (bytes_read 3)
                       (view [xff; xff; x02; x00; x01; x00; x00] 0))
                    true / 256).
Proof.
  apply (Caclulate16BitSum_is_Sum16Carry
           [xff; xff; x02; x00; x01; x00; x00] 0 3 5 true);
    [unfold INT_MAX; lia | vm_compute; lia | lia | simpl; lia].
Defined.

Example Sum16Carry_end_around_carry :
  Sum16Carry [xff; xff; x02; x00] false = 2
  /\ Sum16Carry [xff; xff; x02; x00] true = 0xFFFD.
Proof. split; reflexivity. Qed.

(** ** Accesses behind a prefix

    A pointer [&buffer[p]] is the list after the first [p] bytes; what a
    function does at small offsets from it is computed on that list. *)

Lemma load_app_r (a l : list byte) (k : Z) :
  0 <= k ->
  load (a ++ l) (Z.of_nat (length a) + k) = u8 <$> l !! Z.to_nat k.
Proof.
  intros Hk. unfold load.
  destruct (Z.ltb_spec (Z.of_nat (length a) + k) 0); [lia|].
  replace (Z.to_nat (Z.of_nat (length a) + k))
    with (length a + Z.to_nat k)%nat by lia.
  rewrite lookup_app_r by lia.
  replace (length a + Z.to_nat k - length a)%nat with (Z.to_nat k) by lia.
  reflexivity.
Qed.

Lemma store_app_r (a l : list byte) (k v : Z) :
  0 <= k < Z.of_nat (length l) ->
  store (a ++ l) (Z.of_nat (length a) + k) v
  = Some (a ++ <[Z.to_nat k := to_u8 v]> l).
Proof.
  intros Hk. rewrite store_Some by (rewrite length_app; lia).
  replace (Z.to_nat (Z.of_nat (length a) + k))
    with (length a + Z.to_nat k)%nat by lia.
  rewrite insert_app_r. reflexivity.
Qed.

Lemma write_bytes_Some (m : list byte) (p : Z) (src : list byte) :
  0 <= p -> p + Z.of_nat (length src) <= Z.of_nat (length m) ->
  write_bytes m p src = Some (splice m p src).
Proof.
  intros H0 H1. unfold write_bytes.
  destruct (Z.leb_spec 0 p); [|lia].
  destruct (Z.leb_spec (p + Z.of_nat (length src)) (Z.of_nat (length m)));
    [|lia].
  reflexivity.
Qed.

Lemma write_bytes_inv (m m' : list byte) (p : Z) (src : list byte) :
  write_bytes m p src = Some m' ->
  0 <= p /\ p + Z.of_nat (length src) <= Z.of_nat (length m)
  /\ m' = splice m p src.
Proof.
  unfold write_bytes.
  destruct (Z.leb_spec 0 p); [|discriminate].
  destruct (Z.leb_spec (p + Z.of_nat (length src)) (Z.of_nat (length m)));
    [|discriminate].
  intros [= <-]. auto.
Qed.

Lemma read_bytes_Some (m : list byte) (p n : Z) :
  0 <= p -> 0 <= n -> p + n <= Z.of_nat (length m) ->
  read_bytes m p n = Some (take (Z.to_nat n) (drop (Z.to_nat p) m)).
Proof.
  intros H0 H1 H2. unfold read_bytes.
  destruct (Z.leb_spec 0 p); [|lia].
  destruct (Z.leb_spec 0 n); [|lia].
  destruct (Z.leb_spec (p + n) (Z.of_nat (length m))); [|lia].
  reflexivity.
Qed.

Lemma read_bytes_inv (m l : list byte) (p n : Z) :
  read_bytes m p n = Some l ->
  0 <= p /\ 0 <= n /\ p + n <= Z.of_nat (length m)
  /\ l = take (Z.to_nat n) (drop (Z.to_nat p) m).
Proof.
  unfold read_bytes.
  destruct (Z.leb_spec 0 p); [|discriminate].
  destruct (Z.leb_spec 0 n); [|discriminate].
  destruct (Z.leb_spec (p + n) (Z.of_nat (length m))); [|discriminate].
  intros [= <-]. auto.
Qed.

Lemma length_splice (m : list byte) (p : Z) (src : list byte) :
  0 <= p -> p + Z.of_nat (length src) <= Z.of_nat (length m) ->
  length (splice m p src) = length m.
Proof.
  intros H0 H1. unfold splice.
  rewrite !length_app, length_take, length_drop. lia.
Qed.

(** The splice that replaces the segment [w] of [a ++ w ++ b]. *)
Lemma splice_segment (a w b : list byte) (p : Z) (src : list byte) :
  p = Z.of_nat (length a) -> length src = length w ->
  splice (a ++ w ++ b) p src = a ++ src ++ b.
Proof.
  intros -> Hw. unfold splice. rewrite Nat2Z.id.
  rewrite take_app_length. f_equal. f_equal.
  rewrite Hw, drop_app_add, drop_app_length. reflexivity.
Qed.

Lemma splice_take_drop (m : list byte) (p : Z) (n : nat) :
  0 <= p -> p + Z.of_nat n <= Z.of_nat (length m) ->
  m = take (Z.to_nat p) m ++ take n (drop (Z.to_nat p) m)
      ++ drop (Z.to_nat p + n) m.
Proof.
  intros H0 H1. rewrite <- drop_drop, take_drop, take_drop. reflexivity.
Qed.

(** ** Header codec *)

Lemma to_u8_mod (z : Z) : to_u8 (z mod 256) = to_u8 z.
Proof.
  apply u8_inj. rewrite !u8_to_u8. apply Z.mod_mod. lia.
Qed.

Lemma land_255 (z : Z) : to_u8 (Z.land z 0xFF) = to_u8 z.
Proof.
  change 0xFF with (Z.ones 8). rewrite Z.land_ones by lia.
  change (2 ^ 8) with 256. apply to_u8_mod.
Qed.

Lemma shiftr_land_255 (z n : Z) :
  0 <= n -> to_u8 (Z.land (Z.shiftr z n) 0xFF) = to_u8 (z / 2 ^ n).
Proof.
  intros Hn. rewrite land_255, Z.shiftr_div_pow2 by lia. reflexivity.
Qed.

Lemma lxor_mod_256 (a b : Z) :
  Z.lxor a b mod 256 = Z.lxor (a mod 256) (b mod 256).
Proof.
  change 256 with (2 ^ 8). rewrite <- !Z.land_ones by lia.
  apply Z.bits_inj'. intros k Hk.
  rewrite !Z.land_spec, !Z.lxor_spec, !Z.land_spec.
  destruct (Z.testbit (Z.ones 8) k); rewrite ?andb_true_r, ?andb_false_r;
    reflexivity.
Qed.

Lemma u8_mod_256 (b : byte) : u8 b mod 256 = u8 b.
Proof. pose proof (u8_range b). apply Z.mod_small. lia. Qed.

(** The bytes at [buffer + 14] and [buffer + 15] after the loop, from the
    values they and the positions hold before it. *)
Lemma header_checksum_loop_window (a : list byte) (positions : list Z) :
  forall (h : list byte) (s x : byte) (rest : list byte),
    length h = 14%nat ->
    Forall (fun q => 0 <= q < 14) positions ->
    header_checksum_loop positions (a ++ h ++ s :: x :: rest)
      (Z.of_nat (length a))
    = Some (a ++ h
            ++ to_u8 (foldl (fun s q => (s + default 0 (load h q)) mod 256)
                        (u8 s) positions)
            :: to_u8 (foldl (fun x q => Z.lxor x (default 0 (load h q)))
                        (u8 x) positions)
            :: rest).
Proof.
  induction positions as [|q positions IH]; intros h s x rest Hh Hq.
  - simpl. rewrite !to_u8_u8. reflexivity.
  - inversion Hq as [|? ? Hq0 Hq']; subst.
    cbn [header_checksum_loop].
    assert (Hs : forall s x rest, load (a ++ h ++ s :: x :: rest)
                   (Z.of_nat (length a) + 14) = Some (u8 s)).
    { intros. rewrite load_app_r by lia.
      rewrite lookup_app_r by (rewrite Hh; simpl; lia).
      rewrite Hh. reflexivity. }
    assert (Hx : forall s x rest, load (a ++ h ++ s :: x :: rest)
                   (Z.of_nat (length a) + 15) = Some (u8 x)).
    { intros. rewrite load_app_r by lia.
      rewrite lookup_app_r by (rewrite Hh; simpl; lia).
      rewrite Hh. reflexivity. }
    assert (Hp : forall s x rest, load (a ++ h ++ s :: x :: rest)
                   (Z.of_nat (length a) + q) = load h q).
    { intros. rewrite load_app_r by lia.
      rewrite lookup_app_l by lia. unfold load.
      destruct (Z.ltb_spec q 0); [lia|reflexivity]. }
    destruct (load_in_range h q ltac:(lia)) as [b Hb].
    rewrite Hs, Hp, Hb. cbn [mbind option_bind].
    rewrite store_app_r by (rewrite length_app; simpl; lia).
    cbn [mbind option_bind].
    rewrite insert_app_r_alt by lia. rewrite Hh.
    change (<[(Z.to_nat 14 - 14)%nat := to_u8 (u8 s + u8 b)]> (s :: x :: rest))
      with (to_u8 (u8 s + u8 b) :: x :: rest).
    rewrite Hx, Hp, Hb. cbn [mbind option_bind].
    rewrite store_app_r by (rewrite length_app; simpl; lia).
    cbn [mbind option_bind].
    rewrite insert_app_r_alt by lia. rewrite Hh.
    change (<[(Z.to_nat 15 - 14)%nat := to_u8 (Z.lxor (u8 x) (u8 b))]>
              (to_u8 (u8 s + u8 b) :: x :: rest))
      with (to_u8 (u8 s + u8 b) :: to_u8 (Z.lxor (u8 x) (u8 b)) :: rest).
    rewrite IH by assumption. cbn [foldl]. rewrite Hb. cbn [default].
    rewrite !u8_to_u8.
    pose proof (u8_range x). pose proof (u8_range b).
    rewrite lxor_mod_256, !u8_mod_256. reflexivity.
Qed.

Section HeaderCodec.

Lemma write_bytes_app_r (a l src : list byte) :
  (length src <= length l)%nat ->
  write_bytes (a ++ l) (Z.of_nat (length a)) src
  = Some (a ++ src ++ drop (length src) l).
Proof.
  intros Hl. rewrite write_bytes_Some by (rewrite ?length_app; lia).
  unfold splice. rewrite Nat2Z.id, take_app_length, drop_app_add.
  reflexivity.
Qed.

Lemma list_16 (l : list byte) :
  (16 <= length l)%nat ->
  exists w0 w1 w2 w3 w4 w5 w6 w7 w8 w9 w10 w11 w12 w13 w14 w15 rest,
    l = w0 :: w1 :: w2 :: w3 :: w4 :: w5 :: w6 :: w7 :: w8 :: w9 :: w10
        :: w11 :: w12 :: w13 :: w14 :: w15 :: rest.
Proof.
  intros Hl.
  do 16 (destruct l as [|? l]; [simpl in Hl; lia|simpl in Hl]).
  repeat eexists.
Qed.

#[local] Arguments to_u8 : simpl never.
#[local] Arguments u8 : simpl never.
#[local] Arguments store : simpl never.
#[local] Arguments load : simpl never.
#[local] Arguments header_checksum_loop : simpl never.
#[local] Arguments Z.land : simpl never.
#[local] Arguments Z.shiftr : simpl never.
#[local] Arguments Z.of_nat : simpl never.
#[local] Arguments Z.add : simpl never.

Ltac store_step :=
  rewrite store_app_r by (simpl length; lia); simpl.

(** [CreateAes128CbcEncryptionHeader] writes the specification's
    [EncryptionHeader] over the 16 bytes at [buffer] and returns 0. *)
Lemma CreateAes128CbcEncryptionHeader_app (a l : list byte) (imageSize : Z) :
  (16 <= length l)%nat ->
  CreateAes128CbcEncryptionHeader (a ++ l) (Z.of_nat (length a)) imageSize
  = Some (a ++ EncryptionHeader imageSize ++ drop 16 l, 0).
Proof.
  intros Hl.
  destruct (list_16 l Hl)
    as (w0 & w1 & w2 & w3 & w4 & w5 & w6 & w7 & w8 & w9 & w10 & w11 & w12
        & w13 & w14 & w15 & rest & ->).
  unfold CreateAes128CbcEncryptionHeader.
  rewrite write_bytes_app_r by (simpl; lia).
  cbn [mbind option_bind bytes_of_string M32FirmwareUtilHeaderStart
       String.list_byte_of_string Ascii.byte_of_ascii length drop app
       Ascii.ascii_of_byte Byte.of_bits Byte.to_bits map].
  do 12 store_step.
  pose proof (header_checksum_loop_window a (Z.of_nat <$> seq 0 14)
    [ "M"%byte; "H"%byte; "0"%byte; "1"%byte; to_u8 33; to_u8 0; to_u8 0;
      to_u8 0; to_u8 (Z.land imageSize 255);
      to_u8 (Z.land (Z.shiftr imageSize 8) 255);
      to_u8 (Z.land (Z.shiftr imageSize 16) 255);
      to_u8 (Z.land (Z.shiftr imageSize 24) 255); to_u8 43; to_u8 26 ]
    (to_u8 0) (to_u8 0) rest eq_refl) as Hloop.
  simpl in Hloop. rewrite Hloop; clear Hloop.
  2:{ repeat constructor; lia. }
  simpl. unfold load. simpl.
  rewrite !shiftr_land_255, !land_255 by lia.
  reflexivity.
Qed.

(** [CreateSha512VerificatioinHeader] writes the specification's
    [VerificationHeader] over the 16 bytes at [buffer] and returns 0. *)
Lemma CreateSha512VerificatioinHeader_app (a l : list byte) (imageSize : Z) :
  (16 <= length l)%nat ->
  CreateSha512VerificatioinHeader (a ++ l) (Z.of_nat (length a)) imageSize
  = Some (a ++ VerificationHeader imageSize ++ drop 16 l, 0).
Proof.
  intros Hl.
  destruct (list_16 l Hl)
    as (w0 & w1 & w2 & w3 & w4 & w5 & w6 & w7 & w8 & w9 & w10 & w11 & w12
        & w13 & w14 & w15 & rest & ->).
  unfold CreateSha512VerificatioinHeader.
  rewrite write_bytes_app_r by (simpl; lia).
  cbn [mbind option_bind bytes_of_string M32FirmwareUtilHeaderStart
       String.list_byte_of_string Ascii.byte_of_ascii length drop app
       Ascii.ascii_of_byte Byte.of_bits Byte.to_bits map].
  do 12 store_step.
  pose proof (header_checksum_loop_window a (Z.of_nat <$> seq 0 14)
    [ "M"%byte; "H"%byte; "0"%byte; "1"%byte;
      to_u8 (Z.land imageSize 255);
      to_u8 (Z.land (Z.shiftr imageSize 8) 255);
      to_u8 (Z.land (Z.shiftr imageSize 16) 255);
      to_u8 (Z.land (Z.shiftr imageSize 24) 255);
      to_u8 0; to_u8 1; to_u8 0; to_u8 0; to_u8 43; to_u8 26 ]
    (to_u8 0) (to_u8 0) rest eq_refl) as Hloop.
  simpl in Hloop. rewrite Hloop; clear Hloop.
  2:{ repeat constructor; lia. }
  simpl. unfold load. simpl.
  rewrite !shiftr_land_255, !land_255 by lia.
  reflexivity.
Qed.

Lemma length_VerificationHeader (n : Z) :
  length (VerificationHeader n) = 16%nat.
Proof. reflexivity. Qed.

Lemma length_EncryptionHeader (n : Z) :
  length (EncryptionHeader n) = 16%nat.
Proof. reflexivity. Qed.

Lemma split_at (m : list byte) (p : Z) :
  0 <= p <= Z.of_nat (length m) ->
  exists a l, m = a ++ l /\ p = Z.of_nat (length a).
Proof.
  intros Hp. exists (take (Z.to_nat p) m), (drop (Z.to_nat p) m).
  rewrite take_drop, length_take. split; [reflexivity|lia].
Qed.

Lemma splice_app_r (a l src : list byte) :
  splice (a ++ l) (Z.of_nat (length a)) src
  = a ++ src ++ drop (length src) l.
Proof.
  unfold splice. rewrite Nat2Z.id, take_app_length, drop_app_add.
  reflexivity.
Qed.

Lemma CreateSha512VerificatioinHeader_spec (m : list byte)
    (buffer imageSize : Z) :
  0 <= buffer -> buffer + 16 <= Z.of_nat (length m) ->
  CreateSha512VerificatioinHeader m buffer imageSize
  = Some (splice m buffer (VerificationHeader imageSize), 0).
Proof.
  intros H0 H1.
  destruct (split_at m buffer ltac:(lia)) as (a & l & -> & ->).
  rewrite length_app in H1.
  rewrite CreateSha512VerificatioinHeader_app by lia.
  rewrite splice_app_r. reflexivity.
Qed.

Lemma CreateAes128CbcEncryptionHeader_spec (m : list byte)
    (buffer imageSize : Z) :
  0 <= buffer -> buffer + 16 <= Z.of_nat (length m) ->
  CreateAes128CbcEncryptionHeader m buffer imageSize
  = Some (splice m buffer (EncryptionHeader imageSize), 0).
Proof.
  intros H0 H1.
  destruct (split_at m buffer ltac:(lia)) as (a & l & -> & ->).
  rewrite length_app in H1.
  rewrite CreateAes128CbcEncryptionHeader_app by lia.
  rewrite splice_app_r. reflexivity.
Qed.

(** The length that the decoders read back from the four bytes of
    [le32 n]. *)
Lemma read_length_le32 (n : Z) :
  read_length (u8 (to_u8 n)) (u8 (to_u8 (n / 2 ^ 8)))
    (u8 (to_u8 (n / 2 ^ 16))) (u8 (to_u8 (n / 2 ^ 24)))
  = size_t (int n).
Proof.
  unfold read_length. rewrite !u8_to_u8.
  rewrite (lor_shiftl _ _ 8) by lia.
  rewrite (lor_shiftl _ _ 16) by lia.
  rewrite (lor_shiftl _ _ 24) by lia.
  f_equal. unfold int.
  change (2 ^ 8) with 256. change (2 ^ 16) with 65536.
  change (2 ^ 24) with 16777216. change (2 ^ 31) with 2147483648.
  change (2 ^ 32) with 4294967296.
  lia.
Qed.

Lemma size_t_int_small (n : Z) : 0 <= n < 2 ^ 31 -> size_t (int n) = n.
Proof.
  intros Hn. unfold size_t, int.
  change (2 ^ 31) with 2147483648 in *.
  change (2 ^ 32) with 4294967296. change (2 ^ 64) with 18446744073709551616.
  lia.
Qed.

Lemma GetDataLengthFromEncryptionHeader_app (a rest : list byte)
    (n old : Z) :
  GetDataLengthFromEncryptionHeader (a ++ EncryptionHeader n ++ rest)
    (Z.of_nat (length a)) old
  = Some (0, size_t (int n)).
Proof.
  unfold GetDataLengthFromEncryptionHeader, header_starts_with_MH01.
  rewrite <- (Z.add_0_r (Z.of_nat (length a))) at 1.
  rewrite !load_app_r by lia. simpl.
  rewrite read_length_le32. reflexivity.
Qed.

Lemma GetDataLengthFromVerificationHeader_app (a rest : list byte)
    (n old : Z) :
  GetDataLengthFromVerificationHeader (a ++ VerificationHeader n ++ rest)
    (Z.of_nat (length a)) old
  = Some (0, size_t (int n)).
Proof.
  unfold GetDataLengthFromVerificationHeader, header_starts_with_MH01.
  rewrite <- (Z.add_0_r (Z.of_nat (length a))) at 1.
  rewrite !load_app_r by lia. simpl.
  rewrite read_length_le32. reflexivity.
Qed.

Lemma read_bytes_splice (m : list byte) (p : Z) (src : list byte) :
  0 <= p -> p + Z.of_nat (length src) <= Z.of_nat (length m) ->
  read_bytes (splice m p src) p (Z.of_nat (length src)) = Some src.
Proof.
  intros H0 H1.
  rewrite read_bytes_Some by (rewrite ?length_splice; lia).
  destruct (split_at m p ltac:(lia)) as (a & l & -> & ->).
  rewrite splice_app_r, !Nat2Z.id, drop_app_length, take_app_length.
  reflexivity.
Qed.

(** The decoder of the encryption kind takes the length from the four
    bytes at offset 8. *)
Lemma GetDataLengthFromEncryptionHeader_offset_8 (m : list byte)
    (header old : Z) (b0 b1 b2 b3 : byte) :
  header_starts_with_MH01 m header = Some true ->
  read_bytes m (header + 8) 4 = Some [b0; b1; b2; b3] ->
  GetDataLengthFromEncryptionHeader m header old
  = Some (0, read_length (u8 b0) (u8 b1) (u8 b2) (u8 b3)).
Proof.
  intros Hm (Hp & _ & Hlen & Hb)%read_bytes_inv.
  unfold GetDataLengthFromEncryptionHeader. rewrite Hm. simpl.
  destruct (split_at m (header + 8) ltac:(lia)) as (a & l & -> & Ha).
  rewrite Ha, Nat2Z.id, drop_app_length in Hb.
  destruct l as [|c0 [|c1 [|c2 [|c3 l]]]]; try discriminate.
  injection Hb as <- <- <- <-.
  replace (header + 9) with (header + 8 + 1) by lia.
  replace (header + 10) with (header + 8 + 2) by lia.
  replace (header + 11) with (header + 8 + 3) by lia.
  rewrite Ha. rewrite <- (Z.add_0_r (Z.of_nat (length a))) at 1.
  rewrite !load_app_r by lia. reflexivity.
Qed.

(** C6: the header-writer of the encryption kind leaves 16 bytes that start
    with the magic [MH01], hold the tag [21 00 00 00] at offset 4 and the
    4-byte little-endian payload length at offset 8, and end with the sum
    and the XOR of the first 14 bytes; the header-writer of the verification
    kind leaves the same magic and a checksum pair computed in the same way;
    the decoder of the encryption kind reads the length from offset 8. *)
Theorem EncryptionHeader_layout (m : list byte) (buffer imageSize old : Z) :
  0 <= buffer -> buffer + 16 <= Z.of_nat (length m) ->
  exists m' h m'' v,
    CreateAes128CbcEncryptionHeader m buffer imageSize = Some (m', 0)
    /\ read_bytes m' buffer 16 = Some h
    /\ take 4 h = bytes_of_string "MH01"
    /\ take 4 (drop 4 h) = [x21; x00; x00; x00]
    /\ take 4 (drop 8 h) = le32 imageSize
    /\ drop 14 h = [to_u8 (ByteSumXor (take 14 h)).1;
                    to_u8 (ByteSumXor (take 14 h)).2]
    /\ CreateSha512VerificatioinHeader m buffer imageSize = Some (m'', 0)
    /\ read_bytes m'' buffer 16 = Some v
    /\ take 4 v = take 4 h
    /\ drop 14 v = [to_u8 (ByteSumXor (take 14 v)).1;
                    to_u8 (ByteSumXor (take 14 v)).2]
    /\ GetDataLengthFromEncryptionHeader m' buffer old
       = Some (0, read_length (u8 (to_u8 imageSize))
                    (u8 (to_u8 (imageSize / 2 ^ 8)))
                    (u8 (to_u8 (imageSize / 2 ^ 16)))
                    (u8 (to_u8 (imageSize / 2 ^ 24))))
    /\ (0 <= imageSize < 2 ^ 31 ->
        GetDataLengthFromEncryptionHeader m' buffer old
        = Some (0, imageSize)).
Proof.
  intros H0 H1.
  exists (splice m buffer (EncryptionHeader imageSize)),
         (EncryptionHeader imageSize),
         (splice m buffer (VerificationHeader imageSize)),
         (VerificationHeader imageSize).
  split; [apply CreateAes128CbcEncryptionHeader_spec; assumption|].
  split; [apply (read_bytes_splice m buffer (EncryptionHeader imageSize));
          simpl; lia|].
  do 4 (split; [reflexivity|]).
  split; [apply CreateSha512VerificatioinHeader_spec; assumption|].
  split; [apply (read_bytes_splice m buffer (VerificationHeader imageSize));
          simpl; lia|].
  do 2 (split; [reflexivity|]).
  destruct (split_at m buffer ltac:(lia)) as (a & l & -> & ->).
  rewrite splice_app_r, GetDataLengthFromEncryptionHeader_app.
  rewrite read_length_le32.
  split; [reflexivity|].
  intros Hn. rewrite size_t_int_small by assumption. reflexivity.
Qed.

Lemma EncryptionHeader_layout_witness :
  0 <= 2 /\ 2 + 16 <= Z.of_nat (length (replicate 20 x00))
  /\ exists m' h m'' v,
    CreateAes128CbcEncryptionHeader (replicate 20 x00) 2 1328 = Some (m', 0)
    /\ read_bytes m' 2 16 = Some h
    /\ take 4 h = bytes_of_string "MH01"
    /\ take 4 (drop 4 h) = [x21; x00; x00; x00]
    /\ take 4 (drop 8 h) = le32 1328
    /\ drop 14 h = [to_u8 (ByteSumXor (take 14 h)).1;
                    to_u8 (ByteSumXor (take 14 h)).2]
    /\ CreateSha512VerificatioinHeader (replicate 20 x00) 2 1328
       = Some (m'', 0)
    /\ read_bytes m'' 2 16 = Some v
    /\ take 4 v = take 4 h
    /\ drop 14 v = [to_u8 (ByteSumXor (take 14 v)).1;
                    to_u8 (ByteSumXor (take 14 v)).2]
    /\ GetDataLengthFromEncryptionHeader m' 2 7
       = Some (0, read_length (u8 (to_u8 1328))
                    (u8 (to_u8 (1328 / 2 ^ 8)))
                    (u8 (to_u8 (1328 / 2 ^ 16)))
                    (u8 (to_u8 (1328 / 2 ^ 24))))
    /\ (0 <= 1328 < 2 ^ 31 ->
        GetDataLengthFromEncryptionHeader m' 2 7 = Some (0, 1328)).
Proof.
  split; [lia|]. split; [simpl; lia|].
  apply (EncryptionHeader_layout (replicate 20 x00) 2 1328 7);
    simpl; lia.
Defined.

End HeaderCodec.

(** ** The scan for partition headers *)

Lemma memcmp_eq_Some (buf s : list byte) :
  (length s <= length buf)%nat ->
  memcmp_eq buf s = Some (bool_decide (take (length s) buf = s)).
Proof.
  intros Hl. unfold memcmp_eq.
  destruct (Nat.ltb_spec (length buf) (length s)); [lia|reflexivity].
Qed.

Lemma matches_from_bounds (magic : list byte) (k : nat) :
  forall (buf : list byte) (idx p : Z),
    p ∈ matches_from buf magic idx k -> idx <= p < idx + Z.of_nat k.
Proof.
  induction k as [|k IH]; intros buf idx p Hp.
  - destruct buf; simpl in Hp; inversion Hp.
  - destruct buf as [|b buf]; [inversion Hp|].
    cbn [matches_from] in Hp. apply elem_of_app in Hp as [Hp|Hp].
    + destruct (bool_decide _); [|inversion Hp].
      apply list_elem_of_singleton in Hp. lia.
    + apply IH in Hp. lia.
Qed.

(** What the search loop returns: the array filled from slot
    [partitionCount] on with the matches it meets, as long as there is
    room. *)
Lemma search_partitions_spec (magic : list byte) (limit : Z) (k : nat) :
  forall (buf : list byte) (idx : Z) (headerAddresses : list Z)
         (partitionCount : Z),
    0 <= idx -> idx + Z.of_nat k = limit -> limit < 2 ^ 64 ->
    0 <= partitionCount < 16 -> length headerAddresses = 16%nat ->
    (k <= length buf)%nat ->
    ((0 < k)%nat -> (k - 1 + length magic <= length buf)%nat) ->
    let found :=
      take (16 - Z.to_nat partitionCount)
        (matches_from buf magic idx k) in
    search_partitions buf idx limit magic headerAddresses partitionCount
    = Some (take (Z.to_nat partitionCount) headerAddresses ++ found
            ++ drop (Z.to_nat partitionCount + length found)
                 headerAddresses,
            partitionCount + Z.of_nat (length found)).
Proof.
  induction k as [|k IH];
    intros buf idx hA count Hidx Hlim Hmax Hcount HhA Hbuf Hcmp found.
  - assert (Hge : ~ idx < limit) by lia.
    assert (Hnil : matches_from buf magic idx 0 = [])
      by (destruct buf; reflexivity).
    subst found. rewrite Hnil, take_nil. cbn [length app].
    rewrite Nat.add_0_r, take_drop, Z.add_0_r.
    destruct buf; cbn [search_partitions];
      (destruct (Z.ltb_spec idx limit); [lia|reflexivity]).
  - destruct buf as [|b buf]; [simpl in Hbuf; lia|].
    cbn [search_partitions].
    destruct (Z.ltb_spec idx limit) as [_|]; [|lia].
    rewrite memcmp_eq_Some by (simpl in *; lia).
    cbn [mbind option_bind].
    assert (Hsz : size_t (idx + 1) = idx + 1).
    { unfold size_t. apply Z.mod_small. lia. }
    assert (Hnext : forall hA' count',
      0 <= count' < 16 -> length hA' = 16%nat ->
      search_partitions buf (size_t (idx + 1)) limit magic hA' count'
      = Some (take (Z.to_nat count') hA'
              ++ take (16 - Z.to_nat count')
                   (matches_from buf magic (idx + 1) k)
              ++ drop (Z.to_nat count'
                       + length (take (16 - Z.to_nat count')
                                   (matches_from buf magic (idx + 1) k)))
                   hA',
              count' + Z.of_nat (length (take (16 - Z.to_nat count')
                                   (matches_from buf magic (idx + 1) k))))).
    { intros hA' count' Hc' Hl'. rewrite Hsz.
      apply IH; simpl in *; lia. }
    subst found. cbn [matches_from].
    destruct (bool_decide (take (length magic) (b :: buf) = magic)).
    + assert (Hu : uint32_t (count + 1) = count + 1).
      { unfold uint32_t. apply Z.mod_small. lia. }
      rewrite Hu. unfold M32_FIRMWARE_UTIL_MAX_PARTITIONS.
      replace (16 - Z.to_nat count)%nat
        with (S (15 - Z.to_nat count)) by lia.
      cbn [app take]. cbn [length].
      destruct (Z.eqb_spec (count + 1) 16) as [H16|H16].
      * replace (15 - Z.to_nat count)%nat with 0%nat by lia.
        rewrite take_0. cbn [length].
        rewrite insert_take_drop by lia. cbn [app].
        replace (Z.to_nat count + 1)%nat with (S (Z.to_nat count)) by lia.
        reflexivity.
      * rewrite Hnext by (rewrite ?length_insert; lia).
        replace (16 - Z.to_nat (count + 1))%nat
          with (15 - Z.to_nat count)%nat by lia.
        set (M := take (15 - Z.to_nat count)
                    (matches_from buf magic (idx + 1) k)).
        replace (Z.to_nat (count + 1)) with (S (Z.to_nat count)) by lia.
        rewrite take_insert_lt by lia.
        rewrite drop_insert_lt by lia.
        rewrite (take_S_r hA (Z.to_nat count) (default 0 (hA !! Z.to_nat count))).
        2:{ destruct (lookup_lt_is_Some_2 hA (Z.to_nat count) ltac:(lia))
              as [x ->]. reflexivity. }
        rewrite insert_app_r_alt by (rewrite length_take; lia).
        rewrite length_take.
        replace (Z.to_nat count - Z.to_nat count `min` length hA)%nat
          with 0%nat by lia.
        cbn [insert list_insert]. rewrite <- !app_assoc. cbn [app].
        replace (Z.to_nat count + S (length M))%nat
          with (S (Z.to_nat count) + length M)%nat by lia.
        replace (count + Z.of_nat (S (length M)))
          with (count + 1 + Z.of_nat (length M)) by lia.
        reflexivity.
    + cbn [app]. apply Hnext; assumption.
Qed.

Lemma matches_from_filter (buffer magic : list byte) (k : nat) :
  forall i : nat,
    (i + k <= length buffer)%nat ->
    matches_from (drop i buffer) magic (Z.of_nat i) k
    = Z.of_nat <$> filter (magic_at buffer magic) (seq i k).
Proof.
  induction k as [|k IH]; intros i Hi.
  - destruct (drop i buffer); reflexivity.
  - destruct (lookup_lt_is_Some_2 buffer i ltac:(lia)) as [b Hb].
    rewrite (drop_S _ _ _ Hb). cbn [matches_from seq].
    rewrite <- (drop_S _ _ _ Hb).
    replace (Z.of_nat i + 1) with (Z.of_nat (S i)) by lia.
    rewrite IH by lia. rewrite filter_cons.
    unfold magic_at at 2.
    destruct (decide (take (length magic) (drop i buffer) = magic))
      as [Hm|Hm].
    + rewrite bool_decide_eq_true_2 by exact Hm. reflexivity.
    + rewrite bool_decide_eq_false_2 by exact Hm. reflexivity.
Qed.

Lemma filter_below_seq (P : nat -> Prop) `{!forall i, Decision (P i)}
    (k n : nat) :
  (k <= n)%nat ->
  filter (fun i => (i < k)%nat) (filter P (seq 0 n)) = filter P (seq 0 k).
Proof.
  intros Hk. replace n with (k + (n - k))%nat by lia.
  rewrite seq_app, !filter_app.
  assert (Hall : forall l : list nat,
            Forall (fun i => (i < k)%nat) l ->
            filter (fun i => (i < k)%nat) l = l).
  { intros l Hl. induction Hl as [|x l Hx _ IH]; [reflexivity|].
    rewrite filter_cons_True by exact Hx. rewrite IH. reflexivity. }
  assert (Hnone : forall l : list nat,
            Forall (fun i => ~ (i < k)%nat) l ->
            filter (fun i => (i < k)%nat) l = []).
  { intros l Hl. induction Hl as [|x l Hx _ IH]; [reflexivity|].
    rewrite filter_cons_False by exact Hx. exact IH. }
  rewrite Hall, Hnone, app_nil_r; [reflexivity| |].
  - apply Forall_forall. intros i Hi.
    apply list_elem_of_filter in Hi as [_ Hi]. apply elem_of_seq in Hi. lia.
  - apply Forall_forall. intros i Hi.
    apply list_elem_of_filter in Hi as [_ Hi]. apply elem_of_seq in Hi. lia.
Qed.

Lemma scanned_positions_seq (buffer magic : list byte) :
  80 <= Z.of_nat (length buffer) ->
  scanned_positions buffer magic
  = filter (magic_at buffer magic) (seq 0 (length buffer - 80)).
Proof.
  intros Hlen. unfold scanned_positions, magic_positions.
  unfold M32_FIRMWARE_UTIL_FW_HEADER_LENGTH.
  rewrite <- (filter_below_seq (magic_at buffer magic)
                (length buffer - 80) (length buffer)) by lia.
  apply list_filter_iff. intros i. lia.
Qed.

Lemma find_partitions_magic (buffer : list byte)
    (device : M32FirmwareUtilDeviceInfoType) :
  let magic := bytes_of_string (RecoveryHeaderStart device) in
  let found := take 16 (scanned_positions buffer magic) in
  (length magic <= 80)%nat ->
  80 <= Z.of_nat (length buffer) < 2 ^ 63 ->
  find_partitions buffer device
  = Some ((Z.of_nat <$> found) ++ replicate (16 - length found) SIZE_MAX,
          Z.of_nat (length found)).
Proof.
  intros magic found Hmagic Hlen. unfold find_partitions.
  fold magic. unfold M32_FIRMWARE_UTIL_FW_HEADER_LENGTH,
    M32_FIRMWARE_UTIL_MAX_PARTITIONS.
  assert (Hsz : size_t (Z.of_nat (length buffer) - 80)
                = Z.of_nat (length buffer - 80)).
  { unfold size_t. rewrite Z.mod_small; lia. }
  rewrite Hsz.
  rewrite (search_partitions_spec magic (Z.of_nat (length buffer - 80))
             (length buffer - 80)); try lia.
  2:{ rewrite length_replicate. reflexivity. }
  change (Z.to_nat 0) with 0%nat. rewrite Nat.sub_0_r, take_0.
  cbn [app Nat.add].
  pose proof (matches_from_filter buffer magic (length buffer - 80) 0
                ltac:(lia)) as Hm.
  rewrite drop_0 in Hm. change (Z.of_nat 0) with 0 in Hm. rewrite Hm.
  rewrite <- scanned_positions_seq by lia.
  rewrite <- fmap_take. fold found.
  rewrite length_fmap, drop_replicate. reflexivity.
Qed.

Lemma device_magic_length (device : M32FirmwareUtilDeviceInfoType) :
  device ∈ M32FirmwareUtilDeviceInfos ->
  length (bytes_of_string (RecoveryHeaderStart device)) = 12%nat.
Proof.
  unfold M32FirmwareUtilDeviceInfos. rewrite !elem_of_cons.
  intros [->|[->|[->|[->|H]]]]; try reflexivity. inversion H.
Qed.

(** The step that stops the scan: a match found while 15 offsets are
    recorded is recorded as the 16th and ends the loop, whatever follows
    in the buffer. *)
Lemma search_partitions_stops (b : byte) (buf magic : list byte)
    (bufferIndex limit : Z) (headerAddresses : list Z) :
  bufferIndex < limit ->
  memcmp_eq (b :: buf) magic = Some true ->
  search_partitions (b :: buf) bufferIndex limit magic headerAddresses 15
  = Some (<[15%nat := bufferIndex]> headerAddresses, 16).
Proof.
  intros Hlt Hcmp. cbn [search_partitions].
  destruct (Z.ltb_spec bufferIndex limit); [|lia].
  rewrite Hcmp. reflexivity.
Qed.

(** C9, as the code has it: the scan records the first [min 16 total]
    occurrences of the magic among the offsets below [st_size - 80], in
    ascending order, leaves the other slots at [SIZE_MAX], and a 16th
    recorded match ends the loop. *)
Theorem scan_records_first_16 (buffer : list byte)
    (device : M32FirmwareUtilDeviceInfoType) :
  device ∈ M32FirmwareUtilDeviceInfos ->
  80 <= Z.of_nat (length buffer) < 2 ^ 63 ->
  find_partitions buffer device
  = Some ((Z.of_nat
             <$> take 16
                   (scanned_positions buffer
                      (bytes_of_string (RecoveryHeaderStart device))))
          ++ replicate
               (16 - (16 `min` length
                              (scanned_positions buffer
                                 (bytes_of_string
                                    (RecoveryHeaderStart device)))))
               SIZE_MAX,
          Z.of_nat
            (16 `min` length
                        (scanned_positions buffer
                           (bytes_of_string (RecoveryHeaderStart device)))))
  /\ forall b buf bufferIndex limit headerAddresses,
       bufferIndex < limit ->
       memcmp_eq (b :: buf) (bytes_of_string (RecoveryHeaderStart device))
       = Some true ->
       search_partitions (b :: buf) bufferIndex limit
         (bytes_of_string (RecoveryHeaderStart device)) headerAddresses 15
       = Some (<[15%nat := bufferIndex]> headerAddresses, 16).
Proof.
  intros Hdev Hlen. split.
  - rewrite find_partitions_magic
      by (rewrite ?(device_magic_length device Hdev); lia).
    rewrite length_take. reflexivity.
  - intros. apply search_partitions_stops; assumption.
Qed.

Lemma scan_records_first_16_witness :
  Toy.M32 ∈ M32FirmwareUtilDeviceInfos
  /\ 80 <= Z.of_nat (length image_seventeen_partitions) < 2 ^ 63
  /\ find_partitions image_seventeen_partitions Toy.M32
     = Some ((Z.of_nat
                <$> take 16
                      (scanned_positions image_seventeen_partitions
                         (bytes_of_string (RecoveryHeaderStart Toy.M32))))
             ++ replicate
                  (16 - (16 `min` length
                                 (scanned_positions
                                    image_seventeen_partitions
                                    (bytes_of_string
                                       (RecoveryHeaderStart Toy.M32)))))
                  SIZE_MAX,
             Z.of_nat
               (16 `min` length
                           (scanned_positions image_seventeen_partitions
                              (bytes_of_string
                                 (RecoveryHeaderStart Toy.M32)))))
  /\ forall b buf bufferIndex limit headerAddresses,
       bufferIndex < limit ->
       memcmp_eq (b :: buf) (bytes_of_string (RecoveryHeaderStart Toy.M32))
       = Some true ->
       search_partitions (b :: buf) bufferIndex limit
         (bytes_of_string (RecoveryHeaderStart Toy.M32)) headerAddresses 15
       = Some (<[15%nat := bufferIndex]> headerAddresses, 16).
Proof.
  assert (Hdev : Toy.M32 ∈ M32FirmwareUtilDeviceInfos)
    by (unfold M32FirmwareUtilDeviceInfos; rewrite !elem_of_cons;
        right; left; reflexivity).
  assert (Hsize : length image_seventeen_partitions = 1700%nat)
    by (vm_compute; reflexivity).
  assert (Hlen : 80 <= Z.of_nat (length image_seventeen_partitions) < 2 ^ 63)
    by (rewrite Hsize; lia).
  split; [exact Hdev|]. split; [exact Hlen|].
  exact (scan_records_first_16 image_seventeen_partitions Toy.M32
           Hdev Hlen).
Defined.

(** Of the seventeen occurrences the scan records the first sixteen. *)
Example scan_of_seventeen_partitions :
  scanned_positions image_seventeen_partitions
    (bytes_of_string (RecoveryHeaderStart Toy.M32))
  = (fun k => 100 * k)%nat <$> seq 0 17
  /\ find_partitions image_seventeen_partitions Toy.M32
     = Some (Z.of_nat <$> ((fun k => 100 * k)%nat <$> seq 0 16), 16).
Proof. split; vm_compute; reflexivity. Qed.

(** C9 as stated fails: the only occurrence of the magic in
    [image_with_late_magic] is at offset 80 of 92 bytes, which the scan
    never inspects, so nothing is recorded. *)
Lemma scan_misses_late_magic :
  ~ (exists headerAddresses partitionCount,
       find_partitions image_with_late_magic Toy.M32
       = Some (headerAddresses, partitionCount)
       /\ take (Z.to_nat partitionCount) headerAddresses
          = Z.of_nat
              <$> take 16
                    (magic_positions image_with_late_magic
                       (bytes_of_string (RecoveryHeaderStart Toy.M32)))).
Proof.
  intros (hA & count & Hfind & Htake).
  vm_compute in Hfind. injection Hfind as <- <-.
  vm_compute in Htake. discriminate.
Qed.

(** ** One pass over a partition *)

Lemma Caclulate16BitSum_step_range (sum : Z) (b0 b1 : byte) :
  0 <= Caclulate16BitSum_step sum b0 b1 < 65536.
Proof.
  unfold Caclulate16BitSum_step, uint16_t. change (2 ^ 16) with 65536.
  destruct (_ <? _); apply Z.mod_pos_bound; lia.
Qed.

Lemma Caclulate16BitSum_loop_range (bufferLength : Z) (buf : list byte) :
  forall (i sum v : Z),
    0 <= sum < 65536 ->
    Caclulate16BitSum_loop buf i bufferLength sum = Some v ->
    0 <= v < 65536.
Proof.
  induction buf as [buf IH] using (induction_ltof1 _ (@length byte)).
  unfold ltof in IH. intros i sum v Hs.
  destruct buf as [|b0 [|b1 buf]]; cbn [Caclulate16BitSum_loop];
    destruct (i <? bufferLength); try discriminate;
    try (intros [= <-]; exact Hs).
  destruct (INT_MAX <? i + 2); [discriminate|].
  apply IH; [simpl; lia|apply Caclulate16BitSum_step_range].
Qed.

(** A run of the loop that ends has stayed inside the buffer and below
    [INT_MAX]. *)
Lemma Caclulate16BitSum_loop_inv (bufferLength : Z) (buf : list byte) :
  forall (i sum v : Z),
    Caclulate16BitSum_loop buf i bufferLength sum = Some v ->
    i <= bufferLength -> i <= INT_MAX ->
    (2 * Z.to_nat ((bufferLength - i + 1) / 2) <= length buf)%nat
    /\ i + 2 * ((bufferLength - i + 1) / 2) <= INT_MAX.
Proof.
  induction buf as [buf IH] using (induction_ltof1 _ (@length byte)).
  unfold ltof in IH. intros i sum v Hloop Hi Hmax0.
  destruct (Z.eq_dec i bufferLength) as [->|Hne].
  { replace ((bufferLength - bufferLength + 1) / 2) with 0 by lia.
    simpl. lia. }
  destruct buf as [|b0 [|b1 buf]]; cbn [Caclulate16BitSum_loop] in Hloop;
    destruct (Z.ltb_spec i bufferLength); try lia; try discriminate.
  destruct (Z.ltb_spec INT_MAX (i + 2)) as [|Hmax]; [discriminate|].
  destruct (Z.le_gt_cases (i + 2) bufferLength) as [Hle|Hgt].
  - apply IH in Hloop; [|simpl; lia|lia|lia].
    destruct Hloop as [H1 H2].
    replace ((bufferLength - i + 1) / 2)
      with ((bufferLength - (i + 2) + 1) / 2 + 1) by lia.
    simpl length. lia.
  - replace ((bufferLength - i + 1) / 2) with 1 by lia.
    simpl length. lia.
Qed.

Lemma Caclulate16BitSum_value_inv (m : list byte)
    (buffer bufferLength v : Z) (inverted : bool) :
  0 <= bufferLength ->
  Caclulate16BitSum_value m buffer bufferLength inverted = Some v ->
  bufferLength <= INT_MAX - 1
  /\ (bytes_read bufferLength <= length (view m buffer))%nat
  /\ v = Sum16Carry (take (bytes_read bufferLength) (view m buffer)) inverted.
Proof.
  intros Hlen Hv.
  assert (Hb : bufferLength <= INT_MAX - 1
               /\ (bytes_read bufferLength <= length (view m buffer))%nat).
  { unfold Caclulate16BitSum_value in Hv.
    destruct (Caclulate16BitSum_loop (view m buffer) 0 bufferLength 0)
      as [s|] eqn:Hloop; [|discriminate].
    apply Caclulate16BitSum_loop_inv in Hloop; [|lia|unfold INT_MAX; lia].
    unfold bytes_read. rewrite Z.sub_0_r in Hloop. unfold INT_MAX in *.
    lia. }
  destruct Hb as [Hb1 Hb2]. split; [exact Hb1|]. split; [exact Hb2|].
  rewrite Caclulate16BitSum_value_spec in Hv by (unfold INT_MAX in *; lia).
  congruence.
Qed.

Lemma splice_same (m : list byte) (p : Z) (n : nat) :
  0 <= p -> p + Z.of_nat n <= Z.of_nat (length m) ->
  splice m p (take n (drop (Z.to_nat p) m)) = m.
Proof.
  intros H0 H1. unfold splice.
  rewrite length_take, length_drop.
  replace (n `min` (length m - Z.to_nat p))%nat with n by lia.
  rewrite <- drop_drop, take_drop, take_drop. reflexivity.
Qed.

Lemma store_splice (m : list byte) (p v : Z) :
  0 <= p < Z.of_nat (length m) ->
  store m p v = Some (splice m p [to_u8 v]).
Proof.
  intros Hp. rewrite store_Some by lia. f_equal.
  rewrite insert_take_drop by lia. unfold splice. simpl.
  replace (Z.to_nat p + 1)%nat with (S (Z.to_nat p)) by lia. reflexivity.
Qed.

Lemma splice_splice_next (m : list byte) (p : Z) (s1 s2 : list byte) :
  0 <= p ->
  p + Z.of_nat (length s1) + Z.of_nat (length s2) <= Z.of_nat (length m) ->
  splice (splice m p s1) (p + Z.of_nat (length s1)) s2
  = splice m p (s1 ++ s2).
Proof.
  intros H0 H1.
  destruct (split_at m p ltac:(lia)) as (a & l & -> & ->).
  rewrite !splice_app_r.
  replace (Z.of_nat (length a) + Z.of_nat (length s1))
    with (Z.of_nat (length (a ++ s1))) by (rewrite length_app; lia).
  rewrite (app_assoc a s1), splice_app_r, <- app_assoc.
  rewrite drop_drop, length_app, <- !app_assoc. reflexivity.
Qed.

Lemma Caclulate16BitSum_value_range (m : list byte)
    (buffer bufferLength v : Z) (inverted : bool) :
  Caclulate16BitSum_value m buffer bufferLength inverted = Some v ->
  0 <= v < 65536.
Proof.
  unfold Caclulate16BitSum_value.
  destruct (Caclulate16BitSum_loop (view m buffer) 0 bufferLength 0)
    as [s|] eqn:Hloop; [|discriminate].
  apply Caclulate16BitSum_loop_range in Hloop; [|lia].
  simpl. intros [= <-]. destruct inverted; [|exact Hloop].
  unfold uint16_t. change (2 ^ 16) with 65536. lia.
Qed.

Lemma le16_bytes (c0 c1 : byte) : le16 (u8 c0 + 256 * u8 c1) = [c0; c1].
Proof.
  unfold le16. pose proof (u8_range c0). pose proof (u8_range c1).
  f_equal; [|f_equal]; apply u8_inj; rewrite u8_to_u8;
    change (2 ^ 8) with 256; lia.
Qed.

(** [Caclulate16BitSum] is the splice of the value, low byte first, at
    [checksumBuffer]. *)
Lemma Caclulate16BitSum_splice (m : list byte)
    (buffer bufferLength checksumBuffer : Z) (inverted : bool) :
  0 <= checksumBuffer -> checksumBuffer + 2 <= Z.of_nat (length m) ->
  Caclulate16BitSum m buffer bufferLength checksumBuffer inverted
  = (v ← Caclulate16BitSum_value m buffer bufferLength inverted;
     Some (splice m checksumBuffer (le16 v))).
Proof.
  intros H0 H1. unfold Caclulate16BitSum.
  destruct (Caclulate16BitSum_value m buffer bufferLength inverted)
    as [v|] eqn:Hv.
  2:{ destruct (load m checksumBuffer); [|reflexivity].
      destruct (load m (checksumBuffer + 1)); reflexivity. }
  pose proof (Caclulate16BitSum_value_range _ _ _ _ _ Hv) as Hr.
  clear Hv.
  destruct (split_at m checksumBuffer ltac:(lia)) as (a & l & -> & ->).
  rewrite length_app in H1.
  destruct l as [|c0 [|c1 rest]]; simpl in H1; try lia.
  rewrite <- (Z.add_0_r (Z.of_nat (length a))) at 1.
  rewrite !load_app_r by lia.
  change ((c0 :: c1 :: rest) !! Z.to_nat 0) with (Some c0).
  change ((c0 :: c1 :: rest) !! Z.to_nat 1) with (Some c1).
  cbn [fmap option_fmap option_map mbind option_bind].
  rewrite word_value. rewrite splice_app_r.
  pose proof (u8_range c0). pose proof (u8_range c1).
  destruct (Z.eqb_spec v (u8 c0 + 256 * u8 c1)) as [->|Hne];
    cbn [negb].
  - rewrite le16_bytes. reflexivity.
  - rewrite <- (Z.add_0_r (Z.of_nat (length a))) at 1.
    rewrite store_app_r by (simpl; lia).
    cbn [mbind option_bind Z.to_nat insert list_insert].
    rewrite store_app_r by (simpl; lia).
    change (Z.to_nat 1) with 1%nat.
    cbn [insert list_insert mbind option_bind]. unfold le16.
    rewrite shiftr_land_255, land_255 by lia. reflexivity.
Qed.

Lemma read_length_bytes (b0 b1 b2 b3 : byte) (n : Z) :
  read_length (u8 b0) (u8 b1) (u8 b2) (u8 b3) = n ->
  le32 n = [b0; b1; b2; b3].
Proof.
  intros <-. unfold read_length, le32.
  pose proof (u8_range b0). pose proof (u8_range b1).
  pose proof (u8_range b2). pose proof (u8_range b3).
  rewrite (lor_shiftl _ _ 8) by lia.
  rewrite (lor_shiftl _ _ 16) by lia.
  rewrite (lor_shiftl _ _ 24) by lia.
  unfold size_t, int.
  change (2 ^ 8) with 256. change (2 ^ 16) with 65536.
  change (2 ^ 24) with 16777216. change (2 ^ 31) with 2147483648.
  change (2 ^ 32) with 4294967296.
  change (2 ^ 64) with 18446744073709551616.
  f_equal; [|f_equal; [|f_equal; [|f_equal]]]; apply u8_inj;
    rewrite u8_to_u8; lia.
Qed.

Lemma splice_app_mid (pre w post : list byte) (k : Z) (src : list byte) :
  0 <= k -> k + Z.of_nat (length src) <= Z.of_nat (length w) ->
  splice (pre ++ w ++ post) (Z.of_nat (length pre) + k) src
  = pre ++ splice w k src ++ post.
Proof.
  intros H0 H1.
  destruct (split_at w k ltac:(lia)) as (w1 & w2 & -> & ->).
  rewrite length_app in H1.
  replace (Z.of_nat (length pre) + Z.of_nat (length w1))
    with (Z.of_nat (length (pre ++ w1))) by (rewrite length_app; lia).
  replace (pre ++ (w1 ++ w2) ++ post) with ((pre ++ w1) ++ w2 ++ post)
    by (rewrite <- !app_assoc; reflexivity).
  rewrite !splice_app_r, drop_app_le by lia.
  rewrite <- !app_assoc. reflexivity.
Qed.

Lemma length_splice_eq (m : list byte) (p : Z) (src : list byte) :
  0 <= p -> p + Z.of_nat (length src) <= Z.of_nat (length m) ->
  Z.of_nat (length (splice m p src)) = Z.of_nat (length m).
Proof. intros. rewrite length_splice by lia. reflexivity. Qed.

(** The four bytes of the length field after the comparison with the
    computed length and the conditional stores. *)
Lemma update_length_spec (m : list byte) (o partitionLength : Z)
    (next : list byte -> option (list byte)) :
  0 <= o -> o + 4 <= Z.of_nat (length m) ->
  (b0 ← load m o;
   b1 ← load m (o + 1);
   b2 ← load m (o + 2);
   b3 ← load m (o + 3);
   buffer ←
     (if negb (read_length b0 b1 b2 b3 =? partitionLength) then
        buffer ← store m o (Z.land partitionLength 0xFF);
        buffer ← store buffer (o + 1)
                   (Z.land (Z.shiftr partitionLength 8) 0xFF);
        buffer ← store buffer (o + 2)
                   (Z.land (Z.shiftr partitionLength 16) 0xFF);
        store buffer (o + 3) (Z.land (Z.shiftr partitionLength 24) 0xFF)
      else Some m);
   next buffer)
  = next (splice m o (le32 partitionLength)).
Proof.
  intros H0 H1.
  destruct (split_at m o ltac:(lia)) as (a & l & -> & ->).
  rewrite length_app in H1.
  destruct l as [|c0 [|c1 [|c2 [|c3 rest]]]]; simpl in H1; try lia.
  rewrite <- (Z.add_0_r (Z.of_nat (length a))) at 1.
  rewrite !load_app_r by lia.
  change ((c0 :: c1 :: c2 :: c3 :: rest) !! Z.to_nat 0) with (Some c0).
  change ((c0 :: c1 :: c2 :: c3 :: rest) !! Z.to_nat 1) with (Some c1).
  change ((c0 :: c1 :: c2 :: c3 :: rest) !! Z.to_nat 2) with (Some c2).
  change ((c0 :: c1 :: c2 :: c3 :: rest) !! Z.to_nat 3) with (Some c3).
  cbn [fmap option_fmap option_map mbind option_bind].
  rewrite splice_app_r.
  destruct (Z.eqb_spec (read_length (u8 c0) (u8 c1) (u8 c2) (u8 c3))
              partitionLength) as [He|Hne]; cbn [negb].
  - rewrite (read_length_bytes _ _ _ _ _ He). reflexivity.
  - rewrite <- (Z.add_0_r (Z.of_nat (length a))) at 1.
    rewrite store_app_r by (simpl; lia).
    cbn [mbind option_bind].
    rewrite store_app_r by (simpl; lia).
    cbn [mbind option_bind].
    rewrite store_app_r by (simpl; lia).
    cbn [mbind option_bind].
    rewrite store_app_r by (simpl; lia).
    change (Z.to_nat 0) with 0%nat. change (Z.to_nat 1) with 1%nat.
    change (Z.to_nat 2) with 2%nat. change (Z.to_nat 3) with 3%nat.
    cbn [insert list_insert]. unfold le32.
    rewrite !shiftr_land_255, land_255 by lia. reflexivity.
Qed.

Lemma length_update_header (header : list byte) (partitionLength v : Z) :
  length header = 80%nat ->
  length (update_header header partitionLength v) = 80%nat.
Proof.
  intros Hh. unfold update_header.
  unfold M32_FIRMWARE_UTIL_FW_DATA_LENGTH_OFFSET,
    CHECKUM_PATCHER_DATA_CHECKSUM_OFFSET,
    CHECKUM_PATCHER_HEADER_CHECKSUM_OFFSET,
    M32_FIRMWARE_UTIL_FW_HEADER_LENGTH.
  change (80 - 2) with 78.
  set (h1 := splice header 44 (le32 partitionLength)).
  assert (Hh1 : length h1 = 80%nat)
    by (unfold h1; rewrite length_splice; simpl; lia).
  set (h2 := splice h1 14 (le16 v)).
  assert (Hh2 : length h2 = 80%nat)
    by (unfold h2; rewrite length_splice; simpl; lia).
  rewrite length_splice; simpl; lia.
Qed.

(** One pass over a partition whose header is the segment [header] of the
    buffer: the pass is defined when the data checksum loop is, and then
    rewrites the header only. *)
Lemma update_partition_spec (st_size : Z) (headerAddresses : list Z)
    (pre header post : list byte) (partition : Z) :
  headerAddresses !! Z.to_nat partition = Some (Z.of_nat (length pre)) ->
  length header = 80%nat ->
  update_partition st_size headerAddresses (pre ++ header ++ post) partition
  = (dataChecksum ←
       Caclulate16BitSum_loop post 0
         (partition_length st_size headerAddresses partition) 0;
     Some (pre
           ++ update_header header
                (partition_length st_size headerAddresses partition)
                dataChecksum
           ++ post)).
Proof.
  intros Ha Hh. unfold update_partition. rewrite Ha.
  cbn [mbind option_bind]. cbv zeta.
  assert (HL : forall x,
    size_t
      ((if (partition + 1 <? M32_FIRMWARE_UTIL_MAX_PARTITIONS)
           && negb (default SIZE_MAX
                      (headerAddresses !! Z.to_nat (partition + 1))
                    =? SIZE_MAX)
        then size_t (default SIZE_MAX
                       (headerAddresses !! Z.to_nat (partition + 1))
                     - Z.of_nat (length pre))
        else size_t (st_size - Z.of_nat (length pre)))
       - M32_FIRMWARE_UTIL_FW_HEADER_LENGTH) = x ->
    partition_length st_size headerAddresses partition = x).
  { intros x <-. unfold partition_length. rewrite Ha. reflexivity. }
  rewrite <- (HL _ eq_refl). clear HL.
  set (L := partition_length st_size headerAddresses partition).
  unfold M32_FIRMWARE_UTIL_FW_DATA_LENGTH_OFFSET,
    CHECKUM_PATCHER_DATA_CHECKSUM_OFFSET,
    CHECKUM_PATCHER_HEADER_CHECKSUM_OFFSET,
    M32_FIRMWARE_UTIL_FW_HEADER_LENGTH.
  change (80 - 2) with 78.
  rewrite update_length_spec by (rewrite ?length_app; lia).
  rewrite (splice_app_mid pre header post 44) by (simpl; lia).
  set (h1 := splice header 44 (le32 L)).
  assert (Hh1 : length h1 = 80%nat)
    by (unfold h1; rewrite length_splice; simpl; lia).
  rewrite Caclulate16BitSum_splice by (rewrite ?length_app; lia).
  unfold Caclulate16BitSum_value at 1.
  assert (Hview : view (pre ++ h1 ++ post) (Z.of_nat (length pre) + 80)
                  = post).
  { unfold view.
    replace (Z.to_nat (Z.of_nat (length pre) + 80))
      with (length pre + 80)%nat by lia.
    rewrite drop_app_add, <- Hh1, drop_app_length. reflexivity. }
  rewrite Hview.
  destruct (Caclulate16BitSum_loop post 0 L 0) as [v|]; [|reflexivity].
  cbn [mbind option_bind].
  rewrite (splice_app_mid pre h1 post 14) by (simpl; lia).
  set (h2 := splice h1 14 (le16 v)).
  assert (Hh2 : length h2 = 80%nat)
    by (unfold h2; rewrite length_splice; simpl; lia).
  rewrite Caclulate16BitSum_splice by (rewrite ?length_app; lia).
  rewrite Caclulate16BitSum_value_spec.
  2:{ unfold INT_MAX. lia. }
  2:{ unfold view. rewrite Nat2Z.id, drop_app_length, length_app.
      unfold bytes_read. simpl. lia. }
  cbn [mbind option_bind].
  rewrite (splice_app_mid pre h2 post 78) by (simpl; lia).
  unfold view. rewrite Nat2Z.id, drop_app_length.
  change (bytes_read 78) with 78%nat.
  rewrite take_app_le by lia.
  reflexivity.
Qed.

(** ** The rewritten header *)

Lemma le_words_app (h tail : list byte) :
  Nat.Even (length h) -> le_words (h ++ tail) = le_words h ++ le_words tail.
Proof.
  induction h as [h IH] using (induction_ltof1 _ (@length byte)).
  unfold ltof in IH. intros Hev.
  destruct h as [|b0 [|b1 h]].
  - reflexivity.
  - destruct Hev as [k Hk]. simpl in Hk. lia.
  - cbn [app le_words]. rewrite IH; [reflexivity|simpl; lia|].
    destruct Hev as [k Hk]. exists (k - 1)%nat. simpl in Hk. lia.
Qed.

Lemma Sum16Carry_words_app (ws1 ws2 : list Z) (sum : Z) :
  Sum16Carry_words (ws1 ++ ws2) sum
  = Sum16Carry_words ws2 (Sum16Carry_words ws1 sum).
Proof.
  revert sum. induction ws1 as [|w ws1 IH]; intros sum; [reflexivity|].
  simpl. apply IH.
Qed.

Lemma le_words_le16 (v : Z) : 0 <= v < 65536 -> le_words (le16 v) = [v].
Proof.
  intros Hv. unfold le16. cbn [le_words]. rewrite !u8_to_u8.
  change (2 ^ 8) with 256. f_equal. lia.
Qed.

(** The sum of a buffer followed by its inverted sum is [0xFFFF]. *)
Lemma Sum16Carry_with_inverted (h : list byte) :
  Nat.Even (length h) ->
  Sum16Carry (h ++ le16 (Sum16Carry h true)) false = 0xFFFF.
Proof.
  intros Hev. unfold Sum16Carry at 1.
  rewrite le_words_app by exact Hev.
  rewrite le_words_le16 by apply Sum16Carry_range.
  rewrite Sum16Carry_words_app. unfold Sum16Carry.
  pose proof (Sum16Carry_words_range (le_words h) 0 ltac:(lia)
                (le_words_range _)) as Hr.
  set (s := Sum16Carry_words (le_words h) 0) in *.
  cbn [Sum16Carry_words].
  replace (s + (65535 - s)) with 65535 by lia.
  change (65535 mod 65536) with 65535.
  destruct (Z.ltb_spec 65535 (65535 - s)); [lia|reflexivity].
Qed.

Lemma update_header_shape (header : list byte) (partitionLength v : Z) :
  length header = 80%nat ->
  exists h78,
    length h78 = 78%nat
    /\ update_header header partitionLength v
       = h78 ++ le16 (Sum16Carry h78 true).
Proof.
  intros Hh. unfold update_header.
  unfold M32_FIRMWARE_UTIL_FW_DATA_LENGTH_OFFSET,
    CHECKUM_PATCHER_DATA_CHECKSUM_OFFSET,
    CHECKUM_PATCHER_HEADER_CHECKSUM_OFFSET,
    M32_FIRMWARE_UTIL_FW_HEADER_LENGTH.
  change (80 - 2) with 78.
  set (h1 := splice header 44 (le32 partitionLength)).
  assert (Hh1 : length h1 = 80%nat)
    by (unfold h1; rewrite length_splice; simpl; lia).
  set (h2 := splice h1 14 (le16 v)).
  assert (Hh2 : length h2 = 80%nat)
    by (unfold h2; rewrite length_splice; simpl; lia).
  exists (take 78 h2). split; [rewrite length_take; lia|].
  unfold splice at 1. change (Z.to_nat 78) with 78%nat.
  rewrite (drop_ge h2) by (simpl; lia). rewrite app_nil_r. reflexivity.
Qed.

(** C2 for one header: the 80 bytes that a pass leaves sum to [0xFFFF]. *)
Lemma update_header_sum (header : list byte) (partitionLength v : Z) :
  length header = 80%nat ->
  Sum16Carry (update_header header partitionLength v) false = 0xFFFF.
Proof.
  intros Hh.
  destruct (update_header_shape header partitionLength v Hh)
    as (h78 & Hlen & ->).
  apply Sum16Carry_with_inverted. rewrite Hlen. exists 39%nat. reflexivity.
Qed.

Lemma list_80 (l : list byte) :
  length l = 80%nat ->
  exists h14 c0 c1 h28 l0 l1 l2 l3 h30 k0 k1,
    l = h14 ++ c0 :: c1 :: h28 ++ l0 :: l1 :: l2 :: l3 :: h30 ++ [k0; k1]
    /\ length h14 = 14%nat /\ length h28 = 28%nat /\ length h30 = 30%nat.
Proof.
  intros Hl.
  exists (take 14 l).
  destruct (drop 14 l) as [|c0 [|c1 r1]] eqn:E1;
    try (apply (f_equal length) in E1; rewrite length_drop in E1;
         simpl in E1; lia).
  exists c0, c1, (take 28 r1).
  assert (Hr1 : length r1 = 64%nat).
  { apply (f_equal length) in E1. rewrite length_drop in E1.
    simpl in E1. lia. }
  destruct (drop 28 r1) as [|l0 [|l1 [|l2 [|l3 r2]]]] eqn:E2;
    try (apply (f_equal length) in E2; rewrite length_drop in E2;
         simpl in E2; lia).
  exists l0, l1, l2, l3, (take 30 r2).
  assert (Hr2 : length r2 = 32%nat).
  { apply (f_equal length) in E2. rewrite length_drop in E2.
    simpl in E2. lia. }
  destruct (drop 30 r2) as [|k0 [|k1 [|? ?]]] eqn:E3;
    try (apply (f_equal length) in E3; rewrite length_drop in E3;
         simpl in E3; lia).
  exists k0, k1.
  rewrite !length_take. split; [|lia].
  rewrite <- E3, take_drop, <- E2, take_drop, <- E1, take_drop.
  reflexivity.
Qed.

(** The header after a pass, field by field. *)
Lemma update_header_fields (h14 h28 h30 : list byte)
    (c0 c1 l0 l1 l2 l3 k0 k1 : byte) (partitionLength v : Z) :
  length h14 = 14%nat -> length h28 = 28%nat -> length h30 = 30%nat ->
  update_header
    (h14 ++ c0 :: c1 :: h28 ++ l0 :: l1 :: l2 :: l3 :: h30 ++ [k0; k1])
    partitionLength v
  = h14 ++ le16 v ++ h28 ++ le32 partitionLength ++ h30
    ++ le16 (Sum16Carry
               (h14 ++ le16 v ++ h28 ++ le32 partitionLength ++ h30) true).
Proof.
  intros H14 H28 H30. unfold update_header.
  unfold M32_FIRMWARE_UTIL_FW_DATA_LENGTH_OFFSET,
    CHECKUM_PATCHER_DATA_CHECKSUM_OFFSET,
    CHECKUM_PATCHER_HEADER_CHECKSUM_OFFSET,
    M32_FIRMWARE_UTIL_FW_HEADER_LENGTH.
  change (80 - 2) with 78.
  assert (E1 : splice
                 (h14 ++ c0 :: c1 :: h28 ++ l0 :: l1 :: l2 :: l3 :: h30
                  ++ [k0; k1]) 44 (le32 partitionLength)
               = h14 ++ c0 :: c1 :: h28 ++ le32 partitionLength ++ h30
                 ++ [k0; k1]).
  { replace (h14 ++ c0 :: c1 :: h28 ++ l0 :: l1 :: l2 :: l3 :: h30
             ++ [k0; k1])
      with ((h14 ++ c0 :: c1 :: h28) ++ [l0; l1; l2; l3] ++ h30 ++ [k0; k1])
      by (rewrite <- !app_assoc; reflexivity).
    rewrite splice_segment;
      [rewrite <- !app_assoc; reflexivity
      |rewrite length_app; simpl; lia|reflexivity]. }
  rewrite E1.
  assert (E2 : splice
                 (h14 ++ c0 :: c1 :: h28 ++ le32 partitionLength ++ h30
                  ++ [k0; k1]) 14 (le16 v)
               = h14 ++ le16 v ++ h28 ++ le32 partitionLength ++ h30
                 ++ [k0; k1]).
  { replace (h14 ++ c0 :: c1 :: h28 ++ le32 partitionLength ++ h30
             ++ [k0; k1])
      with (h14 ++ [c0; c1] ++ h28 ++ le32 partitionLength ++ h30
            ++ [k0; k1]) by reflexivity.
    rewrite splice_segment; [reflexivity|lia|reflexivity]. }
  rewrite E2.
  set (h78 := h14 ++ le16 v ++ h28 ++ le32 partitionLength ++ h30).
  assert (E3 : h14 ++ le16 v ++ h28 ++ le32 partitionLength ++ h30
               ++ [k0; k1] = h78 ++ [k0; k1])
    by (unfold h78; rewrite <- !app_assoc; reflexivity).
  rewrite E3.
  assert (H78 : length h78 = 78%nat)
    by (unfold h78; rewrite !length_app; simpl; lia).
  change (Z.to_nat 78) with 78%nat.
  rewrite take_app_length' by (symmetry; exact H78).
  rewrite <- (app_nil_r [k0; k1]).
  rewrite splice_segment; [|lia|reflexivity].
  rewrite app_nil_r. unfold h78. rewrite <- !app_assoc. reflexivity.
Qed.

Lemma update_header_idempotent (header : list byte)
    (partitionLength v : Z) :
  length header = 80%nat ->
  update_header (update_header header partitionLength v) partitionLength v
  = update_header header partitionLength v.
Proof.
  intros Hh.
  destruct (list_80 header Hh)
    as (h14 & c0 & c1 & h28 & l0 & l1 & l2 & l3 & h30 & k0 & k1
        & -> & H14 & H28 & H30).
  rewrite update_header_fields by assumption.
  unfold le16 at 1 2. unfold le32 at 1 2.
  cbn [app].
  rewrite update_header_fields by assumption.
  reflexivity.
Qed.

Lemma update_header_take_14 (header : list byte) (partitionLength v : Z) :
  length header = 80%nat ->
  take 14 (update_header header partitionLength v) = take 14 header.
Proof.
  intros Hh.
  destruct (list_80 header Hh)
    as (h14 & c0 & c1 & h28 & l0 & l1 & l2 & l3 & h30 & k0 & k1
        & -> & H14 & H28 & H30).
  rewrite update_header_fields by assumption.
  rewrite !take_app_length' by (symmetry; exact H14). reflexivity.
Qed.

(** ** The loop over the partitions *)

Lemma header_addresses_lookup (found : list nat) (k a : nat) :
  found !! k = Some a -> header_addresses found !! k = Some (Z.of_nat a).
Proof.
  intros Hk. unfold header_addresses.
  rewrite lookup_app_l by (rewrite length_fmap; eapply lookup_lt_Some, Hk).
  rewrite list_lookup_fmap, Hk. reflexivity.
Qed.

Lemma header_addresses_lookup_none (found : list nat) (k : nat) :
  found !! k = None ->
  default SIZE_MAX (header_addresses found !! k) = SIZE_MAX.
Proof.
  intros Hk. apply lookup_ge_None in Hk. unfold header_addresses.
  rewrite lookup_app_r by (rewrite length_fmap; lia).
  destruct (replicate _ _ !! _) as [x|] eqn:E; [|reflexivity].
  apply lookup_replicate in E as [-> _]. reflexivity.
Qed.

Lemma partition_end_bounds (st_size : Z) (found : list nat) (k a : nat) :
  recorded st_size found -> found !! k = Some a ->
  Z.of_nat a < partition_end st_size found k <= st_size.
Proof.
  intros (Hlen & Hlt & Hasc) Hk. unfold partition_end.
  destruct (found !! S k) as [next|] eqn:E.
  - specialize (Hasc _ _ _ Hk E). specialize (Hlt _ _ E). lia.
  - specialize (Hlt _ _ Hk). lia.
Qed.

Lemma partition_length_recorded (st_size : Z) (found : list nat)
    (k a : nat) :
  recorded st_size found -> st_size < 2 ^ 63 -> found !! k = Some a ->
  partition_length st_size (header_addresses found) (Z.of_nat k)
  = size_t (partition_end st_size found k - Z.of_nat a - 80).
Proof.
  intros Hrec Hsz Hk.
  pose proof (partition_end_bounds _ _ _ _ Hrec Hk) as Hend.
  destruct Hrec as (Hlen & Hlt & Hasc).
  unfold partition_length. rewrite Nat2Z.id.
  rewrite (header_addresses_lookup _ _ _ Hk). cbn [default from_option id].
  replace (Z.to_nat (Z.of_nat k + 1)) with (S k) by lia.
  unfold M32_FIRMWARE_UTIL_MAX_PARTITIONS,
    M32_FIRMWARE_UTIL_FW_HEADER_LENGTH.
  unfold partition_end in *.
  assert (Hs : forall z, 0 <= z < 2 ^ 64 -> size_t z = z)
    by (intros z Hz; unfold size_t; apply Z.mod_small; exact Hz).
  destruct (found !! S k) as [next|] eqn:E.
  - rewrite (header_addresses_lookup _ _ _ E). cbn [default from_option id].
    specialize (Hlt _ _ E).
    assert (HS : (S k < 16)%nat).
    { apply lookup_lt_Some in E. lia. }
    destruct (Z.ltb_spec (Z.of_nat k + 1) 16); [|lia].
    destruct (Z.eqb_spec (Z.of_nat next) SIZE_MAX) as [Heq|_].
    + unfold SIZE_MAX in Heq. lia.
    + cbn [andb negb]. rewrite (Hs (Z.of_nat next - Z.of_nat a)) by lia.
      reflexivity.
  - rewrite header_addresses_lookup_none by exact E.
    rewrite Z.eqb_refl. rewrite andb_false_r.
    rewrite (Hs (st_size - Z.of_nat a)) by lia. reflexivity.
Qed.

(** The loop reads a prefix of its buffer only. *)
Lemma Caclulate16BitSum_loop_prefix (bufferLength : Z)
    (buf buf' : list byte) (v : Z) :
  0 <= bufferLength ->
  Caclulate16BitSum_loop buf 0 bufferLength 0 = Some v ->
  take (bytes_read bufferLength) buf' = take (bytes_read bufferLength) buf ->
  Caclulate16BitSum_loop buf' 0 bufferLength 0 = Some v.
Proof.
  intros Hlen Hloop Htake.
  pose proof Hloop as Hinv.
  apply Caclulate16BitSum_loop_inv in Hinv; [|lia|unfold INT_MAX; lia].
  rewrite Z.sub_0_r in Hinv. destruct Hinv as [Hb Hmax].
  fold (bytes_read bufferLength) in Hb.
  assert (Hb' : (bytes_read bufferLength <= length buf')%nat).
  { apply (f_equal length) in Htake. rewrite !length_take in Htake. lia. }
  rewrite (Caclulate16BitSum_loop_words bufferLength
             (Z.to_nat ((bufferLength + 1) / 2))) in Hloop
    by (unfold INT_MAX in *; unfold bytes_read in *; lia).
  rewrite (Caclulate16BitSum_loop_words bufferLength
             (Z.to_nat ((bufferLength + 1) / 2)))
    by (unfold INT_MAX in *; unfold bytes_read in *; lia).
  unfold bytes_read in Htake. rewrite Htake. exact Hloop.
Qed.

Lemma take_agree (m m' : list byte) (N n : nat) :
  take N m' = take N m -> (n <= N)%nat -> take n m' = take n m.
Proof.
  intros Hagree Hle.
  rewrite <- (Nat.min_l n N) by lia.
  rewrite <- !take_take, Hagree. reflexivity.
Qed.

Lemma take_drop_agree (m m' : list byte) (N p n : nat) :
  take N m' = take N m -> (p + n <= N)%nat ->
  take n (drop p m') = take n (drop p m).
Proof.
  intros Hagree Hle.
  rewrite !take_drop_commute.
  rewrite (take_agree _ _ _ _ Hagree) by lia. reflexivity.
Qed.

Lemma split_header (m : list byte) (a : nat) :
  (a + 80 <= length m)%nat ->
  exists pre header post,
    m = pre ++ header ++ post /\ length pre = a /\ length header = 80%nat.
Proof.
  intros Hlen. exists (take a m), (take 80 (drop a m)), (drop (a + 80) m).
  rewrite <- drop_drop, !take_drop, !length_take, length_drop.
  split; [reflexivity|lia].
Qed.

Lemma bytes_read_le (n : Z) : 0 <= n -> Z.of_nat (bytes_read n) <= n + 1.
Proof. intros Hn. unfold bytes_read. lia. Qed.

(** The loop over the partitions [k], [k + 1], ...: when it is defined, it
    leaves alone what lies before offset 14 of the header of partition [k],
    and every partition from [k] on ends up repaired. *)
Lemma update_partitions_forward (st_size : Z) (found : list nat) :
  recorded st_size found -> st_size < 2 ^ 63 ->
  forall (n k : nat) (m m' : list byte),
    (k + n)%nat = length found ->
    Z.of_nat (length m) = st_size ->
    update_partitions st_size (header_addresses found)
      (Z.of_nat <$> seq k n) m = Some m' ->
    length m' = length m
    /\ match found !! k with
       | Some a => take (a + 14) m' = take (a + 14) m
       | None => m' = m
       end
    /\ forall j, (k <= j < length found)%nat ->
         partition_repaired st_size found m' j.
Proof.
  intros Hrec Hsz. induction n as [|n IH]; intros k m m' Hk Hm Hrun.
  - cbn in Hrun. injection Hrun as <-.
    rewrite (proj2 (lookup_ge_None found k)) by lia.
    split; [reflexivity|]. split; [reflexivity|]. intros j Hj. lia.
  - destruct (lookup_lt_is_Some_2 found k ltac:(lia)) as [a Ha].
    rewrite Ha.
    pose proof (partition_end_bounds _ _ _ _ Hrec Ha) as Hend.
    pose proof Hrec as (Hlen & Hlt & Hasc).
    pose proof (Hlt _ _ Ha) as Hlta.
    destruct (split_header m a ltac:(lia))
      as (pre & header & post & -> & Hpre & Hheader).
    cbn [seq fmap list_fmap update_partitions] in Hrun.
    rewrite update_partition_spec in Hrun;
      [|rewrite Nat2Z.id, Hpre; apply header_addresses_lookup, Ha
       |exact Hheader].
    rewrite (partition_length_recorded _ _ _ _ Hrec Hsz Ha) in Hrun.
    set (L := size_t (partition_end st_size found k - Z.of_nat a - 80))
      in *.
    destruct (Caclulate16BitSum_loop post 0 L 0) as [v|] eqn:Hloop;
      [|discriminate].
    cbn [mbind option_bind] in Hrun.
    assert (HL0 : 0 <= L < 2 ^ 64)
      by (unfold L, size_t; apply Z.mod_pos_bound; lia).
    pose proof Hloop as Hinv.
    apply Caclulate16BitSum_loop_inv in Hinv; [|lia|unfold INT_MAX; lia].
    rewrite Z.sub_0_r in Hinv. destruct Hinv as [Hbytes Hmax].
    fold (bytes_read L) in Hbytes.
    assert (Hgap : 80 <= partition_end st_size found k - Z.of_nat a).
    { unfold L, size_t, INT_MAX in *. lia. }
    assert (HL : L = partition_end st_size found k - Z.of_nat a - 80).
    { unfold L, size_t. apply Z.mod_small. lia. }
    set (header' := update_header header L v) in *.
    assert (Hheader' : length header' = 80%nat)
      by (apply length_update_header; exact Hheader).
    apply IH in Hrun; [|lia|rewrite !length_app in *; lia].
    destruct Hrun as (Hlen' & Hframe & Hrep).
    assert (Hm1 : take (a + 14) (pre ++ header' ++ post)
                  = take (a + 14) (pre ++ header ++ post)).
    { rewrite <- Hpre, !take_app_add, !take_app_le by lia.
      unfold header'. rewrite update_header_take_14 by exact Hheader.
      reflexivity. }
    assert (Hagree : exists N,
              take N m' = take N (pre ++ header' ++ post)
              /\ (a + 80 + bytes_read L <= N)%nat).
    { destruct (found !! S k) as [a1|] eqn:Ha1.
      - exists (a1 + 14)%nat. split; [exact Hframe|].
        pose proof (bytes_read_le L ltac:(lia)).
        unfold partition_end in HL, Hgap. rewrite Ha1 in HL, Hgap. lia.
      - exists (length m'). subst m'. split; [reflexivity|].
        rewrite !length_app. lia. }
    destruct Hagree as (N & HN & HNle).
    split; [rewrite Hlen', !length_app; lia|].
    split.
    + rewrite <- Hm1. apply (take_agree _ _ N); [exact HN|lia].
    + intros j Hj. destruct (decide (j = k)) as [->|Hne].
      * exists a, header, v. split; [exact Ha|]. split; [exact Hgap|].
        split; [exact Hheader|]. rewrite <- HL. split.
        -- apply (Caclulate16BitSum_loop_prefix L post); [lia|exact Hloop|].
           rewrite (take_drop_agree _ _ N _ _ HN) by lia.
           rewrite <- Hpre, <- Hheader', drop_app_add, drop_app_length.
           reflexivity.
        -- rewrite (take_drop_agree _ _ N _ _ HN) by lia.
           rewrite <- Hpre, drop_app_length, <- Hheader', take_app_length.
           reflexivity.
      * apply Hrep. lia.
Qed.

Lemma filter_seq_ascending (P : nat -> Prop) `{!forall i, Decision (P i)}
    (n : nat) :
  forall (s k a b : nat),
    filter P (seq s n) !! k = Some a ->
    filter P (seq s n) !! S k = Some b -> (a < b)%nat.
Proof.
  induction n as [|n IH]; intros s k a b Ha Hb; [discriminate|].
  cbn [seq] in Ha, Hb. rewrite filter_cons in Ha, Hb.
  destruct (decide (P s)); [|eapply IH; eassumption].
  destruct k as [|k]; [|eapply IH; eassumption].
  cbn in Ha, Hb. injection Ha as <-.
  apply list_elem_of_lookup_2, list_elem_of_filter in Hb as [_ Hb].
  apply elem_of_seq in Hb. lia.
Qed.

(** The offsets that the scan records are below [st_size - 80] and
    ascend. *)
Lemma scan_recorded (buffer magic : list byte) :
  80 <= Z.of_nat (length buffer) ->
  recorded (Z.of_nat (length buffer))
    (take 16 (scanned_positions buffer magic)).
Proof.
  intros Hlen. rewrite scanned_positions_seq by exact Hlen.
  split; [rewrite length_take; lia|]. split.
  - intros k a Hk. apply lookup_take_Some in Hk as [Hk _].
    apply list_elem_of_lookup_2, list_elem_of_filter in Hk as [_ Hk].
    apply elem_of_seq in Hk. lia.
  - intros k a next Hk Hnext.
    apply lookup_take_Some in Hk as [Hk _].
    apply lookup_take_Some in Hnext as [Hnext _].
    eapply filter_seq_ascending; eassumption.
Qed.

Lemma find_partitions_recorded (buffer : list byte)
    (device : M32FirmwareUtilDeviceInfoType) :
  device ∈ M32FirmwareUtilDeviceInfos ->
  80 <= Z.of_nat (length buffer) < 2 ^ 63 ->
  exists found,
    find_partitions buffer device
    = Some (header_addresses found, Z.of_nat (length found))
    /\ recorded (Z.of_nat (length buffer)) found
    /\ found
       = take 16
           (scanned_positions buffer
              (bytes_of_string (RecoveryHeaderStart device))).
Proof.
  intros Hdev Hlen. eexists. split; [|split; [|reflexivity]].
  - apply find_partitions_magic;
      [rewrite (device_magic_length device Hdev); lia|exact Hlen].
  - apply scan_recorded. lia.
Qed.

(** The run of [UpdateHeaderInRecoveryImage], stage by stage. *)
Lemma UpdateHeaderInRecoveryImage_run (env : Env) (file : list byte)
    (outputFile : string) (device : M32FirmwareUtilDeviceInfoType)
    (found : list nat) :
  find_partitions file device
  = Some (header_addresses found, Z.of_nat (length found)) ->
  malloc_null env 0 = false -> fread_short env = false ->
  UpdateHeaderInRecoveryImage env file outputFile device
  = (buffer ← update_partitions (Z.of_nat (length file))
                (header_addresses found)
                (Z.of_nat <$> seq 0 (length found)) file;
     if Z.of_nat (length found) =? 0 then Some failed
     else if negb (WriteBufferToFile env outputFile =? 0) then Some failed
     else Some {| status := 0; output := Some buffer |}).
Proof.
  intros Hfind Hmalloc Hfread. unfold UpdateHeaderInRecoveryImage, malloc.
  rewrite Hmalloc, Hfread, Hfind. cbn [mbind option_bind].
  unfold repaired_buffer. rewrite Nat2Z.id. reflexivity.
Qed.

Lemma UpdateHeaderInRecoveryImage_success (env : Env) (file : list byte)
    (outputFile : string) (device : M32FirmwareUtilDeviceInfoType)
    (o : Outcome) :
  UpdateHeaderInRecoveryImage env file outputFile device = Some o ->
  status o = 0 ->
  malloc_null env 0 = false /\ fread_short env = false.
Proof.
  unfold UpdateHeaderInRecoveryImage, malloc.
  destruct (malloc_null env 0); [intros [= <-]; discriminate|].
  destruct (fread_short env); [intros [= <-]; discriminate|].
  auto.
Qed.

(** ** UpdateHeaderInRecoveryImage *)

Lemma Toy_M32_in_table : Toy.M32 ∈ M32FirmwareUtilDeviceInfos.
Proof.
  unfold M32FirmwareUtilDeviceInfos. rewrite !elem_of_cons.
  right; left; reflexivity.
Qed.

(** C2: after a successful run, the 16-bit sum with end-around carry, not
    inverted, over the 80 bytes of the header of every recorded partition
    is [0xFFFF], computed by the code's routine and by the specification's
    [Sum16Carry] alike. *)
Theorem header_checksum_invariant (env : Env) (file : list byte)
    (outputFile : string) (device : M32FirmwareUtilDeviceInfoType)
    (repaired : list byte) (headerAddresses : list Z) (partitionCount : Z)
    (partition : nat) (a : Z) :
  device ∈ M32FirmwareUtilDeviceInfos ->
  80 <= Z.of_nat (length file) < 2 ^ 63 ->
  UpdateHeaderInRecoveryImage env file outputFile device
  = Some {| status := 0; output := Some repaired |} ->
  find_partitions file device = Some (headerAddresses, partitionCount) ->
  Z.of_nat partition < partitionCount ->
  headerAddresses !! partition = Some a ->
  Caclulate16BitSum_value repaired a 80 false = Some 0xFFFF
  /\ Sum16Carry (take 80 (view repaired a)) false = 0xFFFF.
Proof.
  intros Hdev Hlen Hrun Hfind Hk Ha.
  destruct (find_partitions_recorded file device Hdev Hlen)
    as (found & Hfound & Hrec & _).
  rewrite Hfound in Hfind. injection Hfind as <- <-.
  destruct (UpdateHeaderInRecoveryImage_success _ _ _ _ _ Hrun eq_refl)
    as [Hmalloc Hfread].
  rewrite (UpdateHeaderInRecoveryImage_run _ _ _ _ _ Hfound Hmalloc Hfread)
    in Hrun.
  destruct (update_partitions _ _ _ file) as [buffer|] eqn:Hloop;
    [|discriminate].
  cbn [mbind option_bind] in Hrun.
  destruct (Z.of_nat (length found) =? 0); [discriminate|].
  destruct (negb (WriteBufferToFile env outputFile =? 0)); [discriminate|].
  injection Hrun as <-.
  apply (update_partitions_forward _ _ Hrec ltac:(lia)) in Hloop;
    [|reflexivity|reflexivity].
  destruct Hloop as (Hlen' & _ & Hrep).
  destruct (Hrep partition ltac:(lia))
    as (a' & header & v & Ha' & Hgap & Hheader & _ & Hhdr).
  rewrite (header_addresses_lookup _ _ _ Ha') in Ha. injection Ha as <-.
  assert (Hsum : Sum16Carry (take 80 (view buffer (Z.of_nat a'))) false
                 = 0xFFFF).
  { unfold view. rewrite Nat2Z.id, Hhdr.
    apply update_header_sum. exact Hheader. }
  split; [|exact Hsum].
  assert (H80 : (80 <= length (view buffer (Z.of_nat a')))%nat).
  { unfold view. rewrite Nat2Z.id.
    apply (f_equal length) in Hhdr.
    rewrite length_update_header in Hhdr by exact Hheader.
    rewrite length_take in Hhdr. lia. }
  rewrite Caclulate16BitSum_value_spec;
    [|unfold INT_MAX; lia|exact H80].
  change (bytes_read 80) with 80%nat. rewrite Hsum. reflexivity.
Qed.

Lemma header_checksum_invariant_witness :
  Caclulate16BitSum_value (repaired_image image_two_partitions) 181 80 false
  = Some 0xFFFF
  /\ Sum16Carry (take 80 (view (repaired_image image_two_partitions) 181))
       false = 0xFFFF.
Proof.
  apply (header_checksum_invariant Toy.env image_two_partitions "out"
           Toy.M32 (repaired_image image_two_partitions)
           (header_addresses [0; 181]%nat) 2 1 181).
  - exact Toy_M32_in_table.
  - simpl. lia.
  - vm_compute. reflexivity.
  - vm_compute. reflexivity.
  - lia.
  - reflexivity.
Defined.

(** ** When the run fails, succeeds, or is undefined *)






(** Two well-formed partitions, and a single partition whose payload of
    101 bytes makes the data checksum loop read the byte after the
    buffer. *)
Example repair_outcomes :
  partitions_in_bounds (Z.of_nat (length image_two_partitions))
       [0; 181]%nat = true
  /\ status <$> UpdateHeaderInRecoveryImage Toy.env image_two_partitions
                  "out" Toy.M32 = Some 0
  /\ find_partitions image_odd_last_payload Toy.M32
     = Some (header_addresses [0]%nat, 1)
  /\ partitions_in_bounds (Z.of_nat (length image_odd_last_payload))
       [0]%nat = false
  /\ UpdateHeaderInRecoveryImage Toy.env image_odd_last_payload "out"
       Toy.M32 = None.
Proof. repeat split; vm_compute; reflexivity. Qed.

(** Nothing recorded. *)
Example repair_fails_without_partition :
  UpdateHeaderInRecoveryImage Toy.env image_with_late_magic "out" Toy.M32
  = Some failed.
Proof. vm_compute. reflexivity. Qed.

(** ** Running the repair twice *)

(** On a buffer whose recorded partitions are all repaired, the loop over
    the partitions is defined and changes nothing. *)
Lemma update_partitions_rerun (st_size : Z) (found : list nat) :
  recorded st_size found -> st_size < 2 ^ 63 ->
  forall (n k : nat) (y : list byte),
    (k + n)%nat = length found ->
    Z.of_nat (length y) = st_size ->
    (forall j, (k <= j < length found)%nat ->
       partition_repaired st_size found y j) ->
    update_partitions st_size (header_addresses found)
      (Z.of_nat <$> seq k n) y = Some y.
Proof.
  intros Hrec Hsz. induction n as [|n IH]; intros k y Hk Hy Hrep;
    [reflexivity|].
  destruct (Hrep k ltac:(lia))
    as (a & header & v & Ha & Hgap & Hheader & Hloop & Hhdr).
  pose proof (partition_end_bounds _ _ _ _ Hrec Ha) as Hend.
  pose proof Hrec as (Hlen & Hlt & Hasc).
  pose proof (Hlt _ _ Ha) as Hlta.
  destruct (split_header y a ltac:(lia))
    as (pre & hdr & post & -> & Hpre & Hhdrlen).
  cbn [seq fmap list_fmap update_partitions].
  rewrite update_partition_spec;
    [|rewrite Nat2Z.id, Hpre; apply header_addresses_lookup, Ha
     |exact Hhdrlen].
  rewrite (partition_length_recorded _ _ _ _ Hrec Hsz Ha).
  assert (HL : size_t (partition_end st_size found k - Z.of_nat a - 80)
               = partition_end st_size found k - Z.of_nat a - 80).
  { unfold size_t. apply Z.mod_small. lia. }
  rewrite HL.
  assert (Hpost : drop (a + 80) (pre ++ hdr ++ post) = post).
  { rewrite <- Hpre, <- Hhdrlen, drop_app_add, drop_app_length.
    reflexivity. }
  assert (Hhdr' : take 80 (drop a (pre ++ hdr ++ post)) = hdr).
  { rewrite <- Hpre, drop_app_length, <- Hhdrlen, take_app_length.
    reflexivity. }
  rewrite Hpost in Hloop. rewrite Hhdr' in Hhdr.
  rewrite Hloop. cbn [mbind option_bind].
  rewrite Hhdr at 1.
  rewrite update_header_idempotent by exact Hheader.
  rewrite <- Hhdr.
  apply IH; [lia|exact Hy|].
  intros j Hj. apply Hrep. lia.
Qed.

(** C5, as the code has it: a second run on the output of a successful
    run returns that output again, provided its scan records the partition
    offsets that the scan of the first run recorded. *)
Theorem repair_idempotent_on_same_partitions (env1 env2 : Env)
    (x y : list byte) (outputFile1 outputFile2 : string)
    (device : M32FirmwareUtilDeviceInfoType) :
  device ∈ M32FirmwareUtilDeviceInfos ->
  80 <= Z.of_nat (length x) < 2 ^ 63 ->
  UpdateHeaderInRecoveryImage env1 x outputFile1 device
  = Some {| status := 0; output := Some y |} ->
  find_partitions y device = find_partitions x device ->
  malloc_null env2 0 = false -> fread_short env2 = false ->
  WriteBufferToFile env2 outputFile2 = 0 ->
  UpdateHeaderInRecoveryImage env2 y outputFile2 device
  = Some {| status := 0; output := Some y |}.
Proof.
  intros Hdev Hlen Hrun Hscan Hmalloc2 Hfread2 Hwrite2.
  destruct (find_partitions_recorded x device Hdev Hlen)
    as (found & Hfound & Hrec & _).
  destruct (UpdateHeaderInRecoveryImage_success _ _ _ _ _ Hrun eq_refl)
    as [Hmalloc Hfread].
  rewrite (UpdateHeaderInRecoveryImage_run _ _ _ _ _ Hfound Hmalloc Hfread)
    in Hrun.
  destruct (update_partitions _ _ _ x) as [buffer|] eqn:Hloop;
    [|discriminate].
  cbn [mbind option_bind] in Hrun.
  destruct (Z.eqb_spec (Z.of_nat (length found)) 0) as [|Hcount];
    [discriminate|].
  destruct (negb (WriteBufferToFile env1 outputFile1 =? 0));
    [discriminate|].
  injection Hrun as ->.
  apply (update_partitions_forward _ _ Hrec ltac:(lia)) in Hloop;
    [|reflexivity|reflexivity].
  destruct Hloop as (Hlen' & _ & Hrep).
  rewrite Hfound in Hscan.
  rewrite (UpdateHeaderInRecoveryImage_run _ _ _ _ _ Hscan Hmalloc2
             Hfread2).
  rewrite Hlen'.
  rewrite (update_partitions_rerun _ _ Hrec ltac:(lia));
    [|reflexivity|lia|exact Hrep].
  cbn [mbind option_bind].
  destruct (Z.eqb_spec (Z.of_nat (length found)) 0); [lia|].
  rewrite Hwrite2. reflexivity.
Qed.

Lemma repair_idempotent_on_same_partitions_witness :
  UpdateHeaderInRecoveryImage Toy.env (repaired_image image_two_partitions)
    "again" Toy.M32
  = Some {| status := 0;
            output := Some (repaired_image image_two_partitions) |}.
Proof.
  apply (repair_idempotent_on_same_partitions Toy.env Toy.env
           image_two_partitions (repaired_image image_two_partitions)
           "out" "again" Toy.M32).
  - exact Toy_M32_in_table.
  - simpl. lia.
  - vm_compute. reflexivity.
  - vm_compute. reflexivity.
  - reflexivity.
  - reflexivity.
  - reflexivity.
Defined.

(** C5 as stated fails: the run on [image_growing_a_magic] succeeds and
    writes the data checksum [4B 36], the letters K and 6, at offset 14,
    which completes a second occurrence of the magic at offset 12; in the
    second run the partition at offset 0 ends at offset 12, its length
    [12 - 80] wraps around, and the data checksum loop leaves the
    buffer. *)
Lemma repair_not_idempotent :
  UpdateHeaderInRecoveryImage Toy.env image_growing_a_magic "out" Toy.M32
  = Some {| status := 0;
            output := Some (repaired_image image_growing_a_magic) |}
  /\ UpdateHeaderInRecoveryImage Toy.env
       (repaired_image image_growing_a_magic) "out" Toy.M32
     <> Some {| status := 0;
                output := Some (repaired_image image_growing_a_magic) |}.
Proof.
  split; [vm_compute; reflexivity|].
  vm_compute. discriminate.
Qed.

Example repair_second_run_undefined :
  find_partitions (repaired_image image_growing_a_magic) Toy.M32
  = Some (header_addresses [0; 12]%nat, 2)
  /\ partition_length 94 (header_addresses [0; 12]%nat) 0 = 2 ^ 64 - 68
  /\ UpdateHeaderInRecoveryImage Toy.env
       (repaired_image image_growing_a_magic) "out" Toy.M32 = None.
Proof. repeat split; vm_compute; reflexivity. Qed.

(** ** Buffers as sequences of segments *)

Lemma splice_concat (pre : list (list byte)) (w : list byte)
    (post : list (list byte)) (p : Z) (src : list byte) :
  p = Z.of_nat (length (concat pre)) -> length src = length w ->
  splice (concat (pre ++ w :: post)) p src = concat (pre ++ src :: post).
Proof.
  intros Hp Hw. rewrite !concat_app. cbn [concat].
  apply splice_segment; assumption.
Qed.

Lemma write_bytes_concat (pre : list (list byte)) (w : list byte)
    (post : list (list byte)) (p : Z) (src : list byte) :
  p = Z.of_nat (length (concat pre)) -> length src = length w ->
  write_bytes (concat (pre ++ w :: post)) p src
  = Some (concat (pre ++ src :: post)).
Proof.
  intros Hp Hw. rewrite write_bytes_Some.
  - rewrite splice_concat by assumption. reflexivity.
  - lia.
  - rewrite concat_app, length_app. cbn [concat]. rewrite length_app. lia.
Qed.

Lemma read_bytes_concat (pre : list (list byte)) (w : list byte)
    (post : list (list byte)) (p n : Z) :
  p = Z.of_nat (length (concat pre)) -> n = Z.of_nat (length w) ->
  read_bytes (concat (pre ++ w :: post)) p n = Some w.
Proof.
  intros -> ->. rewrite read_bytes_Some; try lia.
  - rewrite !Nat2Z.id, concat_app, drop_app_length. cbn [concat].
    rewrite take_app_length. reflexivity.
  - rewrite concat_app, length_app. cbn [concat]. rewrite length_app. lia.
Qed.

Lemma view_concat (pre post : list (list byte)) (p : Z) :
  p = Z.of_nat (length (concat pre)) ->
  view (concat (pre ++ post)) p = concat post.
Proof.
  intros ->. unfold view. rewrite Nat2Z.id, concat_app, drop_app_length.
  reflexivity.
Qed.

(** A buffer of the right length, cut into segments of given lengths. *)
Lemma cut (m : list byte) (n : nat) :
  (n <= length m)%nat ->
  exists a b, m = a ++ b /\ length a = n.
Proof.
  intros Hn. exists (take n m), (drop n m).
  rewrite take_drop, length_take. split; [reflexivity|lia].
Qed.

(** ** The steps of the pipelines *)

Lemma sign_data_Some `{LS : LibsSpec}
    (device : M32FirmwareUtilDeviceInfoType) (data : list byte) :
  device ∈ M32FirmwareUtilDeviceInfos ->
  exists signature,
    sign_data device data = Some signature
    /\ length signature = 256%nat
    /\ verify_data device data signature = Some 1.
Proof.
  intros Hdev.
  destruct (device_keys_valid device Hdev) as (sk & pk & Hsk & Hpk & Hsig).
  destruct (SHA512_succeeds data) as [digest Hd].
  destruct (Hsig digest) as (s & Hs & Hlen & Hver).
  exists s. unfold sign_data, verify_data. rewrite Hd, Hsk, Hpk.
  cbn [mbind option_bind]. rewrite Hver.
  unfold M32_FIRMWARE_SIGNATURE_LENGTH in Hlen.
  split; [exact Hs|]. split; [lia|reflexivity].
Qed.

(** [CreateSha512VerificatioinSignature] in terms of [sign_data]: the
    value of [status] at the end and the buffer. *)
Lemma CreateSha512VerificatioinSignature_spec `{L : Libs}
    (m data : list byte) (buffer imageSize : Z)
    (device : M32FirmwareUtilDeviceInfoType) :
  read_bytes m buffer imageSize = Some data ->
  CreateSha512VerificatioinSignature m buffer imageSize device
  = match sign_data device data with
    | None => Some (m, 1)
    | Some signature =>
        m ← write_bytes m (buffer + imageSize) signature;
        Some (m, if Z.of_nat (length signature) =? 256 then 0 else 1)
    end.
Proof.
  intros Hread. unfold CreateSha512VerificatioinSignature, sign_data.
  rewrite Hread. cbn [mbind option_bind].
  destruct (SHA512 data) as [digest|]; [|reflexivity].
  cbn [mbind option_bind].
  destruct (PEM_read_bio_RSAPrivateKey _ _) as [sk|]; [|reflexivity].
  cbn [mbind option_bind].
  destruct (EVP_Sign sk digest) as [s|]; [|reflexivity].
  destruct (write_bytes m (buffer + imageSize) s); [|reflexivity].
  cbn [mbind option_bind]. unfold M32_FIRMWARE_SIGNATURE_LENGTH.
  destruct (Z.of_nat (length s) =? 256); reflexivity.
Qed.

Lemma VerifySha512Signture_spec `{L : Libs}
    (m data signature : list byte) (buffer bufferLength : Z)
    (device : M32FirmwareUtilDeviceInfoType) :
  read_bytes m buffer bufferLength = Some data ->
  read_bytes m (buffer + bufferLength) 256 = Some signature ->
  VerifySha512Signture m buffer bufferLength device
  = match verify_data device data signature with
    | Some r => Some (if r =? 0 then 1 else 0)
    | None => Some 1
    end.
Proof.
  intros Hdata Hsig. unfold VerifySha512Signture, verify_data.
  rewrite Hdata. cbn [mbind option_bind].
  destruct (SHA512 data) as [digest|]; [|reflexivity].
  cbn [mbind option_bind].
  destruct (PEM_read_bio_PUBKEY _) as [pk|]; [|reflexivity].
  unfold M32_FIRMWARE_SIGNATURE_LENGTH. rewrite Hsig.
  cbn [mbind option_bind].
  destruct (EVP_DigestVerify pk digest signature =? 0); reflexivity.
Qed.

Lemma splice_overwrite (m : list byte) (q : Z) (s1 s0 src : list byte) :
  0 <= q -> (length s0 <= length src)%nat ->
  q + Z.of_nat (length s1) + Z.of_nat (length src) <= Z.of_nat (length m) ->
  splice (splice m q (s1 ++ s0)) (q + Z.of_nat (length s1)) src
  = splice m q (s1 ++ src).
Proof.
  intros H0 Hs Hm.
  destruct (split_at m q ltac:(lia)) as (a & l & -> & ->).
  rewrite length_app in Hm.
  rewrite !splice_app_r.
  replace (Z.of_nat (length a) + Z.of_nat (length s1))
    with (Z.of_nat (length (a ++ s1))) by (rewrite length_app; lia).
  replace (a ++ (s1 ++ s0) ++ drop (length (s1 ++ s0)) l)
    with ((a ++ s1) ++ s0 ++ drop (length (s1 ++ s0)) l)
    by (rewrite <- !app_assoc; reflexivity).
  rewrite splice_app_r, <- !app_assoc. do 3 f_equal.
  rewrite drop_app_ge by lia. rewrite drop_drop, !length_app.
  f_equal. lia.
Qed.

Lemma length_iv_text (iv : list byte) :
  length (iv_text iv) = (2 * length iv + 1)%nat.
Proof.
  unfold iv_text. rewrite length_app.
  assert (H : length (flat_map (fun b => take 2 (sprintf_02x b)) iv)
              = (2 * length iv)%nat).
  { induction iv as [|x iv IH]; [reflexivity|].
    cbn [flat_map]. rewrite length_app, IH.
    change (length (take 2 (sprintf_02x x))) with 2%nat.
    cbn [length]. lia. }
  rewrite H. reflexivity.
Qed.

Lemma WriteAes128CbcIvToBuffer_loop_spec (iv : list byte) :
  forall (m : list byte) (buffer i : Z),
    0 <= buffer -> 0 <= i ->
    buffer + 2 * i + 2 * Z.of_nat (length iv) + 1 <= Z.of_nat (length m) ->
    WriteAes128CbcIvToBuffer_loop m buffer iv i
    = Some (splice m (buffer + 2 * i) (iv_text iv)).
Proof.
  induction iv as [|b iv IH]; intros m buffer i Hb Hi Hm.
  - cbn [WriteAes128CbcIvToBuffer_loop]. simpl in Hm.
    rewrite store_splice by lia. reflexivity.
  - cbn [WriteAes128CbcIvToBuffer_loop]. cbn [length] in Hm.
    rewrite write_bytes_Some by (simpl; lia).
    cbn [mbind option_bind].
    rewrite IH by (rewrite ?length_splice; simpl; lia).
    f_equal.
    replace (buffer + 2 * (i + 1)) with (buffer + 2 * i + 2) by lia.
    pose proof (length_iv_text iv) as Hlen.
    change (sprintf_02x b) with (take 2 (sprintf_02x b) ++ [x00]).
    change (buffer + 2 * i + 2)
      with (buffer + 2 * i + Z.of_nat (length (take 2 (sprintf_02x b)))).
    rewrite splice_overwrite; [reflexivity|lia|simpl; lia|].
    rewrite Hlen. simpl. lia.
Qed.

Lemma WriteAes128CbcIvToBuffer_spec (m : list byte) (buffer : Z)
    (iv : list byte) :
  0 <= buffer ->
  buffer + 2 * Z.of_nat (length iv) + 1 <= Z.of_nat (length m) ->
  WriteAes128CbcIvToBuffer m buffer iv
  = Some (splice m buffer (iv_text iv), 0).
Proof.
  intros H0 H1. unfold WriteAes128CbcIvToBuffer.
  rewrite WriteAes128CbcIvToBuffer_loop_spec by lia.
  cbn [mbind option_bind]. rewrite Z.mul_0_r, Z.add_0_r. reflexivity.
Qed.

Lemma int_le (z : Z) : 0 <= z -> int z <= z /\ int z < 2 ^ 31.
Proof.
  unfold int. change (2 ^ 31) with 2147483648.
  change (2 ^ 32) with 4294967296. lia.
Qed.

Lemma int_small (z : Z) : 0 <= z < 2 ^ 31 -> int z = z.
Proof.
  unfold int. change (2 ^ 31) with 2147483648.
  change (2 ^ 32) with 4294967296. lia.
Qed.

Lemma uint32_small (z : Z) : 0 <= z < 2 ^ 32 -> uint32_t z = z.
Proof. intros Hz. unfold uint32_t. apply Z.mod_small. exact Hz. Qed.

(** The cipher run of [EncryptAes128Cbc] on a buffer that holds the inner
    block at [plainData]. *)
Lemma EVP_Encrypt_inner_block `{LS : LibsSpec} (key iv : list byte)
    (file signature tail : list byte) :
  length signature = 256%nat ->
  Z.of_nat (length file) + 272 < 2 ^ 64 ->
  EVP_Encrypt key iv (inner_block file signature ++ tail) (encrypt_inl file)
  = EVP_Encrypt key iv
      (take (Z.to_nat (encrypt_inl file)) (inner_block file signature))
      (encrypt_inl file).
Proof.
  intros Hsig Hn.
  assert (Hinner : length (inner_block file signature)
                   = (length file + 272)%nat).
  { unfold inner_block. rewrite !length_app, length_VerificationHeader.
    lia. }
  destruct (Z.lt_ge_cases (encrypt_inl file) 0) as [Hneg|Hpos].
  - rewrite !EVP_Encrypt_negative by exact Hneg. reflexivity.
  - assert (Hle : encrypt_inl file <= Z.of_nat (length file) + 272).
    { unfold encrypt_inl, M32_FIRMWARE_HEADER_LENGTH,
        M32_FIRMWARE_SIGNATURE_LENGTH, size_t.
      rewrite Z.mod_small by lia.
      pose proof (int_le (Z.of_nat (length file) + 16 + 256) ltac:(lia)).
      lia. }
    rewrite EVP_Encrypt_reads by (rewrite length_app; lia).
    rewrite take_app_le by lia. reflexivity.
Qed.

Lemma encrypt_block_length `{LS : LibsSpec}
    (device : M32FirmwareUtilDeviceInfoType)
    (file signature encrypted : list byte) :
  length signature = 256%nat ->
  Z.of_nat (length file) + 272 < 2 ^ 64 ->
  encrypt_block device file signature = Some encrypted ->
  0 <= encrypt_inl file <= Z.of_nat (length file) + 272
  /\ encrypt_inl file <= Z.of_nat (length encrypted) <= encrypt_inl file + 16
  /\ encrypt_inl file < 2 ^ 31.
Proof.
  intros Hsig Hn Henc. unfold encrypt_block in Henc.
  assert (Hinner : length (inner_block file signature)
                   = (length file + 272)%nat).
  { unfold inner_block. rewrite !length_app, length_VerificationHeader.
    lia. }
  destruct (Z.lt_ge_cases (encrypt_inl file) 0) as [Hneg|Hpos].
  { rewrite EVP_Encrypt_negative in Henc by exact Hneg. discriminate. }
  assert (Hle : encrypt_inl file <= Z.of_nat (length file) + 272
                /\ encrypt_inl file < 2 ^ 31).
  { unfold encrypt_inl, M32_FIRMWARE_HEADER_LENGTH,
      M32_FIRMWARE_SIGNATURE_LENGTH, size_t.
    rewrite Z.mod_small by lia.
    pose proof (int_le (Z.of_nat (length file) + 16 + 256) ltac:(lia)).
    lia. }
  apply EVP_Encrypt_length in Henc; [|rewrite length_take; lia].
  unfold AES_BLOCK_SIZE in Henc. lia.
Qed.

(** ** CreateFactoryImageFromRecoveryImage, stage by stage *)

Lemma length_outer_block (encrypted : list byte) :
  length (outer_block encrypted) = (length encrypted + 65)%nat.
Proof.
  unfold outer_block, salted_prefix.
  rewrite !length_app, length_EncryptionHeader, length_iv_text.
  change (length IV) with 16%nat. change (length salt) with 8%nat.
  change (length (bytes_of_string "Salted__")) with 8%nat. lia.
Qed.

Lemma length_factory_layout (encrypted signature : list byte) :
  length (factory_layout encrypted signature)
  = (length encrypted + length signature + 81)%nat.
Proof.
  unfold factory_layout.
  rewrite !length_app, length_VerificationHeader, length_outer_block. lia.
Qed.

Ltac seg_len :=
  cbn [concat app];
  rewrite ?length_app, ?length_VerificationHeader, ?length_EncryptionHeader,
    ?length_iv_text, ?length_outer_block, ?length_factory_layout;
  change (length salt) with 8%nat;
  change (length (bytes_of_string "Salted__")) with 8%nat;
  change (length IV) with 16%nat;
  cbn [length]; lia.

Ltac seg_post pre l :=
  lazymatch pre with
  | nil => lazymatch l with cons _ ?t => t end
  | cons _ ?pre' => lazymatch l with cons _ ?t => seg_post pre' t end
  end.

(** Rewrite an access to the segment [w] that follows the segments
    [pre]. *)
Ltac seg_write pre w :=
  match goal with
  | |- context [write_bytes (concat ?l) ?p ?src] =>
      let post := seg_post pre l in
      change (concat l) with (concat (pre ++ w :: post));
      rewrite (write_bytes_concat pre w post p src)
        by (try reflexivity; seg_len);
      cbn [mbind option_bind app]
  end.

Ltac seg_read pre w :=
  match goal with
  | |- context [read_bytes (concat ?l) ?p ?n] =>
      let post := seg_post pre l in
      change (concat l) with (concat (pre ++ w :: post));
      rewrite (read_bytes_concat pre w post p n) by seg_len;
      cbn [mbind option_bind app]
  end.

Ltac seg_splice pre w :=
  match goal with
  | |- context [splice (concat ?l) ?p ?src] =>
      let post := seg_post pre l in
      change (concat l) with (concat (pre ++ w :: post));
      rewrite (splice_concat pre w post p src)
        by (try reflexivity; seg_len);
      cbn [mbind option_bind app]
  end.

Lemma write_bytes_app_at (a l src : list byte) (p : Z) :
  p = Z.of_nat (length a) -> (length src <= length l)%nat ->
  write_bytes (a ++ l) p src = Some (a ++ src ++ drop (length src) l).
Proof. intros ->. apply write_bytes_app_r. Qed.

(** The buffer of [CreateFactoryImageFromRecoveryImage] after the recovery
    image is framed, signed, salted and encrypted in place, and the
    value of [encryptedDataLength]. *)
Lemma encrypt_stage `{LS : LibsSpec}
    (device : M32FirmwareUtilDeviceInfoType)
    (file sig1 j0 j1 j2 j3a j3b j7 : list byte) :
  length j0 = 16%nat -> length j1 = 16%nat -> length j2 = 33%nat ->
  length j3a = 8%nat -> length j3b = 8%nat -> length j7 = 272%nat ->
  length sig1 = 256%nat ->
  Z.of_nat (length file) + 625 < 2 ^ 64 ->
  EncryptAes128Cbc
    (concat [j0; j1; j2; j3a; j3b;
             VerificationHeader (Z.of_nat (length file)); file; sig1; j7])
    81 (size_t (Z.of_nat (length file) + 16 + 256)) 81 65
    (FirmwareKey device) IV
  = match encrypt_block device file sig1 with
    | None =>
        Some (concat [j0; j1; j2; bytes_of_string "Salted__"; salt;
                      VerificationHeader (Z.of_nat (length file)); file;
                      sig1; j7], 1, 0)
    | Some encrypted =>
        if INT_MAX <? Z.of_nat (length encrypted) then None
        else
          Some (concat [j0; j1; j2; bytes_of_string "Salted__"; salt;
                        encrypted;
                        drop (length encrypted)
                          (inner_block file sig1 ++ j7)],
                0, Z.of_nat (length encrypted))
    end.
Proof.
  intros H0 H1 H2 H3a H3b H7 Hs1 Hn. unfold EncryptAes128Cbc.
  seg_write [j0; j1; j2] j3a.
  seg_write [j0; j1; j2; bytes_of_string "Salted__"] j3b.
  rewrite (view_concat [j0; j1; j2; bytes_of_string "Salted__"; salt]
             [VerificationHeader (Z.of_nat (length file)); file; sig1; j7])
    by seg_len.
  replace (concat [VerificationHeader (Z.of_nat (length file)); file; sig1;
                   j7])
    with (inner_block file sig1 ++ j7)
    by (unfold inner_block; cbn [concat]; rewrite <- !app_assoc, app_nil_r;
        reflexivity).
  destruct (EVP_BytesToKey salt (bytes_of_string (FirmwareKey device)))
    as [key iv] eqn:Hkey.
  fold (encrypt_inl file).
  change (int (size_t (Z.of_nat (length file) + 16 + 256)))
    with (encrypt_inl file).
  rewrite EVP_Encrypt_inner_block by (try assumption; lia).
  pose proof (encrypt_block_length device file sig1) as Hlen.
  unfold encrypt_block in *. rewrite Hkey in *. cbn [fst] in *.
  destruct (EVP_Encrypt key IV _ (encrypt_inl file)) as [c|] eqn:Henc.
  2:{ replace (inner_block file sig1 ++ j7)
        with (concat [VerificationHeader (Z.of_nat (length file)); file;
                      sig1; j7])
        by (unfold inner_block; cbn [concat];
            rewrite <- !app_assoc, app_nil_r; reflexivity).
      reflexivity. }
  specialize (Hlen c Hs1 ltac:(lia) eq_refl).
  assert (Hinner : length (inner_block file sig1 ++ j7)
                   = (length file + 544)%nat).
  { unfold inner_block. rewrite !length_app, length_VerificationHeader.
    lia. }
  assert (Hm : concat [j0; j1; j2; bytes_of_string "Salted__"; salt;
                       VerificationHeader (Z.of_nat (length file)); file;
                       sig1; j7]
               = concat [j0; j1; j2; bytes_of_string "Salted__"; salt]
                 ++ (inner_block file sig1 ++ j7)).
  { unfold inner_block. cbn [concat].
    rewrite <- !app_assoc, ?app_nil_r. reflexivity. }
  rewrite Hm.
  rewrite write_bytes_app_at; [|seg_len|lia].
  cbn [mbind option_bind concat]. cbv zeta.
  rewrite <- !app_assoc, ?app_nil_r.
  reflexivity.
Qed.

(** The buffer that [malloc] returns, cut at the addresses that
    [CreateFactoryImageFromRecoveryImage] computes. *)
Lemma cut_factory_buffer (m : list byte) (n : nat) :
  length m = (n + 625)%nat ->
  exists j0 j1 j2 j3a j3b j4 j5 j6 j7,
    m = concat [j0; j1; j2; j3a; j3b; j4; j5; j6; j7]
    /\ length j0 = 16%nat /\ length j1 = 16%nat /\ length j2 = 33%nat
    /\ length j3a = 8%nat /\ length j3b = 8%nat /\ length j4 = 16%nat
    /\ length j5 = n /\ length j6 = 256%nat /\ length j7 = 272%nat.
Proof.
  intros Hm.
  destruct (cut m 16 ltac:(lia)) as (j0 & m1 & -> & H0).
  rewrite length_app in Hm.
  destruct (cut m1 16 ltac:(lia)) as (j1 & m2 & -> & H1).
  rewrite length_app in Hm.
  destruct (cut m2 33 ltac:(lia)) as (j2 & m3 & -> & H2).
  rewrite length_app in Hm.
  destruct (cut m3 8 ltac:(lia)) as (j3a & m4 & -> & H3a).
  rewrite length_app in Hm.
  destruct (cut m4 8 ltac:(lia)) as (j3b & m5 & -> & H3b).
  rewrite length_app in Hm.
  destruct (cut m5 16 ltac:(lia)) as (j4 & m6 & -> & H4).
  rewrite length_app in Hm.
  destruct (cut m6 n ltac:(lia)) as (j5 & m7 & -> & H5).
  rewrite length_app in Hm.
  destruct (cut m7 256 ltac:(lia)) as (j6 & j7 & -> & H6).
  rewrite length_app in Hm.
  exists j0, j1, j2, j3a, j3b, j4, j5, j6, j7.
  cbn [concat]. rewrite app_nil_r.
  repeat split; try assumption; lia.
Qed.

(** ** CreateFactoryImageFromRecoveryImage, as a whole *)

Ltac status_ok := change (negb (0 =? 0)) with false; cbv iota.

Lemma call_CreateSha512VerificatioinSignature_spec `{L : Libs}
    (env : Env) (k : nat) (m data signature : list byte)
    (buffer imageSize : Z) (device : M32FirmwareUtilDeviceInfoType) :
  read_bytes m buffer imageSize = Some data ->
  sign_data device data = Some signature ->
  call_CreateSha512VerificatioinSignature env k m buffer imageSize device
  = (m ← write_bytes m (buffer + imageSize) signature;
     Some (m, fallen_off_value env k)).
Proof.
  intros Hdata Hsig. unfold call_CreateSha512VerificatioinSignature.
  rewrite (CreateSha512VerificatioinSignature_spec m data) by exact Hdata.
  rewrite Hsig.
  destruct (write_bytes m (buffer + imageSize) signature); [|reflexivity].
  cbn [mbind option_bind].
  destruct (Z.of_nat (length signature) =? 256); reflexivity.
Qed.

Lemma CreateFactoryImageFromRecoveryImage_eval `{LS : LibsSpec}
    (env : Env) (file : list byte) (outputFile : string)
    (device : M32FirmwareUtilDeviceInfoType) (sig1 : list byte) :
  device ∈ M32FirmwareUtilDeviceInfos ->
  Z.of_nat (length file) + 625 < 2 ^ 64 ->
  sign_data device file = Some sig1 ->
  CreateFactoryImageFromRecoveryImage env file outputFile device
  = if negb (malloc_null env 0) && negb (fread_short env)
       && (fallen_off_value env 0 =? 0)
       && (WriteDebugBufferToFile env "Sig1.bin" =? 0)
       && (WriteDebugBufferToFile env "FW_and_Sig1.bin" =? 0)
    then
      match encrypt_block device file sig1 with
      | None => Some failed
      | Some encrypted =>
          if INT_MAX <? Z.of_nat (length encrypted) then None
          else
            outer ← sign_data device (outer_block encrypted);
            Some
              (if (WriteDebugBufferToFile env "FWenc.bin" =? 0)
                  && (WriteDebugBufferToFile env "IV.bin" =? 0)
                  && (fallen_off_value env 1 =? 0)
                  && (WriteBufferToFile env outputFile =? 0)
               then {| status := 0;
                       output := Some (factory_layout encrypted outer) |}
               else failed)
      end
    else Some failed.
Proof.
  intros Hdev Hn Hsig1.
  assert (Hs1 : length sig1 = 256%nat).
  { destruct (sign_data_Some device file Hdev) as (s & Hs & Hlen & _).
    congruence. }
  unfold CreateFactoryImageFromRecoveryImage, malloc.
  destruct (malloc_null env 0); [reflexivity|].
  destruct (fread_short env); [reflexivity|].
  cbn [negb andb].
  unfold M32_FIRMWARE_HEADER_LENGTH, M32_FIRMWARE_SIGNATURE_LENGTH,
    M32_FIRMWARE_DECRYPTION_INFO_LENGTH, M32_FIRMWARE_SALT_INFO_LENGTH,
    M32_FIRMWARE_INITIALIZATION_VECTOR_LENGTH, AES_BLOCK_SIZE.
  cbv zeta.
  match goal with
  | |- context [fmap ?f (seq 0 ?k)] => set (m0 := fmap f (seq 0 k))
  end.
  assert (Hm0 : length m0 = (length file + 625)%nat).
  { subst m0. rewrite length_fmap, length_seq. unfold size_t.
    rewrite !Z.mod_small by lia. lia. }
  clearbody m0.
  destruct (cut_factory_buffer m0 (length file) Hm0)
    as (j0 & j1 & j2 & j3a & j3b & j4 & j5 & j6 & j7 & -> & H0 & H1 & H2
        & H3a & H3b & H4 & H5 & H6 & H7).
  clear Hm0.
  change (0 + 16 + 16 + (33 + 16) + 16) with 97.
  change (0 + 16 + 16 + (33 + 16)) with 81.
  change (0 + 16 + 16 + 33) with 65.
  change (0 + 16 + 16) with 32. change (0 + 16) with 16.
  (* the recovery image is copied, framed and signed *)
  seg_write [j0; j1; j2; j3a; j3b; j4] j5.
  rewrite CreateSha512VerificatioinHeader_spec by seg_len.
  cbn [mbind option_bind]. status_ok.
  seg_splice [j0; j1; j2; j3a; j3b] j4.
  rewrite (call_CreateSha512VerificatioinSignature_spec env 0 _ file sig1);
    [|seg_read [j0; j1; j2; j3a; j3b;
                VerificationHeader (Z.of_nat (length file))] file;
      reflexivity
     |exact Hsig1].
  seg_write [j0; j1; j2; j3a; j3b;
             VerificationHeader (Z.of_nat (length file)); file] j6.
  destruct (fallen_off_value env 0 =? 0); [|reflexivity].
  destruct (WriteDebugBufferToFile env "Sig1.bin" =? 0); [|reflexivity].
  destruct (WriteDebugBufferToFile env "FW_and_Sig1.bin" =? 0);
    [|reflexivity].
  cbn [negb andb].
  (* salted and encrypted in place *)
  rewrite encrypt_stage by (try assumption; lia).
  pose proof (encrypt_block_length device file sig1) as Hlen.
  destruct (encrypt_block device file sig1) as [c|]; [|reflexivity].
  specialize (Hlen c Hs1 ltac:(lia) eq_refl).
  destruct (Z.ltb_spec INT_MAX (Z.of_nat (length c))) as [|Hint];
    [reflexivity|].
  unfold INT_MAX in Hint.
  cbn [mbind option_bind]. status_ok.
  (* headers, initialization vector and outer signature *)
  destruct (sign_data_Some device (outer_block c) Hdev)
    as (s2 & Hsig2 & Hs2 & _).
  rewrite Hsig2. cbn [mbind option_bind].
  destruct (WriteDebugBufferToFile env "FWenc.bin" =? 0); [|reflexivity].
  cbn [negb andb].
  set (r := drop (length c) (inner_block file sig1 ++ j7)).
  assert (Hr : length r = (length file + 544 - length c)%nat).
  { subst r. unfold inner_block.
    rewrite length_drop, !length_app, length_VerificationHeader. lia. }
  clearbody r.
  destruct (cut r 256 ltac:(lia)) as (r1 & r2 & -> & Hr1).
  replace (concat [j0; j1; j2; bytes_of_string "Salted__"; salt; c;
                   r1 ++ r2])
    with (concat [j0; j1; j2; bytes_of_string "Salted__"; salt; c; r1; r2])
    by (cbn [concat]; rewrite <- ?app_assoc, ?app_nil_r; reflexivity).
  replace (Z.of_nat (length c) + (33 + 16) + 16)
    with (Z.of_nat (length c) + 65) by lia.
  replace (Z.of_nat (length c) + (33 + 16) + 2 * 16 + 256)
    with (Z.of_nat (length c) + 337) by lia.
  rewrite !uint32_small by lia.
  rewrite CreateAes128CbcEncryptionHeader_spec by seg_len.
  cbn [mbind option_bind]. status_ok.
  seg_splice [j0] j1.
  rewrite WriteAes128CbcIvToBuffer_spec by seg_len.
  cbn [mbind option_bind]. status_ok.
  seg_splice [j0; EncryptionHeader (Z.of_nat (length c) + 16)] j2.
  destruct (WriteDebugBufferToFile env "IV.bin" =? 0); [|reflexivity].
  cbn [negb andb].
  rewrite CreateSha512VerificatioinHeader_spec by seg_len.
  cbn [mbind option_bind]. status_ok.
  seg_splice (@nil (list byte)) j0.
  replace (concat [VerificationHeader (Z.of_nat (length c) + 65);
                   EncryptionHeader (Z.of_nat (length c) + 16);
                   iv_text IV; bytes_of_string "Salted__"; salt; c; r1; r2])
    with (concat [VerificationHeader (Z.of_nat (length c) + 65);
                  outer_block c; r1; r2])
    by (unfold outer_block, salted_prefix; cbn [concat];
        rewrite <- ?app_assoc; reflexivity).
  rewrite (call_CreateSha512VerificatioinSignature_spec env 1 _
             (outer_block c) s2);
    [|seg_read [VerificationHeader (Z.of_nat (length c) + 65)]
        (outer_block c); reflexivity
     |exact Hsig2].
  seg_write [VerificationHeader (Z.of_nat (length c) + 65); outer_block c]
    r1.
  destruct (fallen_off_value env 1 =? 0); [|reflexivity].
  destruct (WriteBufferToFile env outputFile =? 0); [|reflexivity].
  cbn [negb andb].
  replace (concat [VerificationHeader (Z.of_nat (length c) + 65);
                   outer_block c; s2; r2])
    with (concat [factory_layout c s2; r2])
    by (unfold factory_layout; cbn [concat];
        rewrite <- ?app_assoc; reflexivity).
  seg_read (@nil (list byte)) (factory_layout c s2).
  reflexivity.
Qed.

(** ** DecryptFactoryImage on a factory image *)

Lemma iv_text_cons (b : byte) (iv : list byte) :
  iv_text (b :: iv) = take 2 (sprintf_02x b) ++ iv_text iv.
Proof. unfold iv_text. cbn [flat_map]. rewrite <- app_assoc. reflexivity. Qed.

(** [sscanf] reads back the initialization vector that [sprintf] wrote. *)
Lemma scan_iv_text `{LS : LibsSpec} (iv : list byte) :
  forall (a rest old : list byte),
    length old = length iv ->
    imap (fun i o =>
            sscanf_2hhx
              (view (a ++ iv_text iv ++ rest)
                 (Z.of_nat (length a) + 2 * Z.of_nat i)) o) old
    = iv.
Proof.
  induction iv as [|b iv IH]; intros a rest old Hold.
  - destruct old; [reflexivity|discriminate].
  - destruct old as [|o old]; [discriminate|].
    injection Hold as Hold. rewrite imap_cons. f_equal.
    + unfold view.
      replace (Z.to_nat (Z.of_nat (length a) + 2 * Z.of_nat 0))
        with (length a) by lia.
      rewrite drop_app_length, iv_text_cons, <- app_assoc.
      apply sscanf_sprintf.
    + etrans; [|exact (IH (a ++ take 2 (sprintf_02x b)) rest old Hold)].
      apply imap_ext. intros i o' _. cbn [compose]. f_equal.
      rewrite iv_text_cons, <- !app_assoc. f_equal.
      rewrite length_app.
      change (length (take 2 (sprintf_02x b))) with 2%nat. lia.
Qed.

Lemma ConvertAsciiIvToHexArray_spec `{LS : LibsSpec}
    (a iv rest old : list byte) (p : Z) :
  p = Z.of_nat (length a) -> length old = length iv ->
  ConvertAsciiIvToHexArray (a ++ iv_text iv ++ rest) p old = (iv, 0).
Proof.
  intros -> Hold. unfold ConvertAsciiIvToHexArray.
  rewrite scan_iv_text by exact Hold. reflexivity.
Qed.

(** Decryption of what [EncryptAes128Cbc] wrote gives back the framed and
    signed recovery image. *)
Lemma decrypt_stage `{LS : LibsSpec}
    (device : M32FirmwareUtilDeviceInfoType)
    (file sig1 c pre rest out : list byte) :
  length sig1 = 256%nat ->
  Z.of_nat (length file) + 288 < 2 ^ 31 ->
  encrypt_block device file sig1 = Some c ->
  length pre = 65%nat ->
  length out = (length c + 16)%nat ->
  DecryptAes128Cbc (concat [pre; bytes_of_string "Salted__"; salt; c; rest])
    65 (Z.of_nat (length c) + 16) out (FirmwareKey device) IV
  = Some (inner_block file sig1
          ++ drop (length (inner_block file sig1)) out, 0).
Proof.
  intros Hs1 Hn Henc Hpre Hout.
  pose proof (encrypt_block_length device file sig1 c Hs1 ltac:(lia) Henc)
    as Hlen.
  assert (Hinl : encrypt_inl file = Z.of_nat (length file) + 272).
  { unfold encrypt_inl, M32_FIRMWARE_HEADER_LENGTH,
      M32_FIRMWARE_SIGNATURE_LENGTH, size_t.
    rewrite Z.mod_small by lia. rewrite int_small by lia. lia. }
  assert (Hinner : length (inner_block file sig1)
                   = (length file + 272)%nat).
  { unfold inner_block. rewrite !length_app, length_VerificationHeader.
    lia. }
  unfold DecryptAes128Cbc.
  seg_read [pre; bytes_of_string "Salted__"] salt.
  rewrite (view_concat [pre; bytes_of_string "Salted__"; salt] [c; rest])
    by seg_len.
  cbn [concat]. rewrite app_nil_r.
  replace (int (size_t (Z.of_nat (length c) + 16 - 16)))
    with (Z.of_nat (length c)).
  2:{ unfold size_t. replace (Z.of_nat (length c) + 16 - 16)
        with (Z.of_nat (length c)) by lia.
      rewrite Z.mod_small by lia. rewrite int_small by lia. reflexivity. }
  unfold encrypt_block in Henc.
  destruct (EVP_BytesToKey salt (bytes_of_string (FirmwareKey device)))
    as [key iv] eqn:Hkey.
  cbn [fst] in Henc.
  rewrite (EVP_Decrypt_Encrypt key IV
             (take (Z.to_nat (encrypt_inl file)) (inner_block file sig1))
             (encrypt_inl file) c rest);
    [|rewrite length_take; lia|exact Henc].
  do 2 (rewrite (take_ge (inner_block file sig1)) by lia).
  assert (Hfit : (length (inner_block file sig1) <= length out)%nat).
  { lia. }
  pose proof (write_bytes_app_at [] out (inner_block file sig1) 0 eq_refl
                Hfit) as Hw.
  cbn [app] in Hw. rewrite Hw. reflexivity.
Qed.

Ltac size_ok :=
  match goal with
  | |- context [?a <? ?b] => destruct (Z.ltb_spec a b); [lia|]
  end.

Lemma DecryptFactoryImage_eval `{LS : LibsSpec}
    (env : Env) (device : M32FirmwareUtilDeviceInfoType)
    (file sig1 c s2 : list byte) (outputFile : string) :
  length sig1 = 256%nat -> length s2 = 256%nat ->
  Z.of_nat (length file) + 353 < 2 ^ 31 ->
  encrypt_block device file sig1 = Some c ->
  verify_data device file sig1 = Some 1 ->
  verify_data device (outer_block c) s2 = Some 1 ->
  DecryptFactoryImage env (factory_layout c s2) outputFile device
  = Some
      (if negb (malloc_null env 0) && negb (fread_short env)
          && negb (malloc_null env 1)
          && (WriteBufferToFile env outputFile =? 0)
       then {| status := 0; output := Some file |}
       else failed).
Proof.
  intros Hs1 Hs2 Hn Henc Hv1 Hv2.
  set (VH := VerificationHeader (Z.of_nat (length c) + 65)).
  set (EH := EncryptionHeader (Z.of_nat (length c) + 16)).
  assert (HVH : length VH = 16%nat) by apply length_VerificationHeader.
  assert (HEH : length EH = 16%nat) by apply length_EncryptionHeader.
  assert (Hf1 : concat [VH; outer_block c; s2] = factory_layout c s2).
  { unfold factory_layout. cbn [concat]. rewrite app_nil_r. reflexivity. }
  assert (Hf2 : VH ++ EH ++ (iv_text IV ++ salted_prefix ++ c ++ s2)
                = factory_layout c s2).
  { unfold factory_layout, outer_block. rewrite <- !app_assoc.
    reflexivity. }
  assert (Hf3 : (VH ++ EH) ++ iv_text IV ++ (salted_prefix ++ c ++ s2)
                = factory_layout c s2).
  { rewrite <- Hf2, <- !app_assoc. reflexivity. }
  assert (Hf4 : concat [VH ++ EH ++ iv_text IV; bytes_of_string "Salted__";
                        salt; c; s2]
                = factory_layout c s2).
  { rewrite <- Hf2. unfold salted_prefix. cbn [concat].
    rewrite <- !app_assoc, app_nil_r. reflexivity. }
  pose proof (encrypt_block_length device file sig1 c Hs1 ltac:(lia) Henc)
    as Hlen.
  assert (Hinner : length (inner_block file sig1)
                   = (length file + 272)%nat).
  { unfold inner_block. rewrite !length_app, length_VerificationHeader.
    lia. }
  unfold DecryptFactoryImage, malloc.
  destruct (malloc_null env 0); [reflexivity|].
  destruct (fread_short env); [reflexivity|].
  cbn [negb andb].
  unfold M32_FIRMWARE_HEADER_LENGTH,
    M32_FIRMWARE_INITIALIZATION_VECTOR_LENGTH, AES_BLOCK_SIZE.
  cbv zeta.
  rewrite length_factory_layout.
  change (size_t (0 + 16)) with 16.
  change (size_t (16 + 16)) with 32.
  change (size_t (32 + 33)) with 65.
  change (size_t (65 + 16)) with 81.
  (* the outer header and signature *)
  pose proof (GetDataLengthFromVerificationHeader_app []
                (outer_block c ++ s2) (Z.of_nat (length c) + 65) 0) as Hg.
  cbn [app length] in Hg. change (Z.of_nat 0) with 0 in Hg.
  fold (factory_layout c s2) in Hg. rewrite Hg. clear Hg.
  cbn [mbind option_bind]. status_ok.
  rewrite size_t_int_small by lia.
  size_ok.
  rewrite (VerifySha512Signture_spec _ (outer_block c) s2);
    [|rewrite <- Hf1; seg_read [VH] (outer_block c); reflexivity
     |rewrite <- Hf1; seg_read [VH; outer_block c] s2; reflexivity].
  rewrite Hv2. cbn [mbind option_bind].
  change (1 =? 0) with false. cbv iota. status_ok.
  (* the encryption header and the initialization vector *)
  pose proof (GetDataLengthFromEncryptionHeader_app VH
                (iv_text IV ++ salted_prefix ++ c ++ s2)
                (Z.of_nat (length c) + 16) (Z.of_nat (length c) + 65))
    as Hg.
  fold EH in Hg. rewrite Hf2, HVH in Hg. change (Z.of_nat 16) with 16 in Hg.
  rewrite Hg. clear Hg.
  cbn [mbind option_bind]. status_ok.
  rewrite size_t_int_small by lia.
  size_ok.
  pose proof (ConvertAsciiIvToHexArray_spec (VH ++ EH) IV
                (salted_prefix ++ c ++ s2)
                (stack_junk env <$> seq 0 (Z.to_nat 16)) 32) as Hg.
  rewrite Hf3 in Hg. rewrite Hg; [|rewrite length_app; lia|reflexivity].
  clear Hg. status_ok. size_ok.
  destruct (malloc_null env 1); [reflexivity|].
  cbn [negb andb].
  (* decryption, the inner header and signature *)
  set (out := malloc_junk env 1 <$> seq 0 _).
  assert (Hout : length out = (length c + 16)%nat).
  { subst out. rewrite length_fmap, length_seq. lia. }
  clearbody out.
  pose proof (decrypt_stage device file sig1 c (VH ++ EH ++ iv_text IV) s2
                out Hs1 ltac:(lia) Henc) as Hg.
  rewrite Hf4 in Hg. rewrite Hg; [|seg_len|exact Hout]. clear Hg.
  cbn [mbind option_bind]. status_ok.
  set (tail := drop (length (inner_block file sig1)) out).
  unfold inner_block. rewrite <- !app_assoc.
  pose proof (GetDataLengthFromVerificationHeader_app []
                (file ++ sig1 ++ tail) (Z.of_nat (length file))
                (Z.of_nat (length c) + 16)) as Hg.
  cbn [app length] in Hg. change (Z.of_nat 0) with 0 in Hg.
  rewrite Hg. clear Hg.
  cbn [mbind option_bind]. status_ok.
  rewrite size_t_int_small by lia.
  size_ok.
  replace (VerificationHeader (Z.of_nat (length file)) ++ file ++ sig1
           ++ tail)
    with (concat [VerificationHeader (Z.of_nat (length file)); file; sig1;
                  tail])
    by (cbn [concat]; rewrite app_nil_r; reflexivity).
  rewrite (VerifySha512Signture_spec _ file sig1);
    [|seg_read [VerificationHeader (Z.of_nat (length file))] file;
      reflexivity
     |seg_read [VerificationHeader (Z.of_nat (length file)); file] sig1;
      reflexivity].
  rewrite Hv1. cbn [mbind option_bind].
  change (1 =? 0) with false. cbv iota. status_ok.
  destruct (WriteBufferToFile env outputFile =? 0); [|reflexivity].
  cbn [negb].
  seg_read [VerificationHeader (Z.of_nat (length file))] file.
  reflexivity.
Qed.

(** ** The small instance of the libraries has the assumed properties *)

Lemma Toy_encrypt_Some (key iv buf : list byte) (inl : Z) :
  0 <= inl <= Z.of_nat (length buf) ->
  Toy.encrypt key iv buf inl
  = Some (take (Z.to_nat inl) buf
          ++ replicate (Z.to_nat (16 - inl mod 16))
               (to_u8 (16 - inl mod 16))).
Proof.
  intros Hinl. unfold Toy.encrypt.
  destruct (Z.ltb_spec inl 0); [lia|].
  destruct (Z.ltb_spec (Z.of_nat (length buf)) inl); [lia|].
  reflexivity.
Qed.

Lemma Toy_decrypt_encrypt (key iv buf rest : list byte) (inl : Z) :
  0 <= inl <= Z.of_nat (length buf) ->
  let encrypted :=
    take (Z.to_nat inl) buf
    ++ replicate (Z.to_nat (16 - inl mod 16)) (to_u8 (16 - inl mod 16)) in
  Toy.decrypt key iv (encrypted ++ rest) (Z.of_nat (length encrypted))
  = Some (take (Z.to_nat inl) buf).
Proof.
  intros Hinl encrypted.
  set (n := 16 - inl mod 16) in *.
  assert (Hn : 1 <= n <= 16) by (subst n; lia).
  assert (Hlen : Z.of_nat (length encrypted) = inl + n).
  { subst encrypted. rewrite length_app, length_take, length_replicate.
    lia. }
  assert (Hlast : last encrypted = Some (to_u8 n)).
  { subst encrypted.
    replace (Z.to_nat n) with (S (Z.to_nat (n - 1))) by lia.
    rewrite replicate_S_end, app_assoc. apply last_snoc. }
  unfold Toy.decrypt.
  destruct (Z.leb_spec (Z.of_nat (length encrypted)) 0); [lia|].
  destruct (Z.ltb_spec (Z.of_nat (length (encrypted ++ rest)))
              (Z.of_nat (length encrypted)));
    [rewrite length_app in *; lia|].
  replace (Z.of_nat (length encrypted) mod 16 =? 0) with true
    by (symmetry; apply Z.eqb_eq; subst n; lia).
  cbn [orb negb]. cbv zeta.
  rewrite Nat2Z.id, take_app_length, Hlast. cbn [default from_option id].
  rewrite u8_to_u8, Z.mod_small by lia.
  destruct (Z.leb_spec 1 n); [|lia].
  destruct (Z.leb_spec n 16); [|lia].
  cbn [andb]. f_equal.
  replace (Z.of_nat (length encrypted) - n) with inl by lia.
  subst encrypted. rewrite take_app_le by (rewrite length_take; lia).
  apply take_idemp.
Qed.

#[global] Instance Toy_libs_spec : LibsSpec Toy.libs.
Proof.
  split.
  - intros data. eexists. reflexivity.
  - intros device Hdev. unfold M32FirmwareUtilDeviceInfos in Hdev.
    assert (Hkey : exists k,
               Toy.read_private (PrivateKey device) (Passphrase device)
               = Some k
               /\ Toy.read_public (PublicKey device) = Some k).
    { repeat (apply elem_of_cons in Hdev as [->|Hdev];
              [eexists; split; reflexivity|]).
      apply elem_of_nil in Hdev. destruct Hdev. }
    destruct Hkey as (k & Hsk & Hpk).
    exists k, k. split; [exact Hsk|]. split; [exact Hpk|].
    intros digest. exists (Toy.sign k digest).
    split; [reflexivity|]. split.
    + unfold Toy.sign. cbn [length]. rewrite length_resize. reflexivity.
    + cbn. unfold Toy.verify. rewrite bool_decide_eq_true_2; reflexivity.
  - intros key iv buf inl Hinl. cbn.
    rewrite Toy_encrypt_Some by lia. eexists. reflexivity.
  - intros key iv buf inl Hinl. cbn. unfold Toy.encrypt.
    destruct (Z.ltb_spec inl 0); [reflexivity|lia].
  - intros key iv buf inl Hinl. cbn.
    rewrite !Toy_encrypt_Some by (rewrite ?length_take; lia).
    rewrite take_idemp. reflexivity.
  - intros key iv buf inl encrypted Hinl. cbn.
    rewrite Toy_encrypt_Some by lia. intros [= <-].
    rewrite length_app, length_take, length_replicate.
    unfold AES_BLOCK_SIZE. lia.
  - intros key iv buf inl encrypted rest Hinl. cbn.
    rewrite Toy_encrypt_Some by lia. intros [= <-].
    apply Toy_decrypt_encrypt. exact Hinl.
  - intros b rest old. cbn. destruct b; reflexivity.
Qed.

(** ** What a successful run of CreateFactoryImageFromRecoveryImage wrote *)

(** A recovery image too large for the size computation to hold: the
    buffer is too small for the image, and no run completes. *)
Lemma CreateFactoryImageFromRecoveryImage_overflow `{L : Libs}
    (env : Env) (file : list byte) (outputFile : string)
    (device : M32FirmwareUtilDeviceInfoType) (o : Outcome) :
  2 ^ 64 <= Z.of_nat (length file) + 625 ->
  CreateFactoryImageFromRecoveryImage env file outputFile device = Some o ->
  o = failed.
Proof.
  intros Hn. unfold CreateFactoryImageFromRecoveryImage, malloc.
  destruct (malloc_null env 0); [intros [= <-]; reflexivity|].
  destruct (fread_short env); [intros [= <-]; reflexivity|].
  unfold M32_FIRMWARE_HEADER_LENGTH, M32_FIRMWARE_SIGNATURE_LENGTH,
    M32_FIRMWARE_DECRYPTION_INFO_LENGTH, M32_FIRMWARE_SALT_INFO_LENGTH,
    M32_FIRMWARE_INITIALIZATION_VECTOR_LENGTH, AES_BLOCK_SIZE.
  cbv zeta.
  match goal with
  | |- context [write_bytes ?m ?p file] =>
      destruct (write_bytes m p file) as [m'|] eqn:Hw
  end; [|discriminate].
  apply write_bytes_inv in Hw as (_ & Hw & _).
  rewrite length_fmap, length_seq in Hw. unfold size_t in Hw. lia.
Qed.

Lemma CreateFactoryImageFromRecoveryImage_success `{LS : LibsSpec}
    (env : Env) (file : list byte) (outputFile : string)
    (device : M32FirmwareUtilDeviceInfoType) (o : Outcome) :
  device ∈ M32FirmwareUtilDeviceInfos ->
  CreateFactoryImageFromRecoveryImage env file outputFile device = Some o ->
  status o = 0 ->
  exists image,
    factory_image device file = Some image /\ output o = Some image.
Proof.
  intros Hdev Hrun Hst.
  destruct (Z.lt_ge_cases (Z.of_nat (length file) + 625) (2 ^ 64))
    as [Hn|Hn].
  - destruct (sign_data_Some device file Hdev) as (sig1 & Hsig1 & _).
    rewrite (CreateFactoryImageFromRecoveryImage_eval env file outputFile
               device sig1 Hdev Hn Hsig1) in Hrun.
    unfold factory_image. rewrite Hsig1. cbn [mbind option_bind].
    destruct (negb (malloc_null env 0) && _ && _ && _ && _);
      [|injection Hrun as <-; discriminate].
    destruct (encrypt_block device file sig1) as [c|];
      [|injection Hrun as <-; discriminate].
    destruct (INT_MAX <? Z.of_nat (length c)); [discriminate|].
    cbn [mbind option_bind].
    destruct (sign_data device (outer_block c)) as [s2|]; [|discriminate].
    cbn [mbind option_bind] in *.
    destruct ((WriteDebugBufferToFile env "FWenc.bin" =? 0) && _ && _ && _);
      injection Hrun as <-; [|discriminate].
    eexists. split; reflexivity.
  - apply CreateFactoryImageFromRecoveryImage_overflow in Hrun as ->;
      [discriminate|exact Hn].
Qed.

(** ** Determinism *)

(** C10: CreateFactoryImageFromRecoveryImage is deterministic.  The salt
    and the initialization vector are the constants of the source, and two
    runs that succeed on the same recovery image with the same device, in
    whatever environments (contents of fresh memory, debug files, names of
    the output files), write the same bytes; the salt is at offset 73 and
    the text of the initialization vector at offset 32 of what they
    write. *)
Theorem factory_image_deterministic `{LS : LibsSpec}
    (env1 env2 : Env) (file : list byte) (outputFile1 outputFile2 : string)
    (device : M32FirmwareUtilDeviceInfoType) (o1 o2 : Outcome) :
  device ∈ M32FirmwareUtilDeviceInfos ->
  CreateFactoryImageFromRecoveryImage env1 file outputFile1 device
  = Some o1 ->
  CreateFactoryImageFromRecoveryImage env2 file outputFile2 device
  = Some o2 ->
  status o1 = 0 -> status o2 = 0 ->
  salt = [x65; xfc; x43; xbc; x67; xa3; x23; x35]
  /\ IV = [x99; x38; x0c; x25; xae; xcc; x79; xd3;
           x9b; x14; x5a; xc0; x43; x53; xbb; xe9]
  /\ output o1 = output o2
  /\ exists image,
       output o1 = Some image
       /\ read_bytes image 73 8 = Some salt
       /\ read_bytes image 32 33 = Some (iv_text IV).
Proof.
  intros Hdev Hrun1 Hrun2 Hst1 Hst2.
  destruct (CreateFactoryImageFromRecoveryImage_success env1 file
              outputFile1 device o1 Hdev Hrun1 Hst1)
    as (image & Himage & Ho1).
  destruct (CreateFactoryImageFromRecoveryImage_success env2 file
              outputFile2 device o2 Hdev Hrun2 Hst2)
    as (image' & Himage' & Ho2).
  rewrite Himage in Himage'. injection Himage' as <-.
  split; [reflexivity|]. split; [reflexivity|].
  split; [congruence|].
  exists image. split; [exact Ho1|].
  unfold factory_image in Himage.
  destruct (sign_data device file) as [sig1|]; [|discriminate].
  cbn [mbind option_bind] in Himage.
  destruct (encrypt_block device file sig1) as [c|]; [|discriminate].
  cbn [mbind option_bind] in Himage.
  destruct (sign_data device (outer_block c)) as [s2|]; [|discriminate].
  injection Himage as <-.
  set (VH := VerificationHeader (Z.of_nat (length c) + 65)).
  set (EH := EncryptionHeader (Z.of_nat (length c) + 16)).
  assert (HVH : length VH = 16%nat) by apply length_VerificationHeader.
  assert (HEH : length EH = 16%nat) by apply length_EncryptionHeader.
  split.
  - replace (factory_layout c s2)
      with (concat [VH ++ EH ++ iv_text IV ++ bytes_of_string "Salted__";
                    salt; c ++ s2])
      by (unfold factory_layout, outer_block, salted_prefix;
          cbn [concat]; rewrite <- !app_assoc, app_nil_r; reflexivity).
    seg_read [VH ++ EH ++ iv_text IV ++ bytes_of_string "Salted__"] salt.
    reflexivity.
  - replace (factory_layout c s2)
      with (concat [VH ++ EH; iv_text IV; salted_prefix ++ c ++ s2])
      by (unfold factory_layout, outer_block;
          cbn [concat]; rewrite <- !app_assoc, app_nil_r; reflexivity).
    seg_read [VH ++ EH] (iv_text IV).
    reflexivity.
Qed.

Lemma factory_image_deterministic_witness :
  salt = [x65; xfc; x43; xbc; x67; xa3; x23; x35]
  /\ IV = [x99; x38; x0c; x25; xae; xcc; x79; xd3;
           x9b; x14; x5a; xc0; x43; x53; xbb; xe9]
  /\ output
       {| status := 0;
          output := @factory_image Toy.libs Toy.M32 Toy.image |}
     = output
         {| status := 0;
            output := @factory_image Toy.libs Toy.M32 Toy.image |}
  /\ exists image,
       output
         {| status := 0;
            output := @factory_image Toy.libs Toy.M32 Toy.image |}
       = Some image
       /\ read_bytes image 73 8 = Some salt
       /\ read_bytes image 32 33 = Some (iv_text IV).
Proof.
  apply (@factory_image_deterministic Toy.libs Toy_libs_spec
           Toy.env Toy.other_env Toy.image "factory.bin" "again.bin"
           Toy.M32).
  - exact Toy_M32_in_table.
  - vm_compute. reflexivity.
  - vm_compute. reflexivity.
  - reflexivity.
  - reflexivity.
Defined.

(** ** The inner signature *)

(** C4, as the code has it: in a successful run of
    CreateFactoryImageFromRecoveryImage the inner signature, 256 bytes, is
    computed over the bytes of the recovery image alone; the inner header,
    the recovery image and that signature are then encrypted together, and
    the outer signature covers the encryption header and what follows. *)
Theorem inner_signature_over_recovery_image `{LS : LibsSpec}
    (env : Env) (file : list byte) (outputFile : string)
    (device : M32FirmwareUtilDeviceInfoType) (o : Outcome) :
  device ∈ M32FirmwareUtilDeviceInfos ->
  CreateFactoryImageFromRecoveryImage env file outputFile device = Some o ->
  status o = 0 ->
  exists signature encrypted outer,
    sign_data device file = Some signature
    /\ length signature = 256%nat
    /\ EVP_Encrypt
         (EVP_BytesToKey salt (bytes_of_string (FirmwareKey device))).1 IV
         (take (Z.to_nat (encrypt_inl file))
            (VerificationHeader (Z.of_nat (length file)) ++ file
             ++ signature))
         (encrypt_inl file)
       = Some encrypted
    /\ sign_data device (outer_block encrypted) = Some outer
    /\ output o = Some (factory_layout encrypted outer).
Proof.
  intros Hdev Hrun Hst.
  destruct (CreateFactoryImageFromRecoveryImage_success env file outputFile
              device o Hdev Hrun Hst) as (image & Himage & Ho).
  unfold factory_image in Himage.
  destruct (sign_data_Some device file Hdev) as (sig1 & Hsig1 & Hs1 & _).
  rewrite Hsig1 in Himage. cbn [mbind option_bind] in Himage.
  destruct (encrypt_block device file sig1) as [c|] eqn:Hc; [|discriminate].
  cbn [mbind option_bind] in Himage.
  destruct (sign_data device (outer_block c)) as [s2|] eqn:Hsig2;
    [|discriminate].
  injection Himage as <-.
  exists sig1, c, s2. repeat split; assumption.
Qed.

Lemma inner_signature_over_recovery_image_witness :
  exists signature encrypted outer,
    @sign_data Toy.libs Toy.M32 Toy.image = Some signature
    /\ length signature = 256%nat
    /\ @EVP_Encrypt Toy.libs
         (@EVP_BytesToKey Toy.libs salt
            (bytes_of_string (FirmwareKey Toy.M32))).1 IV
         (take (Z.to_nat (encrypt_inl Toy.image))
            (VerificationHeader (Z.of_nat (length Toy.image)) ++ Toy.image
             ++ signature))
         (encrypt_inl Toy.image)
       = Some encrypted
    /\ @sign_data Toy.libs Toy.M32 (outer_block encrypted) = Some outer
    /\ output
         {| status := 0;
            output := @factory_image Toy.libs Toy.M32 Toy.image |}
       = Some (factory_layout encrypted outer).
Proof.
  apply (@inner_signature_over_recovery_image Toy.libs Toy_libs_spec
           Toy.env Toy.image "factory.bin" Toy.M32).
  - exact Toy_M32_in_table.
  - vm_compute. reflexivity.
  - reflexivity.
Defined.

(** C4 as stated fails.  On the 1024-byte image [Toy.image], with the
    small instance of the libraries, whose cipher leaves the bytes as they
    are, the run succeeds; the 256 bytes that follow the recovery image are
    the signature of the recovery image, and they are not the signature of
    the inner header followed by the recovery image; what is written is not
    the factory image that the specification describes. *)
Lemma inner_signature_not_over_framed_buffer :
  exists image signature,
    @CreateFactoryImageFromRecoveryImage Toy.libs Toy.env Toy.image
      "factory.bin" Toy.M32
    = Some {| status := 0; output := Some image |}
    /\ read_bytes image (97 + 1024) 256 = Some signature
    /\ @sign_data Toy.libs Toy.M32 Toy.image = Some signature
    /\ @sign_data Toy.libs Toy.M32
         (VerificationHeader 1024 ++ Toy.image) <> Some signature
    /\ @factory_image_as_specified Toy.libs Toy.M32 Toy.image
       <> Some image.
Proof.
  eexists. eexists.
  split; [vm_compute; reflexivity|].
  split; [vm_compute; reflexivity|].
  split; [vm_compute; reflexivity|].
  split; intros H; vm_compute in H; discriminate H.
Qed.

(** ** Round trip *)

(** C1, for recovery images shorter than [2^31 - 353] bytes and the
    devices of the table: CreateFactoryImageFromRecoveryImage succeeds when
    the environment lets it through, and what DecryptFactoryImage recovers
    from the output of a successful run, with the same device, is exactly
    the recovery image; that run fails only when memory allocation, reading
    the input or writing the output fails. *)
Theorem round_trip `{LS : LibsSpec}
    (env1 env2 : Env) (x : list byte) (outputFile1 outputFile2 : string)
    (device : M32FirmwareUtilDeviceInfoType) :
  device ∈ M32FirmwareUtilDeviceInfos ->
  Z.of_nat (length x) + 353 < 2 ^ 31 ->
  (build_environment_ok env1 outputFile1 = true ->
   exists image,
     CreateFactoryImageFromRecoveryImage env1 x outputFile1 device
     = Some {| status := 0; output := Some image |})
  /\ forall image,
       CreateFactoryImageFromRecoveryImage env1 x outputFile1 device
       = Some {| status := 0; output := Some image |} ->
       DecryptFactoryImage env2 image outputFile2 device
       = Some
           (if split_environment_ok env2 outputFile2
            then {| status := 0; output := Some x |}
            else failed).
Proof.
  intros Hdev Hn.
  destruct (sign_data_Some device x Hdev) as (sig1 & Hsig1 & Hs1 & Hv1).
  split.
  - intros Henv. unfold build_environment_ok in Henv.
    repeat (apply andb_prop in Henv as [Henv ?]).
    rewrite (CreateFactoryImageFromRecoveryImage_eval env1 x outputFile1
               device sig1 Hdev ltac:(lia) Hsig1).
    repeat match goal with
           | H : _ = true |- _ => rewrite H; clear H
           end.
    cbn [andb].
    destruct (EVP_Encrypt_succeeds
                (EVP_BytesToKey salt (bytes_of_string (FirmwareKey device))).1
                IV
                (take (Z.to_nat (encrypt_inl x)) (inner_block x sig1))
                (encrypt_inl x)) as [c Hc].
    { assert (Hinl : encrypt_inl x = Z.of_nat (length x) + 272).
      { unfold encrypt_inl, M32_FIRMWARE_HEADER_LENGTH,
          M32_FIRMWARE_SIGNATURE_LENGTH, size_t.
        rewrite Z.mod_small by lia. rewrite int_small by lia. lia. }
      unfold inner_block.
      rewrite length_take, !length_app, length_VerificationHeader. lia. }
    fold (encrypt_block device x sig1) in Hc. rewrite Hc.
    pose proof (encrypt_block_length device x sig1 c Hs1 ltac:(lia) Hc)
      as Hlen.
    destruct (Z.ltb_spec INT_MAX (Z.of_nat (length c)));
      [unfold INT_MAX in *; lia|].
    destruct (sign_data_Some device (outer_block c) Hdev)
      as (s2 & Hsig2 & _).
    rewrite Hsig2. cbn [mbind option_bind]. eexists. reflexivity.
  - intros image Hrun.
    destruct (CreateFactoryImageFromRecoveryImage_success env1 x outputFile1
                device _ Hdev Hrun eq_refl) as (image' & Himage & [= <-]).
    unfold factory_image in Himage.
    rewrite Hsig1 in Himage. cbn [mbind option_bind] in Himage.
    destruct (encrypt_block device x sig1) as [c|] eqn:Hc; [|discriminate].
    cbn [mbind option_bind] in Himage.
    destruct (sign_data_Some device (outer_block c) Hdev)
      as (s2 & Hsig2 & Hs2 & Hv2).
    rewrite Hsig2 in Himage. injection Himage as <-.
    apply (DecryptFactoryImage_eval env2 device x sig1 c s2 outputFile2);
      assumption.
Qed.

Lemma round_trip_witness :
  (exists image,
     @CreateFactoryImageFromRecoveryImage Toy.libs Toy.env Toy.image
       "factory.bin" Toy.M32
     = Some {| status := 0; output := Some image |})
  /\ forall image,
       @CreateFactoryImageFromRecoveryImage Toy.libs Toy.env Toy.image
         "factory.bin" Toy.M32
       = Some {| status := 0; output := Some image |} ->
       @DecryptFactoryImage Toy.libs Toy.other_env image "recovered.bin"
         Toy.M32
       = Some {| status := 0; output := Some Toy.image |}.
Proof.
  destruct (@round_trip Toy.libs Toy_libs_spec Toy.env Toy.other_env
              Toy.image "factory.bin" "recovered.bin" Toy.M32)
    as [Hbuild Hsplit].
  - exact Toy_M32_in_table.
  - vm_compute. reflexivity.
  - split.
    + apply Hbuild. reflexivity.
    + exact Hsplit.
Defined.

(** The round trip on an image of 1025 bytes, evaluated. *)
Example round_trip_1025 :
  let x := (fun i => to_u8 (Z.of_nat i * 5 + 1)) <$> seq 0 1025 in
  (o ← @CreateFactoryImageFromRecoveryImage Toy.libs Toy.env x
         "factory.bin" Toy.M32;
   image ← output o;
   @DecryptFactoryImage Toy.libs Toy.env image "recovered.bin" Toy.M32)
  = Some {| status := 0; output := Some x |}.
Proof. vm_compute. reflexivity. Qed.

(** *** Images of 4 GiB and more

    The lengths in the headers are 32 bits wide and [EVP_EncryptUpdate]
    takes its length as an [int]: of an image of [2^32 + 1024] bytes, 1296
    bytes are encrypted and the inner header records 1024 bytes. *)

Lemma length_image_over_4GiB :
  Z.of_nat (length image_over_4GiB) = 2 ^ 32 + 1024.
Proof.
  unfold image_over_4GiB. rewrite length_replicate. apply Z2Nat.id. lia.
Qed.

Lemma take_image_over_4GiB :
  take 1280 image_over_4GiB = replicate 1280 x00.
Proof.
  unfold image_over_4GiB. rewrite take_replicate.
  replace (1280 `min` Z.to_nat (2 ^ 32 + 1024))%nat with 1280%nat by lia.
  reflexivity.
Qed.

Lemma factory_image_truncated (x : list byte) :
  Z.of_nat (length x) = 2 ^ 32 + 1024 ->
  take 1280 x = replicate 1280 x00 ->
  exists sig1 c s2,
    @sign_data Toy.libs Toy.M32 x = Some sig1
    /\ @encrypt_block Toy.libs Toy.M32 x sig1 = Some c
    /\ length c = 1312%nat
    /\ @sign_data Toy.libs Toy.M32 (outer_block c) = Some s2
    /\ @DecryptFactoryImage Toy.libs Toy.env (factory_layout c s2)
         "recovered.bin" Toy.M32
       = Some failed.
Proof.
  intros Hlen Htake.
  assert (Hdigest : Toy.digest x = replicate 64 x00).
  { unfold Toy.digest. rewrite resize_le by lia.
    replace (take 64 x) with (take 64 (take 1280 x))
      by (rewrite take_take; reflexivity).
    rewrite Htake. reflexivity. }
  assert (Hinl : encrypt_inl x = 1296).
  { unfold encrypt_inl. rewrite Hlen. reflexivity. }
  set (sig1 := Toy.sign x32 (replicate 64 x00)).
  assert (Hsig1 : @sign_data Toy.libs Toy.M32 x = Some sig1).
  { unfold sign_data.
    change (@SHA512 Toy.libs x) with (Some (Toy.digest x)).
    rewrite Hdigest. reflexivity. }
  assert (Hblock :
            @encrypt_block Toy.libs Toy.M32 x sig1
            = Toy.encrypt
                (Toy.bytes_to_key salt
                   (bytes_of_string (FirmwareKey Toy.M32))).1 IV
                (VerificationHeader (2 ^ 32 + 1024) ++ replicate 1280 x00)
                1296).
  { unfold encrypt_block, inner_block. rewrite Hinl.
    change (Z.to_nat 1296) with 1296%nat.
    rewrite take_app, length_VerificationHeader.
    rewrite (take_ge (VerificationHeader _))
      by (rewrite length_VerificationHeader; lia).
    change (1296 - 16)%nat with 1280%nat.
    rewrite take_app_le by lia.
    rewrite Htake, Hlen. reflexivity. }
  exists sig1. eexists. eexists.
  split; [exact Hsig1|].
  split; [rewrite Hblock; vm_compute; reflexivity|].
  split; [vm_compute; reflexivity|].
  split.
  - vm_compute. reflexivity.
  - vm_compute. reflexivity.
Qed.

Lemma round_trip_fails_when_truncated (x : list byte) :
  Z.of_nat (length x) = 2 ^ 32 + 1024 ->
  take 1280 x = replicate 1280 x00 ->
  (1024 <= length x)%nat
  /\ exists image,
       @CreateFactoryImageFromRecoveryImage Toy.libs Toy.env x
         "factory.bin" Toy.M32
       = Some {| status := 0; output := Some image |}
       /\ @DecryptFactoryImage Toy.libs Toy.env image "recovered.bin"
            Toy.M32
          = Some failed
       /\ @DecryptFactoryImage Toy.libs Toy.env image "recovered.bin"
            Toy.M32
          <> Some {| status := 0; output := Some x |}.
Proof.
  intros Hlen Htake.
  split; [lia|].
  destruct (factory_image_truncated x Hlen Htake)
    as (sig1 & c & s2 & Hsig1 & Hc & Hlenc & Hsig2 & Hsplit).
  exists (factory_layout c s2). split; [|split; [exact Hsplit|]].
  - rewrite (@CreateFactoryImageFromRecoveryImage_eval Toy.libs
               Toy_libs_spec Toy.env x "factory.bin" Toy.M32 sig1
               Toy_M32_in_table ltac:(lia) Hsig1).
    rewrite Hc, Hlenc, Hsig2. reflexivity.
  - rewrite Hsplit. intros [=].
Qed.

(** C1 as stated fails: the run on the image of [2^32 + 1024] zero bytes
    succeeds, and DecryptFactoryImage does not recover the image from what
    was written; it fails. *)
Lemma round_trip_fails_over_4GiB :
  (1024 <= length image_over_4GiB)%nat
  /\ exists image,
       @CreateFactoryImageFromRecoveryImage Toy.libs Toy.env
         image_over_4GiB "factory.bin" Toy.M32
       = Some {| status := 0; output := Some image |}
       /\ @DecryptFactoryImage Toy.libs Toy.env image "recovered.bin"
            Toy.M32
          = Some failed
       /\ @DecryptFactoryImage Toy.libs Toy.env image "recovered.bin"
            Toy.M32
          <> Some {| status := 0; output := Some image_over_4GiB |}.
Proof.
  exact (round_trip_fails_when_truncated image_over_4GiB
           length_image_over_4GiB take_image_over_4GiB).
Qed.

(** ** The status of CreateSha512VerificatioinSignature *)

(** C3: the status that CreateSha512VerificatioinSignature computes does
    not reach its caller, the function ends without a [return].  With the
    device [Toy.locked], whose private key does not open, the function
    leaves [status] at 1 and writes no signature; the caller reads the
    value that the environment leaves, here 0, and
    CreateFactoryImageFromRecoveryImage goes on, reports success and
    writes, where the inner signature belongs, the 256 bytes that [malloc]
    left there. *)
Theorem signature_status_not_returned :
  @CreateSha512VerificatioinSignature Toy.libs (replicate 260 x00) 0 4
    Toy.locked
  = Some (replicate 260 x00, 1)
  /\ @call_CreateSha512VerificatioinSignature Toy.libs Toy.env 0
       (replicate 260 x00) 0 4 Toy.locked
     = Some (replicate 260 x00, 0)
  /\ exists image,
       @CreateFactoryImageFromRecoveryImage Toy.libs Toy.env Toy.image
         "factory.bin" Toy.locked
       = Some {| status := 0; output := Some image |}
       /\ read_bytes image (97 + 1024) 256 = Some (replicate 256 xaa).
Proof.
  split; [vm_compute; reflexivity|].
  split; [vm_compute; reflexivity|].
  eexists. split.
  - vm_compute. reflexivity.
  - vm_compute. reflexivity.
Qed.

(** * Further properties of the code *)

(** ** The header codec *)

Lemma header_starts_with_MH01_app (a rest : list byte) (b0 b1 b2 b3 : byte) :
  header_starts_with_MH01 (a ++ b0 :: b1 :: b2 :: b3 :: rest)
    (Z.of_nat (length a))
  = Some (bool_decide ([b0; b1; b2; b3] = bytes_of_string "MH01")).
Proof.
  unfold header_starts_with_MH01.
  rewrite <- (Z.add_0_r (Z.of_nat (length a))) at 1.
  rewrite !load_app_r by lia.
  change (Z.to_nat 0) with 0%nat. change (Z.to_nat 1) with 1%nat.
  change (Z.to_nat 2) with 2%nat. change (Z.to_nat 3) with 3%nat.
  cbn [lookup list_lookup fmap option_fmap option_map mbind option_bind].
  change 77 with (u8 x4d). change 72 with (u8 x48).
  change 48 with (u8 x30). change 49 with (u8 x31).
  change (bytes_of_string "MH01") with [x4d; x48; x30; x31].
  destruct (Z.eqb_spec (u8 b0) (u8 x4d)) as [->%u8_inj|H0]; cbn [negb];
    [|rewrite bool_decide_eq_false_2; congruence].
  destruct (Z.eqb_spec (u8 b1) (u8 x48)) as [->%u8_inj|H1]; cbn [negb];
    [|rewrite bool_decide_eq_false_2; congruence].
  destruct (Z.eqb_spec (u8 b2) (u8 x30)) as [->%u8_inj|H2]; cbn [negb];
    [|rewrite bool_decide_eq_false_2; congruence].
  destruct (Z.eqb_spec (u8 b3) (u8 x31)) as [->%u8_inj|H3];
    [rewrite bool_decide_eq_true_2; reflexivity
    |rewrite bool_decide_eq_false_2; congruence].
Qed.

(** Four bytes read at an offset, as the list that holds them there. *)
Lemma read_bytes_4 (m : list byte) (p : Z) (l : list byte) :
  read_bytes m p 4 = Some l ->
  exists a b0 b1 b2 b3 rest,
    m = a ++ b0 :: b1 :: b2 :: b3 :: rest
    /\ p = Z.of_nat (length a) /\ l = [b0; b1; b2; b3].
Proof.
  intros (Hp & _ & Hlen & ->)%read_bytes_inv.
  destruct (split_at m p ltac:(lia)) as (a & r & -> & ->).
  rewrite length_app in Hlen. rewrite Nat2Z.id, drop_app_length.
  destruct r as [|b0 [|b1 [|b2 [|b3 rest]]]]; cbn [length] in Hlen; try lia.
  exists a, b0, b1, b2, b3, rest. repeat split; reflexivity.
Qed.

(** X1: a verification header is read back.  For a length below [2^31],
    [CreateSha512VerificatioinHeader] succeeds on 16 bytes of room, changes
    those 16 bytes only, and [GetDataLengthFromVerificationHeader] then
    returns 0 and that length. *)
Theorem VerificationHeader_round_trip (m : list byte)
    (buffer imageSize old : Z) :
  0 <= buffer -> buffer + 16 <= Z.of_nat (length m) ->
  0 <= imageSize < 2 ^ 31 ->
  exists m',
    CreateSha512VerificatioinHeader m buffer imageSize = Some (m', 0)
    /\ length m' = length m
    /\ take (Z.to_nat buffer) m' = take (Z.to_nat buffer) m
    /\ drop (Z.to_nat buffer + 16) m' = drop (Z.to_nat buffer + 16) m
    /\ GetDataLengthFromVerificationHeader m' buffer old
       = Some (0, imageSize).
Proof.
  intros Hb Hm Hn.
  rewrite CreateSha512VerificatioinHeader_spec by assumption.
  eexists. split; [reflexivity|].
  destruct (split_at m buffer ltac:(lia)) as (a & l & -> & ->).
  rewrite length_app in Hm.
  rewrite splice_app_r, (length_VerificationHeader imageSize), Nat2Z.id.
  split.
  { rewrite !length_app, (length_VerificationHeader imageSize), length_drop.
    lia. }
  split.
  { rewrite !take_app_length. reflexivity. }
  split.
  { rewrite !drop_app_add.
    rewrite (drop_app_length' (VerificationHeader imageSize))
      by (symmetry; apply length_VerificationHeader).
    reflexivity. }
  rewrite GetDataLengthFromVerificationHeader_app.
  rewrite size_t_int_small by assumption. reflexivity.
Qed.

Lemma VerificationHeader_round_trip_witness :
  exists m',
    CreateSha512VerificatioinHeader (replicate 20 xff) 3 1089
    = Some (m', 0)
    /\ length m' = length (replicate 20 xff)
    /\ take (Z.to_nat 3) m' = take (Z.to_nat 3) (replicate 20 xff)
    /\ drop (Z.to_nat 3 + 16) m' = drop (Z.to_nat 3 + 16) (replicate 20 xff)
    /\ GetDataLengthFromVerificationHeader m' 3 7 = Some (0, 1089).
Proof.
  apply (VerificationHeader_round_trip (replicate 20 xff) 3 1089 7).
  - lia.
  - simpl. lia.
  - lia.
Defined.

(** X2: both decoders reject a header that does not start with [MH01]:
    they return 1 and leave [dataLength] as it was. *)
Theorem decoders_reject_wrong_magic (m : list byte) (header old : Z)
    (magic : list byte) :
  read_bytes m header 4 = Some magic ->
  magic <> bytes_of_string "MH01" ->
  GetDataLengthFromVerificationHeader m header old = Some (1, old)
  /\ GetDataLengthFromEncryptionHeader m header old = Some (1, old).
Proof.
  intros Hread Hmagic.
  destruct (read_bytes_4 m header magic Hread)
    as (a & b0 & b1 & b2 & b3 & rest & -> & -> & ->).
  unfold GetDataLengthFromVerificationHeader,
    GetDataLengthFromEncryptionHeader.
  rewrite header_starts_with_MH01_app.
  rewrite bool_decide_eq_false_2 by exact Hmagic.
  split; reflexivity.
Qed.

Lemma decoders_reject_wrong_magic_witness :
  GetDataLengthFromVerificationHeader
    (bytes_of_string "MH02" ++ replicate 12 x00) 0 7 = Some (1, 7)
  /\ GetDataLengthFromEncryptionHeader
       (bytes_of_string "MH02" ++ replicate 12 x00) 0 7 = Some (1, 7).
Proof.
  apply (decoders_reject_wrong_magic
           (bytes_of_string "MH02" ++ replicate 12 x00) 0 7
           (bytes_of_string "MH02")).
  - reflexivity.
  - discriminate.
Defined.

Lemma GetDataLengthFromVerificationHeader_any (a rest : list byte)
    (n old : Z) :
  0 <= n < 2 ^ 31 ->
  GetDataLengthFromVerificationHeader
    (a ++ bytes_of_string "MH01" ++ le32 n ++ rest) (Z.of_nat (length a)) old
  = Some (0, n).
Proof.
  intros Hn. unfold GetDataLengthFromVerificationHeader.
  change (bytes_of_string "MH01") with [x4d; x48; x30; x31].
  cbn [app]. rewrite header_starts_with_MH01_app.
  rewrite bool_decide_eq_true_2 by reflexivity.
  cbn [mbind option_bind]. unfold le32.
  rewrite !load_app_r by lia.
  change (Z.to_nat 4) with 4%nat. change (Z.to_nat 5) with 5%nat.
  change (Z.to_nat 6) with 6%nat. change (Z.to_nat 7) with 7%nat.
  cbn [app lookup list_lookup fmap option_fmap option_map mbind option_bind].
  rewrite read_length_le32, size_t_int_small by assumption.
  reflexivity.
Qed.

Lemma GetDataLengthFromEncryptionHeader_any (a tag rest : list byte)
    (n old : Z) :
  0 <= n < 2 ^ 31 -> length tag = 4%nat ->
  GetDataLengthFromEncryptionHeader
    (a ++ bytes_of_string "MH01" ++ tag ++ le32 n ++ rest)
    (Z.of_nat (length a)) old
  = Some (0, n).
Proof.
  intros Hn Htag.
  destruct tag as [|t0 [|t1 [|t2 [|t3 [|]]]]]; try discriminate.
  unfold GetDataLengthFromEncryptionHeader.
  change (bytes_of_string "MH01") with [x4d; x48; x30; x31].
  cbn [app]. rewrite header_starts_with_MH01_app.
  rewrite bool_decide_eq_true_2 by reflexivity.
  cbn [mbind option_bind]. unfold le32.
  rewrite !load_app_r by lia.
  change (Z.to_nat 8) with 8%nat. change (Z.to_nat 9) with 9%nat.
  change (Z.to_nat 10) with 10%nat. change (Z.to_nat 11) with 11%nat.
  cbn [app lookup list_lookup fmap option_fmap option_map mbind option_bind].
  rewrite read_length_le32, size_t_int_small by assumption.
  reflexivity.
Qed.

(** X3: the decoders look at the magic and at the length field only.  Any
    bytes in the place of the tag, the marker and the checksum pair are
    accepted, and so is a header that ends after its length field. *)
Theorem decoders_ignore_checksum (a tag rest : list byte) (n old : Z) :
  0 <= n < 2 ^ 31 -> length tag = 4%nat ->
  GetDataLengthFromVerificationHeader
    (a ++ bytes_of_string "MH01" ++ le32 n ++ rest) (Z.of_nat (length a)) old
  = Some (0, n)
  /\ GetDataLengthFromEncryptionHeader
       (a ++ bytes_of_string "MH01" ++ tag ++ le32 n ++ rest)
       (Z.of_nat (length a)) old
     = Some (0, n).
Proof.
  intros Hn Htag. split.
  - apply GetDataLengthFromVerificationHeader_any. exact Hn.
  - apply GetDataLengthFromEncryptionHeader_any; assumption.
Qed.

Lemma decoders_ignore_checksum_witness :
  GetDataLengthFromVerificationHeader
    ([x00] ++ bytes_of_string "MH01" ++ le32 1089 ++ [])
    (Z.of_nat (length [x00])) 7
  = Some (0, 1089)
  /\ GetDataLengthFromEncryptionHeader
       ([x00] ++ bytes_of_string "MH01" ++ [xff; xff; xff; xff]
        ++ le32 1089 ++ [])
       (Z.of_nat (length [x00])) 7
     = Some (0, 1089).
Proof.
  apply (decoders_ignore_checksum [x00] [xff; xff; xff; xff] [] 1089 7).
  - lia.
  - reflexivity.
Defined.

(** ** The text of the initialization vector *)

Lemma WriteAes128CbcIvToBuffer_loop_room (buffer : Z) (iv : list byte) :
  forall (m : list byte) (i : Z),
    0 <= buffer -> 0 <= i ->
    Z.of_nat (length m) < buffer + 2 * i + 2 * Z.of_nat (length iv) + 1 ->
    WriteAes128CbcIvToBuffer_loop m buffer iv i = None.
Proof.
  induction iv as [|b iv IH]; intros m i Hb Hi Hm;
    cbn [WriteAes128CbcIvToBuffer_loop length] in *.
  - unfold store.
    destruct (Z.ltb_spec (buffer + 2 * i) (Z.of_nat (length m))); [lia|].
    rewrite andb_false_r. reflexivity.
  - destruct (write_bytes m (buffer + 2 * i) (sprintf_02x b)) as [m'|] eqn:Hw;
      [|reflexivity].
    cbn [mbind option_bind].
    apply write_bytes_inv in Hw as (Hp & Hlen & ->).
    apply IH; [assumption|lia|].
    rewrite length_splice by assumption. lia.
Qed.

(** X4: [WriteAes128CbcIvToBuffer] writes, for an initialization vector
    of [n] bytes, [2 * n] hexadecimal digits and a line feed, [2 * n + 1]
    bytes in all, and nothing else; the zero byte that each [sprintf]
    appends is overwritten.  With less room than [2 * n + 1] bytes it
    writes past the end of the buffer. *)
Theorem WriteAes128CbcIvToBuffer_layout (m iv : list byte) (buffer : Z) :
  0 <= buffer ->
  (buffer + 2 * Z.of_nat (length iv) + 1 <= Z.of_nat (length m) ->
   exists m',
     WriteAes128CbcIvToBuffer m buffer iv = Some (m', 0)
     /\ length m' = length m
     /\ take (Z.to_nat buffer) m' = take (Z.to_nat buffer) m
     /\ read_bytes m' buffer (2 * Z.of_nat (length iv) + 1)
        = Some (iv_text iv)
     /\ drop (Z.to_nat buffer + (2 * length iv + 1)) m'
        = drop (Z.to_nat buffer + (2 * length iv + 1)) m)
  /\ (Z.of_nat (length m) < buffer + 2 * Z.of_nat (length iv) + 1 ->
      WriteAes128CbcIvToBuffer m buffer iv = None).
Proof.
  intros Hb. split.
  - intros Hm.
    rewrite WriteAes128CbcIvToBuffer_spec by assumption.
    eexists. split; [reflexivity|].
    pose proof (length_iv_text iv) as Hlen.
    destruct (split_at m buffer ltac:(lia)) as (a & l & -> & ->).
    rewrite length_app in Hm.
    rewrite splice_app_r, Hlen, Nat2Z.id.
    split.
    { rewrite !length_app, Hlen, length_drop. lia. }
    split.
    { rewrite !take_app_length. reflexivity. }
    split.
    { rewrite read_bytes_Some
        by (rewrite ?length_app, ?Hlen, ?length_drop; lia).
      rewrite Nat2Z.id, drop_app_length.
      rewrite take_app_length' by lia. reflexivity. }
    rewrite !drop_app_add.
    rewrite (drop_app_length' (iv_text iv)) by (symmetry; exact Hlen).
    reflexivity.
  - intros Hm. unfold WriteAes128CbcIvToBuffer.
    rewrite WriteAes128CbcIvToBuffer_loop_room by lia. reflexivity.
Qed.

Lemma WriteAes128CbcIvToBuffer_layout_witness :
  (0 + 2 * Z.of_nat (length IV) + 1 <= Z.of_nat (length (replicate 33 xff)) ->
   exists m',
     WriteAes128CbcIvToBuffer (replicate 33 xff) 0 IV = Some (m', 0)
     /\ length m' = length (replicate 33 xff)
     /\ take (Z.to_nat 0) m' = take (Z.to_nat 0) (replicate 33 xff)
     /\ read_bytes m' 0 (2 * Z.of_nat (length IV) + 1) = Some (iv_text IV)
     /\ drop (Z.to_nat 0 + (2 * length IV + 1)) m'
        = drop (Z.to_nat 0 + (2 * length IV + 1)) (replicate 33 xff))
  /\ (Z.of_nat (length (replicate 33 xff))
      < 0 + 2 * Z.of_nat (length IV) + 1 ->
      WriteAes128CbcIvToBuffer (replicate 33 xff) 0 IV = None).
Proof.
  apply (WriteAes128CbcIvToBuffer_layout (replicate 33 xff) IV 0). lia.
Defined.

(** A buffer of 32 bytes is one byte short for the 16 bytes of the
    initialization vector. *)
Example WriteAes128CbcIvToBuffer_short :
  WriteAes128CbcIvToBuffer (replicate 32 xff) 0 IV = None.
Proof. reflexivity. Qed.

(** X5: [ConvertAsciiIvToHexArray] reads back the 16 bytes that
    [WriteAes128CbcIvToBuffer] wrote as text, whatever the array held
    before. *)
Theorem IV_text_round_trip `{LS : LibsSpec} (m iv old : list byte)
    (buffer : Z) :
  length iv = 16%nat -> length old = 16%nat ->
  0 <= buffer -> buffer + 33 <= Z.of_nat (length m) ->
  exists m',
    WriteAes128CbcIvToBuffer m buffer iv = Some (m', 0)
    /\ ConvertAsciiIvToHexArray m' buffer old = (iv, 0).
Proof.
  intros Hiv Hold Hb Hm.
  rewrite WriteAes128CbcIvToBuffer_spec by lia.
  eexists. split; [reflexivity|].
  destruct (split_at m buffer ltac:(lia)) as (a & l & -> & ->).
  rewrite splice_app_r.
  apply ConvertAsciiIvToHexArray_spec; [reflexivity|congruence].
Qed.

Lemma IV_text_round_trip_witness :
  exists m',
    WriteAes128CbcIvToBuffer (replicate 40 xff) 2 IV = Some (m', 0)
    /\ @ConvertAsciiIvToHexArray Toy.libs m' 2 (replicate 16 x00) = (IV, 0).
Proof.
  apply (@IV_text_round_trip Toy.libs Toy_libs_spec (replicate 40 xff) IV
           (replicate 16 x00) 2).
  - reflexivity.
  - reflexivity.
  - lia.
  - simpl. lia.
Defined.

(** ** Where the checksum routine is defined *)

(** X6: [Caclulate16BitSum] reads whole 16-bit words: for an odd
    [bufferLength] it reads the byte at [buffer[bufferLength]] too, and its
    counter is an [int].  With room for the checksum, the call stays inside
    the buffer and inside [int] exactly when [bufferLength] is at most
    [INT_MAX - 1] and the buffer holds [bufferLength] bytes from [buffer]
    on, one more when [bufferLength] is odd. *)
Theorem Caclulate16BitSum_defined (m : list byte)
    (buffer bufferLength checksumBuffer : Z) (inverted : bool) :
  0 <= bufferLength ->
  0 <= checksumBuffer -> checksumBuffer + 2 <= Z.of_nat (length m) ->
  is_Some (Caclulate16BitSum m buffer bufferLength checksumBuffer inverted)
  <-> bufferLength <= INT_MAX - 1
      /\ (bytes_read bufferLength <= length (view m buffer))%nat.
Proof.
  intros Hlen Hc0 Hc1.
  rewrite Caclulate16BitSum_splice by assumption.
  split.
  - intros [m' Hm'].
    destruct (Caclulate16BitSum_value m buffer bufferLength inverted)
      as [v|] eqn:Hv; [|discriminate].
    unfold Caclulate16BitSum_value in Hv.
    destruct (Caclulate16BitSum_loop (view m buffer) 0 bufferLength 0)
      as [w|] eqn:Hw; [|discriminate].
    apply Caclulate16BitSum_loop_inv in Hw as [Hbytes Hint];
      [|lia|unfold INT_MAX; lia].
    rewrite Z.sub_0_r in Hbytes, Hint. unfold bytes_read.
    split; [unfold INT_MAX in *; lia|exact Hbytes].
  - intros [Hint Hbytes].
    rewrite Caclulate16BitSum_value_spec by (try assumption; lia).
    eexists. reflexivity.
Qed.

Lemma Caclulate16BitSum_defined_witness :
  is_Some (Caclulate16BitSum (replicate 7 x01) 2 5 0 false)
  <-> 5 <= INT_MAX - 1
      /\ (bytes_read 5 <= length (view (replicate 7 x01) 2))%nat.
Proof.
  apply (Caclulate16BitSum_defined (replicate 7 x01) 2 5 0 false).
  - lia.
  - lia.
  - simpl. lia.
Defined.

(** Five bytes from offset 2 of a buffer of seven: the sixth is read and
    is not there. *)
Example Caclulate16BitSum_odd_length_reads_on :
  Caclulate16BitSum (replicate 7 x01) 2 5 0 false = None
  /\ Caclulate16BitSum (replicate 7 x01) 2 4 0 false
     = Some ([x02; x02] ++ replicate 5 x01).
Proof. split; reflexivity. Qed.

(** X7: [Caclulate16BitSum] changes the two bytes at [checksumBuffer] and
    nothing else. *)
Theorem Caclulate16BitSum_frame (m m' : list byte)
    (buffer bufferLength checksumBuffer : Z) (inverted : bool) :
  0 <= checksumBuffer -> checksumBuffer + 2 <= Z.of_nat (length m) ->
  Caclulate16BitSum m buffer bufferLength checksumBuffer inverted = Some m' ->
  length m' = length m
  /\ take (Z.to_nat checksumBuffer) m' = take (Z.to_nat checksumBuffer) m
  /\ drop (Z.to_nat checksumBuffer + 2) m'
     = drop (Z.to_nat checksumBuffer + 2) m.
Proof.
  intros Hc0 Hc1. rewrite Caclulate16BitSum_splice by assumption.
  destruct (Caclulate16BitSum_value m buffer bufferLength inverted)
    as [v|]; [|discriminate].
  intros [= <-].
  destruct (split_at m checksumBuffer ltac:(lia)) as (a & l & -> & ->).
  rewrite length_app in Hc1.
  rewrite splice_app_r, Nat2Z.id.
  change (length (le16 v)) with 2%nat.
  split.
  { rewrite !length_app, length_drop.
    change (length (le16 v)) with 2%nat. lia. }
  split.
  { rewrite !take_app_length. reflexivity. }
  rewrite !drop_app_add. reflexivity.
Qed.

Lemma Caclulate16BitSum_frame_witness :
  length ([x01; x01; xfe; xfe; x01; x01; x01]) = length (replicate 7 x01)
  /\ take (Z.to_nat 2) [x01; x01; xfe; xfe; x01; x01; x01]
     = take (Z.to_nat 2) (replicate 7 x01)
  /\ drop (Z.to_nat 2 + 2) [x01; x01; xfe; xfe; x01; x01; x01]
     = drop (Z.to_nat 2 + 2) (replicate 7 x01).
Proof.
  apply (Caclulate16BitSum_frame (replicate 7 x01)
           [x01; x01; xfe; xfe; x01; x01; x01] 4 2 2 true).
  - lia.
  - simpl. lia.
  - reflexivity.
Defined.

(** ** What UpdateHeaderInRecoveryImage writes and what it leaves *)

Lemma lookup_splice_ne (m : list byte) (p : Z) (src : list byte) (q : nat) :
  (Z.to_nat p + length src <= length m)%nat ->
  (q < Z.to_nat p)%nat \/ (Z.to_nat p + length src <= q)%nat ->
  splice m p src !! q = m !! q.
Proof.
  intros Hm Hq. unfold splice.
  assert (Htake : length (take (Z.to_nat p) m) = Z.to_nat p)
    by (rewrite length_take; lia).
  destruct Hq as [Hq|Hq].
  - rewrite lookup_app_l by lia. apply lookup_take_lt. exact Hq.
  - rewrite lookup_app_r by lia. rewrite lookup_app_r by lia.
    rewrite lookup_drop. f_equal. lia.
Qed.

(** The fields of a partition header that a pass writes: the data
    checksum, the partition length and the header checksum. *)
Lemma update_header_frame (header : list byte) (partitionLength v : Z)
    (q : nat) :
  length header = 80%nat ->
  ~ ((14 <= q < 16)%nat \/ (44 <= q < 48)%nat \/ (78 <= q < 80)%nat) ->
  update_header header partitionLength v !! q = header !! q.
Proof.
  intros Hh Hq. unfold update_header.
  unfold M32_FIRMWARE_UTIL_FW_DATA_LENGTH_OFFSET,
    CHECKUM_PATCHER_DATA_CHECKSUM_OFFSET,
    CHECKUM_PATCHER_HEADER_CHECKSUM_OFFSET,
    M32_FIRMWARE_UTIL_FW_HEADER_LENGTH.
  change (80 - 2) with 78. cbv zeta.
  set (h1 := splice header 44 (le32 partitionLength)).
  assert (H1 : length h1 = 80%nat).
  { unfold h1. rewrite length_splice; [exact Hh|lia|].
    change (length (le32 partitionLength)) with 4%nat. lia. }
  set (h2 := splice h1 14 (le16 v)).
  assert (H2 : length h2 = 80%nat).
  { unfold h2. rewrite length_splice; [exact H1|lia|].
    change (length (le16 v)) with 2%nat. lia. }
  set (c := Sum16Carry (take (Z.to_nat 78) h2) true).
  rewrite lookup_splice_ne
    by (change (length (le16 c)) with 2%nat; lia).
  unfold h2. rewrite lookup_splice_ne
    by (change (length (le16 v)) with 2%nat; lia).
  unfold h1. rewrite lookup_splice_ne
    by (change (length (le32 partitionLength)) with 4%nat; lia).
  reflexivity.
Qed.

Lemma update_header_length_field (header : list byte)
    (partitionLength v : Z) :
  length header = 80%nat ->
  take 4 (drop 44 (update_header header partitionLength v))
  = le32 partitionLength.
Proof.
  intros Hh.
  destruct (list_80 header Hh)
    as (h14 & c0 & c1 & h28 & l0 & l1 & l2 & l3 & h30 & k0 & k1
        & -> & H14 & H28 & H30).
  rewrite update_header_fields by assumption.
  replace (h14 ++ le16 v ++ h28 ++ le32 partitionLength ++ h30
           ++ le16 (Sum16Carry
                      (h14 ++ le16 v ++ h28 ++ le32 partitionLength ++ h30)
                      true))
    with ((h14 ++ le16 v ++ h28) ++ le32 partitionLength ++ h30
          ++ le16 (Sum16Carry
                     (h14 ++ le16 v ++ h28 ++ le32 partitionLength ++ h30)
                     true))
    by (rewrite <- !app_assoc; reflexivity).
  rewrite drop_app_length'
    by (rewrite !length_app; change (length (le16 v)) with 2%nat; lia).
  reflexivity.
Qed.

Lemma update_header_data_checksum_field (header : list byte)
    (partitionLength v : Z) :
  length header = 80%nat ->
  take 2 (drop 14 (update_header header partitionLength v)) = le16 v.
Proof.
  intros Hh.
  destruct (list_80 header Hh)
    as (h14 & c0 & c1 & h28 & l0 & l1 & l2 & l3 & h30 & k0 & k1
        & -> & H14 & H28 & H30).
  rewrite update_header_fields by assumption.
  rewrite drop_app_length' by (symmetry; exact H14). reflexivity.
Qed.

(** The offsets of the three fields of the header at offset [a]. *)
Lemma update_partitions_frame (st_size : Z) (found : list nat) :
  recorded st_size found -> st_size < 2 ^ 63 ->
  forall (n k : nat) (m m' : list byte),
    (k + n)%nat = length found ->
    Z.of_nat (length m) = st_size ->
    update_partitions st_size (header_addresses found)
      (Z.of_nat <$> seq k n) m = Some m' ->
    forall p : nat,
      (forall j a, (k <= j)%nat -> found !! j = Some a ->
         ~ ((a + 14 <= p < a + 16)%nat \/ (a + 44 <= p < a + 48)%nat
            \/ (a + 78 <= p < a + 80)%nat)) ->
      m' !! p = m !! p.
Proof.
  intros Hrec Hsz. induction n as [|n IH]; intros k m m' Hk Hm Hrun p Hp.
  - cbn in Hrun. injection Hrun as <-. reflexivity.
  - destruct (lookup_lt_is_Some_2 found k ltac:(lia)) as [a Ha].
    pose proof Hrec as (Hlen & Hlt & Hasc).
    pose proof (Hlt _ _ Ha) as Hlta.
    destruct (split_header m a ltac:(lia))
      as (pre & header & post & -> & Hpre & Hheader).
    cbn [seq fmap list_fmap update_partitions] in Hrun.
    rewrite update_partition_spec in Hrun;
      [|rewrite Nat2Z.id, Hpre; apply header_addresses_lookup, Ha
       |exact Hheader].
    destruct (Caclulate16BitSum_loop post 0 _ 0) as [v|]; [|discriminate].
    cbn [mbind option_bind] in Hrun.
    set (header' := update_header header _ v) in Hrun.
    assert (Hheader' : length header' = 80%nat)
      by (apply length_update_header; exact Hheader).
    assert (Hm1 : Z.of_nat (length (pre ++ header' ++ post)) = st_size).
    { rewrite !length_app, Hheader'. rewrite !length_app, Hheader in Hm.
      exact Hm. }
    assert (Hk1 : (S k + n)%nat = length found) by lia.
    assert (Hp1 : forall j b, (S k <= j)%nat -> found !! j = Some b ->
              ~ ((b + 14 <= p < b + 16)%nat \/ (b + 44 <= p < b + 48)%nat
                 \/ (b + 78 <= p < b + 80)%nat)).
    { intros j b Hj. apply Hp. lia. }
    rewrite (IH (S k) _ m' Hk1 Hm1 Hrun p Hp1).
    pose proof (Hp k a ltac:(lia) Ha) as Hpa.
    destruct (decide (p < a)%nat) as [Hlow|Hhigh].
    + rewrite (lookup_app_l pre (header' ++ post)) by lia.
      rewrite (lookup_app_l pre (header ++ post)) by lia. reflexivity.
    + rewrite (lookup_app_r pre (header' ++ post)) by lia.
      rewrite (lookup_app_r pre (header ++ post)) by lia.
      rewrite Hpre.
      destruct (decide (p - a < 80)%nat) as [Hin|Hout].
      * rewrite (lookup_app_l header' post) by lia.
        rewrite (lookup_app_l header post) by lia.
        apply update_header_frame; [exact Hheader|lia].
      * rewrite (lookup_app_r header' post) by lia.
        rewrite (lookup_app_r header post) by lia.
        rewrite Hheader', Hheader. reflexivity.
Qed.

(** What a successful run went through. *)
Lemma UpdateHeaderInRecoveryImage_inv (env : Env) (file : list byte)
    (outputFile : string) (device : M32FirmwareUtilDeviceInfoType)
    (repaired : list byte) (headerAddresses : list Z) (partitionCount : Z) :
  device ∈ M32FirmwareUtilDeviceInfos ->
  80 <= Z.of_nat (length file) < 2 ^ 63 ->
  UpdateHeaderInRecoveryImage env file outputFile device
  = Some {| status := 0; output := Some repaired |} ->
  find_partitions file device = Some (headerAddresses, partitionCount) ->
  exists found,
    headerAddresses = header_addresses found
    /\ partitionCount = Z.of_nat (length found)
    /\ recorded (Z.of_nat (length file)) found
    /\ update_partitions (Z.of_nat (length file)) (header_addresses found)
         (Z.of_nat <$> seq 0 (length found)) file
       = Some repaired.
Proof.
  intros Hdev Hlen Hrun Hfind.
  destruct (find_partitions_recorded file device Hdev Hlen)
    as (found & Hfound & Hrec & _).
  rewrite Hfound in Hfind. injection Hfind as <- <-.
  destruct (UpdateHeaderInRecoveryImage_success _ _ _ _ _ Hrun eq_refl)
    as [Hmalloc Hfread].
  rewrite (UpdateHeaderInRecoveryImage_run _ _ _ _ _ Hfound Hmalloc Hfread)
    in Hrun.
  destruct (update_partitions _ _ _ file) as [buffer|] eqn:Hloop;
    [|discriminate].
  cbn [mbind option_bind] in Hrun.
  destruct (Z.of_nat (length found) =? 0); [discriminate|].
  destruct (negb (WriteBufferToFile env outputFile =? 0)); [discriminate|].
  injection Hrun as <-.
  exists found. split; [reflexivity|]. split; [reflexivity|].
  split; [exact Hrec|exact Hloop].
Qed.

Lemma header_addresses_lookup_inv (found : list nat) (k : nat) (a : Z) :
  (k < length found)%nat ->
  header_addresses found !! k = Some a ->
  exists a', found !! k = Some a' /\ a = Z.of_nat a'.
Proof.
  intros Hk Ha.
  destruct (lookup_lt_is_Some_2 found k Hk) as [a' Ha'].
  rewrite (header_addresses_lookup _ _ _ Ha') in Ha. injection Ha as <-.
  exists a'. split; [exact Ha'|reflexivity].
Qed.

(** X8: a successful run of UpdateHeaderInRecoveryImage writes a file as
    long as its input and changes, at most, three fields of the headers it
    recorded: the data checksum at offset 14, the partition length at
    offset 44 and the header checksum at offset 78 of each header.  Every
    other byte, the payloads included, is the byte of the input. *)
Theorem repair_frame (env : Env) (file : list byte)
    (outputFile : string) (device : M32FirmwareUtilDeviceInfoType)
    (repaired : list byte) (headerAddresses : list Z) (partitionCount : Z) :
  device ∈ M32FirmwareUtilDeviceInfos ->
  80 <= Z.of_nat (length file) < 2 ^ 63 ->
  UpdateHeaderInRecoveryImage env file outputFile device
  = Some {| status := 0; output := Some repaired |} ->
  find_partitions file device = Some (headerAddresses, partitionCount) ->
  length repaired = length file
  /\ forall p : nat,
       (forall (partition : nat) (a : Z),
          Z.of_nat partition < partitionCount ->
          headerAddresses !! partition = Some a ->
          ~ (a + 14 <= Z.of_nat p < a + 16 \/ a + 44 <= Z.of_nat p < a + 48
             \/ a + 78 <= Z.of_nat p < a + 80)) ->
       repaired !! p = file !! p.
Proof.
  intros Hdev Hlen Hrun Hfind.
  destruct (UpdateHeaderInRecoveryImage_inv _ _ _ _ _ _ _ Hdev Hlen Hrun
              Hfind) as (found & -> & -> & Hrec & Hloop).
  split.
  - apply (update_partitions_forward _ _ Hrec ltac:(lia)) in Hloop;
      [|reflexivity|reflexivity].
    apply Hloop.
  - intros p Hp.
    apply (update_partitions_frame _ _ Hrec ltac:(lia) (length found) 0
             file repaired eq_refl eq_refl Hloop).
    intros j a _ Ha.
    pose proof (lookup_lt_Some _ _ _ Ha) as Hj.
    specialize (Hp j (Z.of_nat a) ltac:(lia)
                  (header_addresses_lookup _ _ _ Ha)).
    lia.
Qed.

Lemma repair_frame_witness :
  length (repaired_image image_two_partitions) = length image_two_partitions
  /\ forall p : nat,
       (forall (partition : nat) (a : Z),
          Z.of_nat partition < 2 ->
          header_addresses [0; 181]%nat !! partition = Some a ->
          ~ (a + 14 <= Z.of_nat p < a + 16 \/ a + 44 <= Z.of_nat p < a + 48
             \/ a + 78 <= Z.of_nat p < a + 80)) ->
       repaired_image image_two_partitions !! p = image_two_partitions !! p.
Proof.
  apply (repair_frame Toy.env image_two_partitions "out" Toy.M32
           (repaired_image image_two_partitions)
           (header_addresses [0; 181]%nat) 2).
  - exact Toy_M32_in_table.
  - simpl. lia.
  - vm_compute. reflexivity.
  - vm_compute. reflexivity.
Defined.

Lemma partition_end_header_addresses (st_size : Z) (found : list nat)
    (k : nat) (e : Z) :
  (k < length found)%nat ->
  e = (if Z.of_nat (S k) <? Z.of_nat (length found)
       then default 0 (header_addresses found !! S k) else st_size) ->
  partition_end st_size found k = e.
Proof.
  intros Hk ->. unfold partition_end.
  destruct (Z.ltb_spec (Z.of_nat (S k)) (Z.of_nat (length found))) as [Hlt|Hge].
  - destruct (lookup_lt_is_Some_2 found (S k) ltac:(lia)) as [next Hnext].
    rewrite Hnext, (header_addresses_lookup _ _ _ Hnext). reflexivity.
  - rewrite (proj2 (lookup_ge_None found (S k))) by lia. reflexivity.
Qed.

(** X9: after a successful run of UpdateHeaderInRecoveryImage, every
    recorded partition is at least a header long, its header holds at
    offset 44 the length of its payload, the distance to the next recorded
    header or to the end of the file less 80, as four little-endian bytes,
    and at offset 14 the 16-bit sum with end-around carry of that payload,
    low byte first. *)
Theorem repair_writes_length_and_data_checksum (env : Env)
    (file : list byte) (outputFile : string)
    (device : M32FirmwareUtilDeviceInfoType) (repaired : list byte)
    (headerAddresses : list Z) (partitionCount : Z) (partition : nat)
    (a e : Z) :
  device ∈ M32FirmwareUtilDeviceInfos ->
  80 <= Z.of_nat (length file) < 2 ^ 63 ->
  UpdateHeaderInRecoveryImage env file outputFile device
  = Some {| status := 0; output := Some repaired |} ->
  find_partitions file device = Some (headerAddresses, partitionCount) ->
  Z.of_nat partition < partitionCount ->
  headerAddresses !! partition = Some a ->
  e = (if Z.of_nat (S partition) <? partitionCount
       then default 0 (headerAddresses !! S partition)
       else Z.of_nat (length file)) ->
  80 <= e - a
  /\ read_bytes repaired (a + 44) 4 = Some (le32 (e - a - 80))
  /\ read_bytes repaired (a + 14) 2
     = Some (le16 (Sum16Carry
                     (take (bytes_read (e - a - 80))
                        (view repaired (a + 80))) false)).
Proof.
  intros Hdev Hlen Hrun Hfind Hk Ha He.
  destruct (UpdateHeaderInRecoveryImage_inv _ _ _ _ _ _ _ Hdev Hlen Hrun
              Hfind) as (found & -> & -> & Hrec & Hloop).
  apply (update_partitions_forward _ _ Hrec ltac:(lia)) in Hloop;
    [|reflexivity|reflexivity].
  destruct Hloop as (Hlen' & _ & Hrep).
  destruct (Hrep partition ltac:(lia))
    as (a' & header & v & Ha' & Hgap & Hheader & Hv & Hhdr).
  rewrite (header_addresses_lookup _ _ _ Ha') in Ha. injection Ha as <-.
  rewrite (partition_end_header_addresses (Z.of_nat (length file)) found
             partition e ltac:(lia) He) in *.
  pose proof Hrec as (_ & Hlt & _). pose proof (Hlt _ _ Ha') as Hlta.
  assert (H80 : take 80 (drop a' repaired)
                = update_header header (e - Z.of_nat a' - 80) v)
    by exact Hhdr.
  split; [exact Hgap|]. split.
  - rewrite read_bytes_Some by lia. f_equal.
    replace (Z.to_nat (Z.of_nat a' + 44)) with (a' + 44)%nat by lia.
    change (Z.to_nat 4) with 4%nat.
    rewrite <- (update_header_length_field header _ v Hheader), <- H80.
    rewrite <- drop_drop, skipn_firstn_comm, take_take.
    reflexivity.
  - rewrite read_bytes_Some by lia. f_equal.
    replace (Z.to_nat (Z.of_nat a' + 14)) with (a' + 14)%nat by lia.
    change (Z.to_nat 2) with 2%nat.
    assert (Hsum : Sum16Carry
                     (take (bytes_read (e - Z.of_nat a' - 80))
                        (view repaired (Z.of_nat a' + 80))) false = v).
    { unfold view.
      replace (Z.to_nat (Z.of_nat a' + 80)) with (a' + 80)%nat by lia.
      pose proof Hv as Hinv.
      apply Caclulate16BitSum_loop_inv in Hinv;
        [|lia|unfold INT_MAX; lia].
      rewrite Z.sub_0_r in Hinv. destruct Hinv as [Hbytes Hmax].
      pose proof (Caclulate16BitSum_value_spec repaired
                    (Z.of_nat (a' + 80)) (e - Z.of_nat a' - 80) false)
        as Hspec.
      unfold Caclulate16BitSum_value, view in Hspec.
      rewrite Nat2Z.id, Hv in Hspec. cbn [mbind option_bind] in Hspec.
      specialize (Hspec ltac:(unfold INT_MAX in *; lia) Hbytes).
      injection Hspec as Hspec. symmetry. exact Hspec. }
    rewrite Hsum.
    rewrite <- (update_header_data_checksum_field header
                  (e - Z.of_nat a' - 80) v Hheader), <- H80.
    rewrite <- drop_drop, skipn_firstn_comm, take_take.
    reflexivity.
Qed.

Lemma repair_writes_length_and_data_checksum_witness :
  80 <= 181 - 0
  /\ read_bytes (repaired_image image_two_partitions) (0 + 44) 4
     = Some (le32 (181 - 0 - 80))
  /\ read_bytes (repaired_image image_two_partitions) (0 + 14) 2
     = Some (le16 (Sum16Carry
                     (take (bytes_read (181 - 0 - 80))
                        (view (repaired_image image_two_partitions)
                           (0 + 80))) false)).
Proof.
  apply (repair_writes_length_and_data_checksum Toy.env
           image_two_partitions "out" Toy.M32
           (repaired_image image_two_partitions)
           (header_addresses [0; 181]%nat) 2 0 0 181).
  - exact Toy_M32_in_table.
  - simpl. lia.
  - vm_compute. reflexivity.
  - vm_compute. reflexivity.
  - lia.
  - reflexivity.
  - reflexivity.
Defined.

(** X10: two recorded headers less than 80 bytes apart make the run
    undefined: the length of the first partition, the distance less 80,
    wraps around as a [size_t], and the data checksum loop runs off the
    buffer or overflows its counter. *)
Theorem repair_overlapping_headers_undefined (env : Env)
    (file : list byte) (outputFile : string)
    (device : M32FirmwareUtilDeviceInfoType)
    (headerAddresses : list Z) (partitionCount : Z) (partition : nat)
    (a next : Z) :
  device ∈ M32FirmwareUtilDeviceInfos ->
  80 <= Z.of_nat (length file) < 2 ^ 63 ->
  malloc_null env 0 = false -> fread_short env = false ->
  find_partitions file device = Some (headerAddresses, partitionCount) ->
  Z.of_nat (S partition) < partitionCount ->
  headerAddresses !! partition = Some a ->
  headerAddresses !! S partition = Some next ->
  next - a < 80 ->
  UpdateHeaderInRecoveryImage env file outputFile device = None.
Proof.
  intros Hdev Hlen Hmalloc Hfread Hfind Hk Ha Hnext Hclose.
  destruct (find_partitions_recorded file device Hdev Hlen)
    as (found & Hfound & Hrec & _).
  rewrite Hfound in Hfind. injection Hfind as <- <-.
  rewrite (UpdateHeaderInRecoveryImage_run _ _ _ _ _ Hfound Hmalloc Hfread).
  destruct (update_partitions _ _ _ file) as [buffer|] eqn:Hloop;
    [|reflexivity].
  exfalso.
  apply (update_partitions_forward _ _ Hrec ltac:(lia)) in Hloop;
    [|reflexivity|reflexivity].
  destruct Hloop as (_ & _ & Hrep).
  destruct (Hrep partition ltac:(lia))
    as (a' & header & v & Ha' & Hgap & _).
  rewrite (header_addresses_lookup _ _ _ Ha') in Ha. injection Ha as <-.
  rewrite (partition_end_header_addresses (Z.of_nat (length file)) found
             partition next ltac:(lia)) in Hgap.
  - lia.
  - destruct (Z.ltb_spec (Z.of_nat (S partition)) (Z.of_nat (length found)));
      [|lia].
    rewrite Hnext. reflexivity.
Qed.

Lemma repair_overlapping_headers_undefined_witness :
  UpdateHeaderInRecoveryImage Toy.env
    (bytes_of_string "DLK6E6010001" ++ bytes_of_string "DLK6E6010001"
     ++ replicate 100 x00) "out" Toy.M32
  = None.
Proof.
  apply (repair_overlapping_headers_undefined Toy.env
           (bytes_of_string "DLK6E6010001" ++ bytes_of_string "DLK6E6010001"
            ++ replicate 100 x00) "out" Toy.M32
           (header_addresses [0; 12]%nat) 2 0 0 12).
  - exact Toy_M32_in_table.
  - simpl. lia.
  - reflexivity.
  - reflexivity.
  - vm_compute. reflexivity.
  - lia.
  - reflexivity.
  - reflexivity.
  - lia.
Defined.

(** ** The size and the headers of a factory image *)

(** X11: the file that a successful run of
    CreateFactoryImageFromRecoveryImage writes for a recovery image of [n]
    bytes, [n + 353 < 2^31], has between [n + 609] and [n + 625] bytes; the
    decoder of the verification kind reads from its first header the size
    of the file less 272, the header and the signature, and the decoder of
    the encryption kind reads from the header at offset 16 the size of the
    file less 321, the length of the salt block and the encrypted data. *)
Theorem factory_image_size_and_headers `{LS : LibsSpec}
    (env : Env) (file : list byte) (outputFile : string)
    (device : M32FirmwareUtilDeviceInfoType) (image : list byte)
    (old : Z) :
  device ∈ M32FirmwareUtilDeviceInfos ->
  Z.of_nat (length file) + 353 < 2 ^ 31 ->
  CreateFactoryImageFromRecoveryImage env file outputFile device
  = Some {| status := 0; output := Some image |} ->
  Z.of_nat (length file) + 609 <= Z.of_nat (length image)
    <= Z.of_nat (length file) + 625
  /\ GetDataLengthFromVerificationHeader image 0 old
     = Some (0, Z.of_nat (length image) - 272)
  /\ GetDataLengthFromEncryptionHeader image 16 old
     = Some (0, Z.of_nat (length image) - 321).
Proof.
  intros Hdev Hn Hrun.
  destruct (CreateFactoryImageFromRecoveryImage_success env file outputFile
              device _ Hdev Hrun eq_refl) as (image' & Himage & [= <-]).
  unfold factory_image in Himage.
  destruct (sign_data_Some device file Hdev) as (sig1 & Hsig1 & Hs1 & _).
  rewrite Hsig1 in Himage. cbn [mbind option_bind] in Himage.
  destruct (encrypt_block device file sig1) as [c|] eqn:Hc; [|discriminate].
  cbn [mbind option_bind] in Himage.
  destruct (sign_data_Some device (outer_block c) Hdev)
    as (s2 & Hsig2 & Hs2 & _).
  rewrite Hsig2 in Himage. injection Himage as <-.
  pose proof (encrypt_block_length device file sig1 c Hs1 ltac:(lia) Hc)
    as Hlen.
  assert (Hinl : encrypt_inl file = Z.of_nat (length file) + 272).
  { unfold encrypt_inl, M32_FIRMWARE_HEADER_LENGTH,
      M32_FIRMWARE_SIGNATURE_LENGTH, size_t.
    rewrite Z.mod_small by lia. rewrite int_small by lia. lia. }
  rewrite length_factory_layout, Hs2.
  split; [lia|]. split.
  - pose proof (GetDataLengthFromVerificationHeader_app []
                  (outer_block c ++ s2) (Z.of_nat (length c) + 65) old)
      as Hg.
    cbn [app length] in Hg. change (Z.of_nat 0) with 0 in Hg.
    fold (factory_layout c s2) in Hg. rewrite Hg.
    rewrite size_t_int_small by lia. do 2 f_equal. lia.
  - pose proof (GetDataLengthFromEncryptionHeader_app
                  (VerificationHeader (Z.of_nat (length c) + 65))
                  (iv_text IV ++ salted_prefix ++ c ++ s2)
                  (Z.of_nat (length c) + 16) old) as Hg.
    rewrite (length_VerificationHeader (Z.of_nat (length c) + 65)) in Hg.
    change (Z.of_nat 16) with 16 in Hg.
    replace (VerificationHeader (Z.of_nat (length c) + 65)
             ++ EncryptionHeader (Z.of_nat (length c) + 16)
             ++ iv_text IV ++ salted_prefix ++ c ++ s2)
      with (factory_layout c s2) in Hg
      by (unfold factory_layout, outer_block; rewrite <- !app_assoc;
          reflexivity).
    rewrite Hg. rewrite size_t_int_small by lia. do 2 f_equal. lia.
Qed.

Lemma factory_image_size_and_headers_witness :
  Z.of_nat (length Toy.image) + 609
    <= Z.of_nat (length (default []
                           (@factory_image Toy.libs Toy.M32 Toy.image)))
    <= Z.of_nat (length Toy.image) + 625
  /\ GetDataLengthFromVerificationHeader
       (default [] (@factory_image Toy.libs Toy.M32 Toy.image)) 0 7
     = Some (0, Z.of_nat (length (default []
                          (@factory_image Toy.libs Toy.M32 Toy.image)))
                - 272)
  /\ GetDataLengthFromEncryptionHeader
       (default [] (@factory_image Toy.libs Toy.M32 Toy.image)) 16 7
     = Some (0, Z.of_nat (length (default []
                          (@factory_image Toy.libs Toy.M32 Toy.image)))
                - 321).
Proof.
  apply (@factory_image_size_and_headers Toy.libs Toy_libs_spec Toy.env
           Toy.image "factory.bin" Toy.M32
           (default [] (@factory_image Toy.libs Toy.M32 Toy.image)) 7).
  - exact Toy_M32_in_table.
  - vm_compute. reflexivity.
  - vm_compute. reflexivity.
Defined.

(** X12: a recovery image of [n] bytes with [2^31 <= n + 272 < 2^32] is
    never turned into a factory image: the length that
    [EVP_EncryptUpdate] receives, an [int], is negative, and the run
    fails. *)
Theorem factory_image_refused_from_2GiB `{LS : LibsSpec}
    (env : Env) (file : list byte) (outputFile : string)
    (device : M32FirmwareUtilDeviceInfoType) :
  device ∈ M32FirmwareUtilDeviceInfos ->
  2 ^ 31 <= Z.of_nat (length file) + 272 < 2 ^ 32 ->
  CreateFactoryImageFromRecoveryImage env file outputFile device
  = Some failed.
Proof.
  intros Hdev Hn.
  destruct (sign_data_Some device file Hdev) as (sig1 & Hsig1 & _).
  rewrite (CreateFactoryImageFromRecoveryImage_eval env file outputFile
             device sig1 Hdev ltac:(lia) Hsig1).
  assert (Hinl : encrypt_inl file < 0).
  { unfold encrypt_inl, M32_FIRMWARE_HEADER_LENGTH,
      M32_FIRMWARE_SIGNATURE_LENGTH, size_t, int.
    rewrite (Z.mod_small _ (2 ^ 64)) by lia.
    change (2 ^ 31) with 2147483648 in *.
    change (2 ^ 32) with 4294967296 in *. lia. }
  unfold encrypt_block. rewrite EVP_Encrypt_negative by exact Hinl.
  destruct (_ && _); reflexivity.
Qed.

Lemma factory_image_refused_from_2GiB_witness :
  @CreateFactoryImageFromRecoveryImage Toy.libs Toy.env
    (replicate (Z.to_nat (2 ^ 31)) x00) "factory.bin" Toy.M32
  = Some failed.
Proof.
  apply (@factory_image_refused_from_2GiB Toy.libs Toy_libs_spec Toy.env
           (replicate (Z.to_nat (2 ^ 31)) x00) "factory.bin" Toy.M32).
  - exact Toy_M32_in_table.
  - rewrite length_replicate, Z2Nat.id by lia. lia.
Defined.

(** ** What DecryptFactoryImage accepts and what it refuses *)

Lemma length_any_VerificationHeader (n : Z) (tail : list byte) :
  length (any_VerificationHeader n tail) = (8 + length tail)%nat.
Proof.
  unfold any_VerificationHeader. rewrite !length_app. reflexivity.
Qed.

Lemma length_any_EncryptionHeader (tag : list byte) (n : Z)
    (tail : list byte) :
  length (any_EncryptionHeader tag n tail)
  = (8 + length tag + length tail)%nat.
Proof.
  unfold any_EncryptionHeader. rewrite !length_app.
  change (length (bytes_of_string "MH01")) with 4%nat.
  change (length (le32 n)) with 4%nat. lia.
Qed.

Lemma DecryptAes128Cbc_stage `{L : Libs}
    (device : M32FirmwareUtilDeviceInfoType) (iv : list byte)
    (pre marker salt' c rest out plain : list byte) :
  length pre = 65%nat -> length marker = 8%nat -> length salt' = 8%nat ->
  Z.of_nat (length c) < 2 ^ 31 ->
  (length plain <= length out)%nat ->
  EVP_Decrypt
    (EVP_BytesToKey salt' (bytes_of_string (FirmwareKey device))).1 iv
    (c ++ rest) (Z.of_nat (length c))
  = Some plain ->
  DecryptAes128Cbc (concat [pre; marker; salt'; c; rest]) 65
    (Z.of_nat (length c) + 16) out (FirmwareKey device) iv
  = Some (plain ++ drop (length plain) out, 0).
Proof.
  intros Hpre Hmarker Hsalt Hc Hfit Hdec. unfold DecryptAes128Cbc.
  rewrite (read_bytes_concat [pre; marker] salt' [c; rest])
    by (cbn [concat app]; rewrite ?length_app; cbn [length]; lia).
  cbn [mbind option_bind].
  rewrite (view_concat [pre; marker; salt'] [c; rest])
    by (cbn [concat app]; rewrite ?length_app; cbn [length]; lia).
  cbn [concat]. rewrite app_nil_r.
  replace (int (size_t (Z.of_nat (length c) + 16 - 16)))
    with (Z.of_nat (length c)).
  2:{ unfold size_t. replace (Z.of_nat (length c) + 16 - 16)
        with (Z.of_nat (length c)) by lia.
      rewrite Z.mod_small by lia. rewrite int_small by lia. reflexivity. }
  destruct (EVP_BytesToKey salt' (bytes_of_string (FirmwareKey device)))
    as [key iv'] eqn:Hkey.
  cbn [fst] in Hdec. rewrite Hdec.
  pose proof (write_bytes_app_at [] out plain 0 eq_refl Hfit) as Hw.
  cbn [app] in Hw. rewrite Hw. reflexivity.
Qed.

(** X13: DecryptFactoryImage writes nothing when the outer signature does
    not verify.  For a file that starts with a header of the verification
    kind, the data that the header counts and 256 bytes more, the run
    fails when [EVP_DigestVerifyFinal] returns 0 for those 256 bytes, or
    the digest or the public key cannot be had. *)
Theorem DecryptFactoryImage_refuses_outer_signature `{L : Libs}
    (env : Env) (device : M32FirmwareUtilDeviceInfoType)
    (outputFile : string) (tail data signature rest : list byte) :
  length tail = 8%nat -> length signature = 256%nat ->
  Z.of_nat (length data) < 2 ^ 31 ->
  verify_data device data signature = Some 0
    \/ verify_data device data signature = None ->
  DecryptFactoryImage env
    (any_VerificationHeader (Z.of_nat (length data)) tail
     ++ data ++ signature ++ rest)
    outputFile device
  = Some failed.
Proof.
  intros Htail Hsig Hdata Hverify.
  set (h := any_VerificationHeader (Z.of_nat (length data)) tail).
  assert (Hh : length h = 16%nat)
    by (unfold h; rewrite length_any_VerificationHeader; lia).
  unfold DecryptFactoryImage, malloc.
  destruct (malloc_null env 0); [reflexivity|].
  destruct (fread_short env); [reflexivity|].
  unfold M32_FIRMWARE_HEADER_LENGTH. cbv zeta.
  change (size_t (0 + 16)) with 16.
  pose proof (GetDataLengthFromVerificationHeader_any [] (tail ++ data
                ++ signature ++ rest) (Z.of_nat (length data)) 0
                ltac:(lia)) as Hg.
  cbn [app length] in Hg. change (Z.of_nat 0) with 0 in Hg.
  replace (bytes_of_string "MH01" ++ le32 (Z.of_nat (length data))
           ++ tail ++ data ++ signature ++ rest)
    with (h ++ data ++ signature ++ rest) in Hg
    by (unfold h, any_VerificationHeader; rewrite <- !app_assoc;
        reflexivity).
  rewrite Hg. clear Hg. cbn [mbind option_bind]. status_ok.
  destruct (Z.ltb_spec (Z.of_nat (length (h ++ data ++ signature ++ rest)))
              16) as [Hshort|_];
    [rewrite length_app in Hshort; lia|].
  replace (h ++ data ++ signature ++ rest)
    with (concat [h; data; signature; rest])
    by (cbn [concat]; rewrite app_nil_r; reflexivity).
  rewrite (VerifySha512Signture_spec _ data signature);
    [|apply (read_bytes_concat [h] data [signature; rest]);
      cbn [concat app]; rewrite ?length_app; cbn [length]; lia
     |apply (read_bytes_concat [h; data] signature [rest]);
      cbn [concat app]; rewrite ?length_app; cbn [length]; lia].
  destruct Hverify as [-> | ->]; reflexivity.
Qed.

Lemma DecryptFactoryImage_refuses_outer_signature_witness :
  @DecryptFactoryImage Toy.libs Toy.env
    (any_VerificationHeader (Z.of_nat (length (replicate 20 x01)))
       (replicate 8 x00)
     ++ replicate 20 x01 ++ replicate 256 x02 ++ [])
    "recovered.bin" Toy.M32
  = Some failed.
Proof.
  apply (@DecryptFactoryImage_refuses_outer_signature Toy.libs Toy.env
           Toy.M32 "recovered.bin" (replicate 8 x00) (replicate 20 x01)
           (replicate 256 x02) []).
  - reflexivity.
  - reflexivity.
  - vm_compute. reflexivity.
  - left. vm_compute. reflexivity.
Defined.

(** X14: what DecryptFactoryImage accepts.  The file is a header of the
    verification kind, a header of the encryption kind, the text of an
    initialization vector, 8 bytes, a salt, the encrypted data, a
    signature and anything after it; the decrypted data is a header of the
    verification kind, the payload, a signature and anything after it.
    Tags, markers and checksum pairs of the headers, the 8 bytes before the
    salt and what follows the signatures are not looked at, and a
    signature passes whenever [EVP_DigestVerifyFinal] returns a value other
    than 0, a negative one included.  The run then writes the payload,
    unless memory allocation, reading the input or writing the output
    fails. *)
Theorem DecryptFactoryImage_accepts `{LS : LibsSpec}
    (env : Env) (device : M32FirmwareUtilDeviceInfoType)
    (outputFile : string)
    (t1 tag t2 iv marker salt' c s2 rest t3 payload s1 extra : list byte)
    (r1 r2 : Z) :
  length t1 = 8%nat -> length tag = 4%nat -> length t2 = 4%nat ->
  length iv = 16%nat -> length marker = 8%nat -> length salt' = 8%nat ->
  length s2 = 256%nat -> length t3 = 8%nat -> length s1 = 256%nat ->
  Z.of_nat (length c) + 65 < 2 ^ 31 ->
  verify_data device
    (any_EncryptionHeader tag (Z.of_nat (length c) + 16) t2
     ++ iv_text iv ++ marker ++ salt' ++ c) s2
  = Some r2 ->
  r2 <> 0 ->
  EVP_Decrypt
    (EVP_BytesToKey salt' (bytes_of_string (FirmwareKey device))).1 iv
    (c ++ s2 ++ rest) (Z.of_nat (length c))
  = Some (any_VerificationHeader (Z.of_nat (length payload)) t3
          ++ payload ++ s1 ++ extra) ->
  (16 + length payload + 256 + length extra <= length c + 16)%nat ->
  verify_data device payload s1 = Some r1 ->
  r1 <> 0 ->
  DecryptFactoryImage env
    (any_VerificationHeader (Z.of_nat (length c) + 65) t1
     ++ (any_EncryptionHeader tag (Z.of_nat (length c) + 16) t2
         ++ iv_text iv ++ marker ++ salt' ++ c)
     ++ s2 ++ rest)
    outputFile device
  = Some
      (if split_environment_ok env outputFile
       then {| status := 0; output := Some payload |}
       else failed).
Proof.
  intros Ht1 Htag Ht2 Hiv Hmarker Hsalt Hs2 Ht3 Hs1 Hc Hv2 Hr2 Hdec Hfit
    Hv1 Hr1.
  set (h1 := any_VerificationHeader (Z.of_nat (length c) + 65) t1) in *.
  set (h2 := any_EncryptionHeader tag (Z.of_nat (length c) + 16) t2) in *.
  set (h3 := any_VerificationHeader (Z.of_nat (length payload)) t3) in *.
  set (signed := h2 ++ iv_text iv ++ marker ++ salt' ++ c) in *.
  assert (Hh1 : length h1 = 16%nat)
    by (unfold h1; rewrite length_any_VerificationHeader; lia).
  assert (Hh2 : length h2 = 16%nat)
    by (unfold h2; rewrite length_any_EncryptionHeader; lia).
  assert (Hh3 : length h3 = 16%nat)
    by (unfold h3; rewrite length_any_VerificationHeader; lia).
  assert (Hivt : length (iv_text iv) = 33%nat)
    by (rewrite length_iv_text; lia).
  assert (Hsigned : length signed = (length c + 65)%nat).
  { unfold signed. rewrite !length_app, Hh2, Hivt. lia. }
  set (f := h1 ++ signed ++ s2 ++ rest).
  assert (Hf : Z.of_nat (length f) = Z.of_nat (length c)
                                     + 337 + Z.of_nat (length rest)).
  { unfold f. rewrite !length_app, Hh1, Hsigned. lia. }
  assert (Hf1 : concat [h1; signed; s2; rest] = f).
  { unfold f. cbn [concat]. rewrite app_nil_r. reflexivity. }
  assert (Hf4 : concat [h1 ++ h2 ++ iv_text iv; marker; salt'; c;
                        s2 ++ rest] = f).
  { unfold f, signed. cbn [concat].
    rewrite <- !app_assoc, app_nil_r. reflexivity. }
  unfold DecryptFactoryImage, split_environment_ok, malloc.
  destruct (malloc_null env 0); [reflexivity|].
  destruct (fread_short env); [reflexivity|].
  cbn [negb andb].
  unfold M32_FIRMWARE_HEADER_LENGTH,
    M32_FIRMWARE_INITIALIZATION_VECTOR_LENGTH, AES_BLOCK_SIZE.
  cbv zeta.
  change (size_t (0 + 16)) with 16.
  change (size_t (16 + 16)) with 32.
  change (size_t (32 + 33)) with 65.
  change (size_t (65 + 16)) with 81.
  (* the outer header and signature *)
  pose proof (GetDataLengthFromVerificationHeader_any []
                (t1 ++ signed ++ s2 ++ rest) (Z.of_nat (length c) + 65) 0
                ltac:(lia)) as Hg.
  cbn [app length] in Hg. change (Z.of_nat 0) with 0 in Hg.
  replace (bytes_of_string "MH01" ++ le32 (Z.of_nat (length c) + 65)
           ++ t1 ++ signed ++ s2 ++ rest) with f in Hg
    by (unfold f, h1, any_VerificationHeader; rewrite <- !app_assoc;
        reflexivity).
  rewrite Hg. clear Hg. cbn [mbind option_bind]. status_ok.
  size_ok.
  rewrite (VerifySha512Signture_spec _ signed s2);
    [|rewrite <- Hf1;
      apply (read_bytes_concat [h1] signed [s2; rest]);
      cbn [concat app]; rewrite ?length_app; cbn [length]; lia
     |rewrite <- Hf1;
      apply (read_bytes_concat [h1; signed] s2 [rest]);
      cbn [concat app]; rewrite ?length_app; cbn [length]; lia].
  rewrite Hv2. cbn [mbind option_bind].
  destruct (Z.eqb_spec r2 0) as [|_]; [contradiction|]. status_ok.
  (* the encryption header and the initialization vector *)
  pose proof (GetDataLengthFromEncryptionHeader_any h1 tag
                (t2 ++ iv_text iv ++ marker ++ salt' ++ c ++ s2 ++ rest)
                (Z.of_nat (length c) + 16) (Z.of_nat (length c) + 65)
                ltac:(lia) Htag) as Hg.
  rewrite Hh1 in Hg. change (Z.of_nat 16) with 16 in Hg.
  replace (h1 ++ bytes_of_string "MH01" ++ tag
           ++ le32 (Z.of_nat (length c) + 16) ++ t2 ++ iv_text iv
           ++ marker ++ salt' ++ c ++ s2 ++ rest) with f in Hg
    by (unfold f, signed, h2, any_EncryptionHeader;
        rewrite <- !app_assoc; reflexivity).
  rewrite Hg. clear Hg. cbn [mbind option_bind]. status_ok.
  size_ok.
  pose proof (ConvertAsciiIvToHexArray_spec (h1 ++ h2) iv
                (marker ++ salt' ++ c ++ s2 ++ rest)
                (stack_junk env <$> seq 0 (Z.to_nat 16)) 32) as Hg.
  replace ((h1 ++ h2) ++ iv_text iv ++ marker ++ salt' ++ c ++ s2 ++ rest)
    with f in Hg
    by (unfold f, signed; rewrite <- !app_assoc; reflexivity).
  rewrite Hg;
    [|rewrite length_app; lia
     |rewrite length_fmap, length_seq, Hiv; reflexivity].
  clear Hg. status_ok. size_ok.
  destruct (malloc_null env 1); [reflexivity|].
  cbn [negb andb].
  (* decryption, the inner header and signature *)
  set (out := malloc_junk env 1 <$> seq 0 _).
  assert (Hout : length out = (length c + 16)%nat).
  { subst out. rewrite length_fmap, length_seq. lia. }
  clearbody out.
  set (plain := h3 ++ payload ++ s1 ++ extra) in *.
  assert (Hplain : length plain
                   = (16 + length payload + 256 + length extra)%nat).
  { unfold plain. rewrite !length_app, Hh3, Hs1. lia. }
  pose proof (DecryptAes128Cbc_stage device iv (h1 ++ h2 ++ iv_text iv)
                marker salt' c (s2 ++ rest) out plain) as Hg.
  rewrite Hf4 in Hg. rewrite Hg;
    [|rewrite !length_app; lia|exact Hmarker|exact Hsalt|lia|lia
     |exact Hdec].
  clear Hg. cbn [mbind option_bind]. status_ok.
  set (junk := drop (length plain) out).
  pose proof (GetDataLengthFromVerificationHeader_any []
                (t3 ++ payload ++ s1 ++ extra ++ junk)
                (Z.of_nat (length payload)) (Z.of_nat (length c) + 16)
                ltac:(lia)) as Hg.
  cbn [app length] in Hg. change (Z.of_nat 0) with 0 in Hg.
  replace (bytes_of_string "MH01" ++ le32 (Z.of_nat (length payload))
           ++ t3 ++ payload ++ s1 ++ extra ++ junk)
    with (plain ++ junk) in Hg
    by (unfold plain, h3, any_VerificationHeader; rewrite <- !app_assoc;
        reflexivity).
  rewrite Hg. clear Hg. cbn [mbind option_bind]. status_ok.
  size_ok.
  replace (plain ++ junk)
    with (concat [h3; payload; s1; extra ++ junk])
    by (unfold plain; cbn [concat]; rewrite <- !app_assoc, app_nil_r;
        reflexivity).
  rewrite (VerifySha512Signture_spec _ payload s1);
    [|apply (read_bytes_concat [h3] payload [s1; extra ++ junk]);
      cbn [concat app]; rewrite ?length_app; cbn [length]; lia
     |apply (read_bytes_concat [h3; payload] s1 [extra ++ junk]);
      cbn [concat app]; rewrite ?length_app; cbn [length]; lia].
  rewrite Hv1. cbn [mbind option_bind].
  destruct (Z.eqb_spec r1 0) as [|_]; [contradiction|]. status_ok.
  destruct (WriteBufferToFile env outputFile =? 0); [|reflexivity].
  cbn [negb].
  rewrite (read_bytes_concat [h3] payload [s1; extra ++ junk])
    by (cbn [concat app]; rewrite ?length_app; cbn [length]; lia).
  reflexivity.
Qed.

Lemma DecryptFactoryImage_accepts_witness :
  @DecryptFactoryImage Toy.libs Toy.env loose_factory_image "recovered.bin"
    Toy.M32
  = Some
      (if split_environment_ok Toy.env "recovered.bin"
       then {| status := 0; output := Some Toy.image |}
       else failed).
Proof.
  apply (@DecryptFactoryImage_accepts Toy.libs Toy_libs_spec Toy.env Toy.M32
           "recovered.bin" (replicate 8 x00) [xff; xff; xff; xff]
           (replicate 4 x00) IV (bytes_of_string "Pepper__") salt
           loose_encrypted (Toy.sign x32 (Toy.digest loose_signed))
           [x00; x00; x00] (replicate 8 x00) Toy.image
           (Toy.sign x32 (Toy.digest Toy.image)) [] 1 1).
  - reflexivity.
  - reflexivity.
  - reflexivity.
  - reflexivity.
  - reflexivity.
  - reflexivity.
  - reflexivity.
  - reflexivity.
  - reflexivity.
  - vm_compute. reflexivity.
  - vm_compute. reflexivity.
  - discriminate.
  - vm_compute. reflexivity.
  - vm_compute. lia.
  - vm_compute. reflexivity.
  - discriminate.
Defined.

(** ** main *)

Lemma find_device_None (deviceArg : string) :
  deviceArg ∉ Name <$> M32FirmwareUtilDeviceInfos ->
  find_device deviceArg = None.
Proof.
  intros Hd. unfold find_device, M32FirmwareUtilDeviceInfos in *.
  cbn [fmap list_fmap foldl Name] in *.
  rewrite !not_elem_of_cons in Hd.
  destruct Hd as (H30 & H32 & HR32 & H60 & _).
  rewrite !(proj2 (String.eqb_neq _ _)) by congruence.
  reflexivity.
Qed.

Lemma find_device_Some (deviceArg : string)
    (device : M32FirmwareUtilDeviceInfoType) :
  find_device deviceArg = Some device ->
  device ∈ M32FirmwareUtilDeviceInfos /\ Name device = deviceArg.
Proof.
  unfold find_device, M32FirmwareUtilDeviceInfos.
  cbn [foldl Name].
  rewrite !elem_of_cons.
  destruct (String.eqb_spec "M60" deviceArg) as [<-|];
    [intros [= <-]; split; [tauto|reflexivity]|].
  destruct (String.eqb_spec "R32" deviceArg) as [<-|];
    [intros [= <-]; split; [tauto|reflexivity]|].
  destruct (String.eqb_spec "M32" deviceArg) as [<-|];
    [intros [= <-]; split; [tauto|reflexivity]|].
  destruct (String.eqb_spec "M30" deviceArg) as [<-|];
    [intros [= <-]; split; [tauto|reflexivity]|].
  discriminate.
Qed.

Lemma find_operation_None `{L : Libs} (operationArg : string) :
  operationArg ∉ Operations.Argument <$> M32FirmwareUtilOperations ->
  find_operation operationArg = None.
Proof.
  intros Ho. unfold find_operation, M32FirmwareUtilOperations in *.
  cbn [fmap list_fmap foldl Operations.Argument] in *.
  rewrite !not_elem_of_cons in Ho.
  destruct Ho as (H1 & H2 & H3 & _).
  rewrite !(proj2 (String.eqb_neq _ _)) by congruence.
  reflexivity.
Qed.

(** [main] with five or seven arguments, up to the lookups in the
    tables. *)
Lemma main_args `{L : Libs} (env : Env) (files : Files) (argv : list string) :
  length argv = 5%nat \/ length argv = 7%nat ->
  exists programName deviceArg operationArg inputFileArg outputFileArg
         more write folder,
    argv = programName :: deviceArg :: operationArg :: inputFileArg
           :: outputFileArg :: more
    /\ main env files argv
       = match find_operation operationArg, find_device deviceArg with
         | Some entry, Some device =>
             match fopen_rb files inputFileArg with
             | None => Some failed
             | Some file =>
                 if fileno_fails files then Some failed
                 else if fstat_fails files then Some failed
                 else if Z.of_nat (length file)
                         <? Operations.MinimumFileSize entry
                 then Some failed
                 else Operations.Operation entry
                        (with_debug env write folder) file outputFileArg
                        device
             end
         | _, _ => Some failed
         end.
Proof.
  intros [Hlen|Hlen].
  - destruct argv as [|a0 [|a1 [|a2 [|a3 [|a4 [|]]]]]]; try discriminate.
    exists a0, a1, a2, a3, a4, [], false, "".
    split; reflexivity.
  - destruct argv as [|a0 [|a1 [|a2 [|a3 [|a4 [|a5 [|a6 [|]]]]]]]];
      try discriminate.
    exists a0, a1, a2, a3, a4, [a5; a6].
    destruct (String.eqb "--debug" a5) eqn:Hdebug.
    + exists true, a6. split; [reflexivity|].
      unfold main. cbn [length lookup list_lookup mbind option_bind].
      change (negb (Z.of_nat 7 =? 5) && negb (Z.of_nat 7 =? 7)) with false.
      change (6 <? Z.of_nat 7) with true. cbv iota. rewrite Hdebug.
      reflexivity.
    + exists false, "". split; [reflexivity|].
      unfold main. cbn [length lookup list_lookup mbind option_bind].
      change (negb (Z.of_nat 7 =? 5) && negb (Z.of_nat 7 =? 7)) with false.
      change (6 <? Z.of_nat 7) with true. cbv iota. rewrite Hdebug.
      reflexivity.
Qed.

(** X15: [main] returns 1 and runs no operation when the number of
    arguments, the program name included, is neither 5 nor 7, when the
    device is none of [M30], [M32], [R32], [M60], and when the operation is
    none of the three of the table. *)
Theorem main_usage_errors `{L : Libs} (env : Env) (files : Files)
    (argv : list string) :
  (length argv <> 5%nat /\ length argv <> 7%nat)
  \/ (exists deviceArg,
        argv !! 1%nat = Some deviceArg
        /\ deviceArg ∉ Name <$> M32FirmwareUtilDeviceInfos)
  \/ (exists operationArg,
        argv !! 2%nat = Some operationArg
        /\ operationArg
           ∉ Operations.Argument <$> M32FirmwareUtilOperations) ->
  main env files argv = Some failed.
Proof.
  intros Hbad.
  destruct (decide (length argv = 5%nat \/ length argv = 7%nat))
    as [Hlen|Hlen].
  - destruct (main_args env files argv Hlen)
      as (a0 & d & op & inp & out & more & write & folder & -> & ->).
    destruct Hbad as [[H5 H7]|[(d' & [= <-] & Hd)|(op' & [= <-] & Ho)]].
    + tauto.
    + rewrite (find_device_None d Hd).
      destruct (find_operation op); reflexivity.
    + rewrite (find_operation_None op Ho). reflexivity.
  - unfold main.
    destruct (Z.eqb_spec (Z.of_nat (length argv)) 5) as [H5|H5];
      [exfalso; apply Hlen; left; lia|].
    destruct (Z.eqb_spec (Z.of_nat (length argv)) 7) as [H7|H7];
      [exfalso; apply Hlen; right; lia|].
    reflexivity.
Qed.

Lemma main_usage_errors_witness :
  @main Toy.libs Toy.env
    {| fopen_rb := fun _ => Some Toy.image;
       fileno_fails := false; fstat_fails := false |}
    ["m32-firmware-util"; "M31"; "--CreateFactoryImage"; "in.bin";
     "out.bin"]
  = Some failed.
Proof.
  apply (@main_usage_errors Toy.libs).
  right. left. exists "M31". split; [reflexivity|].
  unfold M32FirmwareUtilDeviceInfos. cbn [fmap list_fmap Name].
  rewrite !not_elem_of_cons. repeat split; try discriminate.
  apply not_elem_of_nil.
Defined.

(** X16: [main] runs no operation on an input that it cannot open or
    whose size it cannot get, nor on one shorter than the minimum of the
    operation: 80 bytes for [--UpdateFirmwareHeader], 1024 for
    [--CreateFactoryImage] and 1568 for [--DecryptFactoryImage]. *)
Theorem main_input_checks `{L : Libs} (env : Env) (files : Files)
    (argv : list string) (operationArg inputFileArg : string) :
  length argv = 5%nat \/ length argv = 7%nat ->
  argv !! 2%nat = Some operationArg ->
  argv !! 3%nat = Some inputFileArg ->
  fopen_rb files inputFileArg = None
  \/ fileno_fails files = true
  \/ fstat_fails files = true
  \/ (exists file minimum,
        fopen_rb files inputFileArg = Some file
        /\ (operationArg, minimum)
           ∈ [("--UpdateFirmwareHeader", 80); ("--CreateFactoryImage", 1024);
              ("--DecryptFactoryImage", 1568)]
        /\ Z.of_nat (length file) < minimum) ->
  main env files argv = Some failed.
Proof.
  intros Hlen Hop Hin Hbad.
  destruct (main_args env files argv Hlen)
    as (a0 & d & op & inp & out & more & write & folder & -> & ->).
  injection Hop as ->. injection Hin as ->.
  destruct (find_operation operationArg) as [entry|] eqn:Hentry;
    [|reflexivity].
  destruct (find_device d) as [device|]; [|reflexivity].
  destruct Hbad as [->|[Hno|[Hst|(file & minimum & -> & Hmin & Hsize)]]].
  - reflexivity.
  - destruct (fopen_rb files inputFileArg); [|reflexivity].
    rewrite Hno. reflexivity.
  - destruct (fopen_rb files inputFileArg); [|reflexivity].
    rewrite Hst. destruct (fileno_fails files); reflexivity.
  - destruct (fileno_fails files); [reflexivity|].
    destruct (fstat_fails files); [reflexivity|].
    assert (Hm : Operations.MinimumFileSize entry = minimum).
    { rewrite !elem_of_cons in Hmin.
      destruct Hmin as [[= -> ->]|[[= -> ->]|[[= -> ->]|Hnil]]];
        [| | |apply elem_of_nil in Hnil; destruct Hnil];
        injection Hentry as <-; reflexivity. }
    rewrite Hm.
    destruct (Z.ltb_spec (Z.of_nat (length file)) minimum); [reflexivity|lia].
Qed.

Lemma main_input_checks_witness :
  @main Toy.libs Toy.env
    {| fopen_rb := fun _ => Some (replicate 1023 x00);
       fileno_fails := false; fstat_fails := false |}
    ["m32-firmware-util"; "M32"; "--CreateFactoryImage"; "in.bin";
     "out.bin"]
  = Some failed.
Proof.
  apply (@main_input_checks Toy.libs Toy.env _ _ "--CreateFactoryImage"
           "in.bin").
  - left. reflexivity.
  - reflexivity.
  - reflexivity.
  - right. right. right. exists (replicate 1023 x00), 1024.
    split; [reflexivity|]. split.
    + rewrite !elem_of_cons. right. left. reflexivity.
    + simpl. lia.
Defined.

(** What a successful build leaves in the output file, and what
    [DecryptFactoryImage] makes of it. *)
Lemma built_image_splits `{LS : LibsSpec}
    (env1 env2 : Env) (x image : list byte) (outputFile1 outputFile2 : string)
    (device : M32FirmwareUtilDeviceInfoType) :
  device ∈ M32FirmwareUtilDeviceInfos ->
  Z.of_nat (length x) + 353 < 2 ^ 31 ->
  CreateFactoryImageFromRecoveryImage env1 x outputFile1 device
  = Some {| status := 0; output := Some image |} ->
  Z.of_nat (length x) + 609 <= Z.of_nat (length image)
  /\ DecryptFactoryImage env2 image outputFile2 device
     = Some
         (if split_environment_ok env2 outputFile2
          then {| status := 0; output := Some x |}
          else failed).
Proof.
  intros Hdev Hn Hrun.
  destruct (sign_data_Some device x Hdev) as (sig1 & Hsig1 & Hs1 & Hv1).
  destruct (CreateFactoryImageFromRecoveryImage_success env1 x outputFile1
              device _ Hdev Hrun eq_refl) as (image' & Himage & [= <-]).
  unfold factory_image in Himage.
  rewrite Hsig1 in Himage. cbn [mbind option_bind] in Himage.
  destruct (encrypt_block device x sig1) as [c|] eqn:Hc; [|discriminate].
  cbn [mbind option_bind] in Himage.
  destruct (sign_data_Some device (outer_block c) Hdev)
    as (s2 & Hsig2 & Hs2 & Hv2).
  rewrite Hsig2 in Himage. injection Himage as <-.
  split.
  - pose proof (encrypt_block_length device x sig1 c Hs1 ltac:(lia) Hc)
      as (_ & Hlen & _).
    assert (Hinl : encrypt_inl x = Z.of_nat (length x) + 272).
    { unfold encrypt_inl, M32_FIRMWARE_HEADER_LENGTH,
        M32_FIRMWARE_SIGNATURE_LENGTH, size_t.
      rewrite Z.mod_small by lia. rewrite int_small by lia. lia. }
    rewrite length_factory_layout. lia.
  - apply (DecryptFactoryImage_eval env2 device x sig1 c s2 outputFile2);
      assumption.
Qed.

(** X17: the two operations, run from the command line one after the
    other with the same device name, give the recovery image back: the
    factory image that a successful [--CreateFactoryImage] wrote is long
    enough for [--DecryptFactoryImage], whose output is the first input,
    and which fails only when memory allocation, reading its input or
    writing its output fails.  The recovery image is below [2^31 - 353]
    bytes; each command line may end in [--debug] and a directory. *)
Theorem main_round_trip `{LS : LibsSpec}
    (env1 env2 : Env) (files1 files2 : Files)
    (program1 program2 deviceArg input1 output1 input2 output2 : string)
    (debug1 debug2 : list string) (x image : list byte) :
  length debug1 = 0%nat \/ length debug1 = 2%nat ->
  length debug2 = 0%nat \/ length debug2 = 2%nat ->
  fopen_rb files1 input1 = Some x ->
  Z.of_nat (length x) + 353 < 2 ^ 31 ->
  main env1 files1
    ([program1; deviceArg; "--CreateFactoryImage"; input1; output1]
     ++ debug1)
  = Some {| status := 0; output := Some image |} ->
  fopen_rb files2 input2 = Some image ->
  fileno_fails files2 = false ->
  fstat_fails files2 = false ->
  main env2 files2
    ([program2; deviceArg; "--DecryptFactoryImage"; input2; output2]
     ++ debug2)
  = Some
      (if split_environment_ok env2 output2
       then {| status := 0; output := Some x |}
       else failed).
Proof.
  intros Hd1 Hd2 Hin1 Hn Hrun Hin2 Hno2 Hst2.
  destruct (main_args env1 files1
              ([program1; deviceArg; "--CreateFactoryImage"; input1; output1]
               ++ debug1))
    as (a0 & d & op & inp & out & more & write1 & folder1 & Hargv & Hmain).
  { rewrite length_app. cbn [length]. lia. }
  injection Hargv as <- <- <- <- <- _.
  rewrite Hmain in Hrun. clear Hmain.
  destruct (main_args env2 files2
              ([program2; deviceArg; "--DecryptFactoryImage"; input2; output2]
               ++ debug2))
    as (b0 & d & op & inp & out & more2 & write2 & folder2 & Hargv & ->).
  { rewrite length_app. cbn [length]. lia. }
  injection Hargv as <- <- <- <- <- _.
  change (find_operation "--CreateFactoryImage")
    with (Some (Operations.Build_M32FirmwareUtilOperationsType
                  "--CreateFactoryImage"
                  "Create a factory image from a recovery image"
                  CreateFactoryImageFromRecoveryImage 1024)) in Hrun.
  change (find_operation "--DecryptFactoryImage")
    with (Some (Operations.Build_M32FirmwareUtilOperationsType
                  "--DecryptFactoryImage" "Decrypts a factory image"
                  DecryptFactoryImage 1568)).
  destruct (find_device deviceArg) as [device|] eqn:Hdevice;
    [|discriminate].
  destruct (find_device_Some deviceArg device Hdevice) as [Hdev _].
  rewrite Hin1 in Hrun. rewrite Hin2, Hno2, Hst2.
  cbn [Operations.MinimumFileSize Operations.Operation] in *.
  destruct (fileno_fails files1); [discriminate|].
  destruct (fstat_fails files1); [discriminate|].
  destruct (Z.ltb_spec (Z.of_nat (length x)) 1024) as [|Hmin];
    [discriminate|].
  destruct (built_image_splits (with_debug env1 write1 folder1)
              (with_debug env2 write2 folder2) x image output1 output2 device
              Hdev Hn Hrun) as [Hlen Hsplit].
  destruct (Z.ltb_spec (Z.of_nat (length image)) 1568); [lia|].
  rewrite Hsplit.
  reflexivity.
Qed.

Lemma main_round_trip_witness :
  @main Toy.libs Toy.other_env
    {| fopen_rb :=
         fun _ => Some (default [] (@factory_image Toy.libs Toy.M32
                                      Toy.image));
       fileno_fails := false; fstat_fails := false |}
    (["m32-firmware-util"; "M32"; "--DecryptFactoryImage"; "factory.bin";
      "recovered.bin"] ++ ["--debug"; "dbg"])
  = Some {| status := 0; output := Some Toy.image |}.
Proof.
  apply (@main_round_trip Toy.libs Toy_libs_spec Toy.env Toy.other_env
           {| fopen_rb := fun _ => Some Toy.image;
              fileno_fails := false; fstat_fails := false |}
           _ "m32-firmware-util" "m32-firmware-util" "M32" "recovery.bin"
           "factory.bin" "factory.bin" "recovered.bin" [] ["--debug"; "dbg"]
           Toy.image
           (default [] (@factory_image Toy.libs Toy.M32 Toy.image))).
  - left. reflexivity.
  - right. reflexivity.
  - reflexivity.
  - vm_compute. reflexivity.
  - vm_compute. reflexivity.
  - reflexivity.
  - reflexivity.
  - reflexivity.
Defined.

(** ** The inverted checksum makes the sum come out as 0xFFFF *)

(** X18: when [Caclulate16BitSum] stores the inverted sum of an even
    number of bytes right behind them, the routine run again, not inverted,
    over those bytes and the stored pair computes [0xFFFF]: this is how a
    reader checks a block that carries its checksum. *)
Theorem Caclulate16BitSum_inverted_verifies (m : list byte)
    (buffer bufferLength : Z) :
  0 <= buffer -> 0 <= bufferLength <= INT_MAX - 3 ->
  bufferLength mod 2 = 0 ->
  buffer + bufferLength + 2 <= Z.of_nat (length m) ->
  exists m',
    Caclulate16BitSum m buffer bufferLength (buffer + bufferLength) true
    = Some m'
    /\ Caclulate16BitSum_value m' buffer (bufferLength + 2) false
       = Some 0xFFFF.
Proof.
  intros Hb Hn Heven Hm.
  assert (Hread : bytes_read bufferLength = Z.to_nat bufferLength).
  { unfold bytes_read. lia. }
  assert (Hread2 : bytes_read (bufferLength + 2)
                   = (Z.to_nat bufferLength + 2)%nat).
  { unfold bytes_read. lia. }
  rewrite Caclulate16BitSum_splice by lia.
  rewrite Caclulate16BitSum_value_spec;
    [|unfold INT_MAX in *; lia
     |unfold view; rewrite length_drop, Hread; lia].
  cbn [mbind option_bind]. eexists. split; [reflexivity|].
  rewrite Hread.
  set (h := take (Z.to_nat bufferLength) (view m buffer)).
  assert (Hh : length h = Z.to_nat bufferLength).
  { unfold h, view. rewrite length_take, length_drop. lia. }
  assert (Hle : length (le16 (Sum16Carry h true)) = 2%nat) by reflexivity.
  assert (Hview : take (Z.to_nat bufferLength + 2)
                    (view (splice m (buffer + bufferLength)
                             (le16 (Sum16Carry h true))) buffer)
                  = h ++ le16 (Sum16Carry h true)).
  { destruct (split_at m buffer ltac:(lia)) as (a & l & Hal & Hbuf).
    assert (Hvl : view m buffer = l).
    { unfold view. rewrite Hal, Hbuf, Nat2Z.id, drop_app_length.
      reflexivity. }
    assert (Hl : l = h ++ drop (Z.to_nat bufferLength) l).
    { unfold h. rewrite Hvl, take_drop. reflexivity. }
    assert (Hll : Z.of_nat (length l) >= bufferLength + 2).
    { rewrite Hal, length_app in Hm. lia. }
    set (t := drop (Z.to_nat bufferLength) l) in *.
    assert (Ht : (2 <= length t)%nat).
    { unfold t. rewrite length_drop. lia. }
    clearbody h t. clear Hvl. subst l m.
    replace (buffer + bufferLength)
      with (Z.of_nat (length (a ++ h))) by (rewrite length_app; lia).
    rewrite (app_assoc a h t), splice_app_r.
    unfold view. rewrite Hbuf, Nat2Z.id, <- app_assoc, drop_app_length.
    rewrite app_assoc. rewrite take_app_le by (rewrite length_app; lia).
    rewrite take_ge by (rewrite length_app; lia). reflexivity. }
  rewrite Caclulate16BitSum_value_spec.
  - rewrite Hread2, Hview. f_equal. apply Sum16Carry_with_inverted.
    rewrite Hh. exists (Z.to_nat (bufferLength / 2)). lia.
  - unfold INT_MAX in *. lia.
  - rewrite Hread2.
    apply (f_equal length) in Hview.
    rewrite length_take, length_app, Hh, Hle in Hview. lia.
Qed.

Lemma Caclulate16BitSum_inverted_verifies_witness :
  exists m',
    Caclulate16BitSum [x12; x34; x56; x78; x9a; xbc; x00; x00; xff] 1 4
      (1 + 4) true
    = Some m'
    /\ Caclulate16BitSum_value m' 1 (4 + 2) false = Some 0xFFFF.
Proof.
  apply (Caclulate16BitSum_inverted_verifies
           [x12; x34; x56; x78; x9a; xbc; x00; x00; xff] 1 4).
  - lia.
  - unfold INT_MAX. lia.
  - reflexivity.
  - simpl. lia.
Defined.

(** ** Devices that share their keys *)

(** The two factory-image operations take from the device its firmware
    key, its pair of RSA keys and the passphrase, and nothing else. *)
Lemma factory_operations_device `{L : Libs} (env : Env) (file : list byte)
    (outputFile : string) (device1 device2 : M32FirmwareUtilDeviceInfoType) :
  FirmwareKey device1 = FirmwareKey device2 ->
  PrivateKey device1 = PrivateKey device2 ->
  PublicKey device1 = PublicKey device2 ->
  Passphrase device1 = Passphrase device2 ->
  CreateFactoryImageFromRecoveryImage env file outputFile device1
  = CreateFactoryImageFromRecoveryImage env file outputFile device2
  /\ DecryptFactoryImage env file outputFile device1
     = DecryptFactoryImage env file outputFile device2.
Proof.
  destruct device1, device2. simpl.
  intros -> -> -> ->. split; reflexivity.
Qed.

(** X19: for [--CreateFactoryImage] and [--DecryptFactoryImage] the
    device names [M32] and [R32] are interchangeable: the two entries of
    the table share the firmware key, the RSA keys and the passphrase, so
    [main] returns the same value and writes the same output file, on every
    input, with either name. *)
Theorem main_M32_R32_interchangeable `{L : Libs} (env : Env) (files : Files)
    (program input output : string) (debug : list string) :
  main env files
    ([program; "M32"; "--CreateFactoryImage"; input; output] ++ debug)
  = main env files
      ([program; "R32"; "--CreateFactoryImage"; input; output] ++ debug)
  /\ main env files
       ([program; "M32"; "--DecryptFactoryImage"; input; output] ++ debug)
     = main env files
         ([program; "R32"; "--DecryptFactoryImage"; input; output] ++ debug).
Proof.
  assert (Hsame :
    forall operationArg entry,
      find_operation operationArg = Some entry ->
      (forall env file device1 device2,
         FirmwareKey device1 = FirmwareKey device2 ->
         PrivateKey device1 = PrivateKey device2 ->
         PublicKey device1 = PublicKey device2 ->
         Passphrase device1 = Passphrase device2 ->
         Operations.Operation entry env file output device1
         = Operations.Operation entry env file output device2) ->
      main env files ([program; "M32"; operationArg; input; output] ++ debug)
      = main env files
          ([program; "R32"; operationArg; input; output] ++ debug)).
  { intros operationArg entry Hentry Hop. unfold main.
    rewrite !length_app. cbn [length].
    destruct (negb (Z.of_nat (5 + length debug) =? 5)
              && negb (Z.of_nat (5 + length debug) =? 7)); [reflexivity|].
    cbn [app lookup list_lookup mbind option_bind].
    rewrite Hentry.
    destruct (if 6 <? Z.of_nat (5 + length debug)
              then
                argv5 ← debug !! 0%nat;
                if String.eqb "--debug" argv5
                then argv6 ← debug !! 1%nat; Some (with_debug env true argv6)
                else Some (with_debug env false "")
              else Some (with_debug env false "")) as [env'|];
      [|reflexivity].
    cbn [mbind option_bind].
    change (find_device "M32")
      with (M32FirmwareUtilDeviceInfos !! 1%nat).
    change (find_device "R32")
      with (M32FirmwareUtilDeviceInfos !! 2%nat).
    cbn [M32FirmwareUtilDeviceInfos lookup list_lookup].
    destruct (fopen_rb files input) as [file|]; [|reflexivity].
    destruct (fileno_fails files); [reflexivity|].
    destruct (fstat_fails files); [reflexivity|].
    destruct (Z.of_nat (length file) <? Operations.MinimumFileSize entry);
      [reflexivity|].
    apply Hop; reflexivity. }
  split.
  - apply (Hsame "--CreateFactoryImage" _ eq_refl).
    intros env' file device1 device2 H1 H2 H3 H4.
    apply (factory_operations_device env' file output device1 device2);
      assumption.
  - apply (Hsame "--DecryptFactoryImage" _ eq_refl).
    intros env' file device1 device2 H1 H2 H3 H4.
    apply (factory_operations_device env' file output device1 device2);
      assumption.
Qed.

(** [--UpdateFirmwareHeader] does tell the two devices apart: it looks for
    the partition magic of the device. *)
Example UpdateFirmwareHeader_M32_R32_differ :
  let files :=
    {| fopen_rb :=
         fun _ => Some (bytes_of_string "DLK6E6010001" ++ replicate 100 x00);
       fileno_fails := false; fstat_fails := false |} in
  status <$> @main Toy.libs Toy.env files
               ["m32-firmware-util"; "M32"; "--UpdateFirmwareHeader";
                "in.bin"; "out.bin"] = Some 0
  /\ status <$> @main Toy.libs Toy.env files
                  ["m32-firmware-util"; "R32"; "--UpdateFirmwareHeader";
                   "in.bin"; "out.bin"] = Some 1.
Proof. split; vm_compute; reflexivity. Qed.
